(** * react-guardian: the telemetry reporter, the recovery engine, the
    auto-correct engine and the layout watcher, embedded and verified.

    Each TypeScript class of [src/] is a module below.  Mutable fields
    become a record that is threaded through a small state/exception
    monad; everything the class calls outside itself (the network, the
    caller's callbacks, the browser) is logged as an event, and its outcome
    is chosen by a [World] that may look at the whole log so far. *)

From Stdlib Require Import NArith Ascii String Floats.
From stdpp Require Import base numbers list strings gmap.

(** ** The effect monad shared by the asynchronous classes *)

(** How a call ends: with a value, with a thrown exception (or a rejected
    promise, which [await] turns into a throw), or cut short because the
    model's recursion budget ran out. *)
Inductive Completion (A : Type) : Type :=
| Normal (a : A)
| Abrupt (err : string)
| Unfinished.
Arguments Normal {A} a.
Arguments Abrupt {A} err.
Arguments Unfinished {A}.

Section Effects.
Context {St Ev : Type}.

(** A computation reads and writes the object's fields [St] and appends to
    the log of external events [list Ev] (oldest first). *)
Definition M (A : Type) : Type := St -> list Ev -> Completion A * St * list Ev.

Definition ret {A} (a : A) : M A := fun s l => (Normal a, s, l).

Definition bind {A B} (m : M A) (k : A -> M B) : M B :=
  fun s l =>
    match m s l with
    | (Normal a, s1, l1) => k a s1 l1
    | (Abrupt err, s1, l1) => (Abrupt err, s1, l1)
    | (Unfinished, s1, l1) => (Unfinished, s1, l1)
    end.

Definition throw {A} (err : string) : M A := fun s l => (Abrupt err, s, l).

Definition out_of_fuel {A} : M A := fun s l => (Unfinished, s, l).

(** [try { body } catch (err) { handler err }] *)
Definition try_catch {A} (body : M A) (handler : string -> M A) : M A :=
  fun s l =>
    match body s l with
    | (Abrupt err, s1, l1) => handler err s1 l1
    | done => done
    end.

Definition get : M St := fun s l => (Normal s, s, l).
Definition modify (f : St -> St) : M unit := fun s l => (Normal tt, f s, l).
Definition history : M (list Ev) := fun s l => (Normal l, s, l).
Definition emit (e : Ev) : M unit := fun s l => (Normal tt, s, l ++ [e]).

End Effects.

Declare Scope eff_scope.
Delimit Scope eff_scope with eff.
Notation "x <- m ;; k" := (bind m (fun x => k))
  (at level 100, m at next level, right associativity) : eff_scope.
Notation "m ;;; k" := (bind m (fun _ => k))
  (at level 100, right associativity) : eff_scope.

(** Open the monad's operations in the goal and the context. *)
Ltac eff :=
  unfold bind, ret, get, modify, emit, history, throw, try_catch,
    out_of_fuel in *.

(** JavaScript truthiness of the optional values the classes test. *)
Definition truthy_string (s : option string) : bool :=
  match s with
  | Some (String _ _) => true
  | _ => false
  end.

Definition truthy_bool (b : option bool) : bool :=
  match b with
  | Some true => true
  | _ => false
  end.

(** [n || d] on an optional count: [undefined] and [0] fall back to [d]. *)
Definition or_default (n : option nat) (d : nat) : nat :=
  match n with
  | Some (S k) => S k
  | _ => d
  end.

(** [Math.max] on two numbers: NaN wins, and [+0] is above [-0]. *)
Definition js_max (a b : float) : float :=
  if is_nan a || is_nan b then nan
  else if (a <? b)%float then b
  else if (b <? a)%float then a
  else if get_sign a then b else a.

(** Text that is trimmed is a JavaScript string as it is: a sequence of
    UTF-16 code units. *)
Definition Text : Type := list N.

(** The code units of a literal made of ASCII characters. *)
Definition utf16 (s : string) : Text :=
  map N_of_ascii (list_ascii_of_string s).

(** White space as [String.prototype.trim] sees it: the WhiteSpace and
    LineTerminator code points of ECMAScript - tab, LF, VT, FF, CR, space,
    no-break space, U+1680, U+2000 to U+200A, U+2028, U+2029, U+202F,
    U+205F, U+3000 and U+FEFF - each of which is one code unit. *)
Definition is_space (u : N) : bool :=
  (((9 <=? u) && (u <=? 13)) || (u =? 32) || (u =? 160)
   || (u =? 0x1680) || ((0x2000 <=? u) && (u <=? 0x200A))
   || (u =? 0x2028) || (u =? 0x2029) || (u =? 0x202F) || (u =? 0x205F)
   || (u =? 0x3000) || (u =? 0xFEFF))%N.

(** [s.trim()] is a non-empty string. *)
Fixpoint has_non_space (s : Text) : bool :=
  match s with
  | [] => false
  | u :: rest => negb (is_space u) || has_non_space rest
  end.

(** * Reporter.ts *)
Module Reporter.

(** [GuardianError] of types.ts (the free-form [metadata] bag is left out). *)
Record GuardianError : Type := {
  message : string;
  stack : option string;
  componentStack : option string;
  errorBoundary : option string;
  timestamp : N;
  userId : option string;
  sessionId : option string;
  userAgent : option string;
  url : option string
}.

(** A caller-supplied callback is known by its name; what it does when
    called is the world's business. *)
Definition Callback : Type := string.

Record ReporterConfig : Type := {
  endpoint : option string;
  apiKey : option string;
  batchSize : option nat;
  flushInterval : option nat;
  customReporter : option Callback;
  enabled : option bool
}.

(** The fields of the class. [flushTimer] holds the period of the armed
    interval timer, if any. *)
Record Reporter : Type := {
  config : ReporterConfig;
  queue : list GuardianError;
  flushTimer : option nat
}.

(** The POST that [flush] hands to [fetch]. *)
Record Request : Type := {
  req_endpoint : string;
  req_authorization : option string;
  req_errors : list GuardianError
}.

Inductive Event : Type :=
| EvCustomReporter (cb : Callback) (error : GuardianError)
    (queued : list GuardianError)
    (** the sink is called; [queued] is the queue it could observe *)
| EvFetch (req : Request)
| EvConsoleError (msg : string)
| EvSetInterval (ms : nat)
| EvClearInterval.

(** How the promise of [customReporter(error)] ends; a plain function that
    throws before returning is [SinkThrows]. *)
Inductive SinkOutcome : Type :=
| SinkResolves
| SinkThrows (err : string)
| SinkRejects (err : string).

Inductive FetchOutcome : Type :=
| FetchRejects (err : string)
| FetchResponds (ok : bool) (status : string).

(** The outside of a reporter: both answers may depend on everything that
    was logged before the call. *)
Record World : Type := {
  sink : list Event -> Callback -> GuardianError -> SinkOutcome;
  network : list Event -> Request -> FetchOutcome
}.

Definition set_queue (q : list GuardianError) (r : Reporter) : Reporter :=
  {| config := config r; queue := q; flushTimer := flushTimer r |}.

Definition set_flushTimer (t : option nat) (r : Reporter) : Reporter :=
  {| config := config r; queue := queue r; flushTimer := t |}.

Definition set_config (c : ReporterConfig) (r : Reporter) : Reporter :=
  {| config := c; queue := queue r; flushTimer := flushTimer r |}.

Local Open Scope eff_scope.

(** Computations of a reporter. *)
Abbreviation Eff := (M (St := Reporter) (Ev := Event)).

Definition console_error (msg : string) : Eff unit :=
  emit (EvConsoleError msg).

(** [await this.config.customReporter(error)] *)
Definition await_customReporter (w : World) (cb : Callback)
    (error : GuardianError) : Eff unit :=
  r <- get ;;
  l <- history ;;
  emit (EvCustomReporter cb error (queue r)) ;;;
  match sink w l cb error with
  | SinkResolves => ret tt
  | SinkThrows err => throw err
  | SinkRejects err => throw err
  end.

(** [await fetch(endpoint, ...)] followed by the [response.ok] test. *)
Definition await_fetch (w : World) (req : Request) : Eff unit :=
  l <- history ;;
  emit (EvFetch req) ;;;
  match network w l req with
  | FetchRejects err => throw err
  | FetchResponds true _ => ret tt
  | FetchResponds false status => throw ("HTTP " ++ status)%string
  end.

Definition mk_request (c : ReporterConfig) (ep : string)
    (errorsToSend : list GuardianError) : Request :=
  {| req_endpoint := ep;
     req_authorization :=
       if truthy_string (apiKey c)
       then option_map (fun k => "Bearer " ++ k)%string (apiKey c)
       else None;
     req_errors := errorsToSend |}.

(** The [catch] block of [flush]. *)
Definition requeue (errorsToSend : list GuardianError) : Eff unit :=
  console_error "Failed to report errors:" ;;;
  r <- get ;;
  if length (queue r) <? 100
  then modify (set_queue (errorsToSend ++ queue r))
  else ret tt.

Definition flush (w : World) : Eff unit :=
  r <- get ;;
  if (length (queue r) =? 0) || negb (truthy_string (endpoint (config r)))
  then ret tt
  else
    let errorsToSend := queue r in
    modify (set_queue []) ;;;
    try_catch
      (await_fetch w
         (mk_request (config r) (default "" (endpoint (config r)))
            errorsToSend))
      (fun _ => requeue errorsToSend).

Definition report (w : World) (error : GuardianError) : Eff unit :=
  r <- get ;;
  if negb (truthy_bool (enabled (config r))) then ret tt
  else
    modify (fun r => set_queue (queue r ++ [error]) r) ;;;
    match customReporter (config r) with
    | Some cb =>
        try_catch
          (await_customReporter w cb error)
          (fun _ => console_error "Custom reporter failed:")
    | None =>
        r1 <- get ;;
        if or_default (batchSize (config r1)) 10 <=? length (queue r1)
        then flush w
        else ret tt
    end.

(** The body of the interval callback armed by [startFlushTimer]. *)
Definition on_flush_timer (w : World) : Eff unit :=
  r <- get ;;
  if 0 <? length (queue r) then flush w else ret tt.

Definition startFlushTimer : Eff unit :=
  r <- get ;;
  match flushTimer r with
  | Some _ => emit EvClearInterval
  | None => ret tt
  end ;;;
  let ms := or_default (flushInterval (config r)) 5000 in
  emit (EvSetInterval ms) ;;;
  modify (set_flushTimer (Some ms)).

Definition stop (w : World) : Eff unit :=
  r <- get ;;
  match flushTimer r with
  | Some _ => emit EvClearInterval ;;; modify (set_flushTimer None)
  | None => ret tt
  end ;;;
  flush w.

(** An object literal of the shape of [ReporterConfig], as the spread
    operator sees it: a key is [None] when the literal does not have it
    and [Some v] when it has it with the value [v] - which may be
    [undefined], and overwrites all the same. *)
Record ReporterConfigLiteral : Type := {
  has_endpoint : option (option string);
  has_apiKey : option (option string);
  has_batchSize : option (option nat);
  has_flushInterval : option (option nat);
  has_customReporter : option (option Callback);
  has_enabled : option (option bool)
}.

(** The literal that has just the keys that [c] gives a value. *)
Definition given (c : ReporterConfig) : ReporterConfigLiteral :=
  {| has_endpoint := option_map Some (endpoint c);
     has_apiKey := option_map Some (apiKey c);
     has_batchSize := option_map Some (batchSize c);
     has_flushInterval := option_map Some (flushInterval c);
     has_customReporter := option_map Some (customReporter c);
     has_enabled := option_map Some (enabled c) |}.

(** [{ ...this.config, ...newConfig }]: every key that [newConfig] has
    wins. *)
Definition merge (old : ReporterConfig) (new : ReporterConfigLiteral)
    : ReporterConfig :=
  {| endpoint := default (endpoint old) (has_endpoint new);
     apiKey := default (apiKey old) (has_apiKey new);
     batchSize := default (batchSize old) (has_batchSize new);
     flushInterval := default (flushInterval old) (has_flushInterval new);
     customReporter := default (customReporter old) (has_customReporter new);
     enabled := default (enabled old) (has_enabled new) |}.

Definition updateConfig (newConfig : ReporterConfigLiteral) : Eff unit :=
  modify (fun r => set_config (merge (config r) newConfig) r) ;;;
  r <- get ;;
  if truthy_bool (enabled (config r)) then startFlushTimer
  else
    match flushTimer r with
    | Some _ => emit EvClearInterval ;;; modify (set_flushTimer None)
    | None => ret tt
    end.

Definition getQueueSize (r : Reporter) : nat := length (queue r).

Definition clearQueue : Eff unit :=
  modify (set_queue []).

(** [{ batchSize: 10, flushInterval: 5000, enabled: true, ...config }] *)
Definition with_defaults (c : ReporterConfigLiteral) : ReporterConfig :=
  {| endpoint := default None (has_endpoint c);
     apiKey := default None (has_apiKey c);
     batchSize := default (Some 10) (has_batchSize c);
     flushInterval := default (Some 5000) (has_flushInterval c);
     customReporter := default None (has_customReporter c);
     enabled := default (Some true) (has_enabled c) |}.

(** Spreading [undefined] adds no key. *)
Definition no_config : ReporterConfigLiteral :=
  {| has_endpoint := None; has_apiKey := None; has_batchSize := None;
     has_flushInterval := None; has_customReporter := None;
     has_enabled := None |}.

(** [new Reporter(config)]: the fields and the log right after it. *)
Definition constructor (c : option ReporterConfigLiteral)
    : Reporter * list Event :=
  let r := {| config := with_defaults (default no_config c);
              queue := []; flushTimer := None |} in
  if truthy_bool (enabled (config r))
  then match startFlushTimer r [] with (_, r1, l1) => (r1, l1) end
  else (r, []).

(** What the host does to a reporter, one call after the other: each call
    has settled before the next one starts.  (Where a request that is
    still under way matters, the [catch] block of [flush] is the
    definition [requeue] of its own, to be run on whatever the queue has
    become.) *)
Inductive Call : Type :=
| CallReport (error : GuardianError)
| CallFlush
| TimerFires
| CallStop.

Definition run_call (w : World) (c : Call) : Eff unit :=
  match c with
  | CallReport error => report w error
  | CallFlush => flush w
  | TimerFires => on_flush_timer w
  | CallStop => stop w
  end.

Fixpoint run_calls (w : World) (cs : list Call) : Eff unit :=
  match cs with
  | [] => ret tt
  | c :: cs' => run_call w c ;;; run_calls w cs'
  end.

Definition reported (cs : list Call) : list GuardianError :=
  omap (fun c => match c with CallReport e => Some e | _ => None end) cs.

Definition is_fetch (e : Event) : bool :=
  match e with EvFetch _ => true | _ => false end.

Definition is_sink_call (e : Event) : bool :=
  match e with EvCustomReporter _ _ _ => true | _ => false end.

End Reporter.


(** * RecoveryEngine.ts *)
Module RecoveryEngine.

Inductive RecoveryStrategy : Type :=
| retry
| fallback
| reload
| redirect
| custom
| unknown (tag : string).
(** [unknown] stands for any value outside the declared union, which the
    [default:] branch of [performRecovery] still handles. *)

#[global] Instance RecoveryStrategy_eq_dec : EqDecision RecoveryStrategy.
Proof. solve_decision. Defined.

(** A React component type and a caller's procedure, known by name. *)
Definition Component : Type := string.
Definition Procedure : Type := string.
Definition Callback : Type := string.

(** [RecoveryAction] of types.ts; the two counts are natural numbers. *)
Module Action.
Record t : Type := {
  strategy : RecoveryStrategy;
  fallbackComponent : option Component;
  redirectUrl : option string;
  retryCount : option N;
  maxRetries : option N;
  customAction : option Procedure
}.
End Action.

(** [RecoveryEngineConfig] of types.ts *)
Module Config.
Record t : Type := {
  enabled : bool;
  strategies : list RecoveryStrategy;
  maxRetries : N;
  fallbackComponent : option Component;
  onRecovery : Callback
}.
End Config.

Record Engine : Type := {
  config : Config.t;
  retryCount : N;
  isRecovering : bool
}.

Inductive Event : Type :=
| EvOnRecovery (action : Action.t)
| EvDelay (ms : N)
| EvReload
| EvNavigate (href : string)
| EvCustomAction (p : Procedure)
| EvConsoleWarn (msg : string)
| EvConsoleError (msg : string).

(** What the outside does when called: [None] is a normal return,
    [Some err] a throw (or a rejected promise). *)
Record World : Type := {
  onRecovery_call : list Event -> Action.t -> option string;
  reload_call : list Event -> option string;
  navigate_call : list Event -> string -> option string;
  customAction_call : list Event -> Procedure -> option string
}.

Abbreviation Eff := (M (St := Engine) (Ev := Event)).

Local Open Scope eff_scope.

Definition constructor (c : Config.t) : Engine :=
  {| config := c; retryCount := 0%N; isRecovering := false |}.

Definition set_retryCount (n : N) (e : Engine) : Engine :=
  {| config := config e; retryCount := n; isRecovering := isRecovering e |}.

Definition set_isRecovering (b : bool) (e : Engine) : Engine :=
  {| config := config e; retryCount := retryCount e; isRecovering := b |}.

(** An external call: log it, then return or throw as the world says. *)
Definition external (ev : Event) (answer : list Event -> option string)
    : Eff unit :=
  l <- history ;;
  emit ev ;;;
  match answer l with
  | None => ret tt
  | Some err => throw err
  end.

(** [n || d] on an optional number. *)
Definition or_else (n : option N) (d : N) : N :=
  match n with
  | Some (Npos p) => Npos p
  | _ => d
  end.

(** [Math.min(1000 * Math.pow(2, retryCount), 10000)] *)
Definition backoff (attempt : N) : N := N.min (1000 * 2 ^ attempt) 10000.

(** [this.delay(ms)]: the timer is the only effect. *)
Definition delay (ms : N) : Eff unit := emit (EvDelay ms).

Definition handleRetry (action : Action.t) : Eff bool :=
  e <- get ;;
  let maxRetries :=
    or_else (Action.maxRetries action) (Config.maxRetries (config e)) in
  let retryCount := or_else (Action.retryCount action) 0 in
  if (maxRetries <=? retryCount)%N
  then emit (EvConsoleWarn "Max retries exceeded for recovery action") ;;;
       ret false
  else delay (backoff retryCount) ;;; ret true.

Definition handleFallback (action : Action.t) : Eff bool :=
  e <- get ;;
  try_catch
    (match Action.fallbackComponent action with
     | Some _ => ret true
     | None =>
         match Config.fallbackComponent (config e) with
         | Some _ => ret true
         | None => ret false
         end
     end)
    (fun _ => ret false).

Definition handleReload (w : World) (action : Action.t) : Eff bool :=
  try_catch
    (external EvReload (reload_call w) ;;; ret true)
    (fun _ => emit (EvConsoleError "Reload strategy failed:") ;;; ret false).

Definition handleRedirect (w : World) (action : Action.t) : Eff bool :=
  try_catch
    (if truthy_string (Action.redirectUrl action)
     then let href := default "" (Action.redirectUrl action) in
          external (EvNavigate href) (fun l => navigate_call w l href) ;;;
          ret true
     else external (EvNavigate "/") (fun l => navigate_call w l "/") ;;;
          ret true)
    (fun _ => emit (EvConsoleError "Redirect strategy failed:") ;;; ret false).

Definition handleCustom (w : World) (action : Action.t) : Eff bool :=
  try_catch
    (match Action.customAction action with
     | Some p =>
         external (EvCustomAction p) (fun l => customAction_call w l p) ;;;
         ret true
     | None => emit (EvConsoleWarn "Custom action not provided") ;;; ret false
     end)
    (fun _ => emit (EvConsoleError "Custom strategy failed:") ;;; ret false).

Definition performRecovery (w : World) (action : Action.t) : Eff bool :=
  match Action.strategy action with
  | retry => handleRetry action
  | fallback => handleFallback action
  | reload => handleReload w action
  | redirect => handleRedirect w action
  | custom => handleCustom w action
  | unknown tag =>
      emit (EvConsoleWarn ("Unknown recovery strategy: " ++ tag)%string) ;;;
      ret false
  end.

(** How the [try] block of [execute] leaves: with the value to return, or
    with [return this.execute(action)], whose promise is handed back as
    it is (a rejection of it is not this block's to catch). *)
Inductive Leave : Type :=
| Return (b : bool)
| Again.

(** [execute]; [fuel] bounds the depth of the self-call. *)
Fixpoint execute (fuel : nat) (w : World) (action : Action.t) : Eff bool :=
  match fuel with
  | O => out_of_fuel
  | S fuel' =>
      e <- get ;;
      if negb (Config.enabled (config e)) || isRecovering e then ret false
      else
        modify (set_isRecovering true) ;;;
        external (EvOnRecovery action) (fun l => onRecovery_call w l action) ;;;
        leave <-
          try_catch
            (success <- performRecovery w action ;;
             if success : bool
             then modify (set_retryCount 0) ;;;
                  modify (set_isRecovering false) ;;;
                  ret (Return true)
             else
               e1 <- get ;;
               if (retryCount e1 <? Config.maxRetries (config e1))%N
               then modify (set_retryCount (retryCount e1 + 1)) ;;;
                    ret Again
               else modify (set_isRecovering false) ;;;
                    ret (Return false))
            (fun _ =>
               emit (EvConsoleError "Recovery execution failed:") ;;;
               modify (set_isRecovering false) ;;;
               ret (Return false)) ;;
        match leave with
        | Return b => ret b
        | Again => execute fuel' w action
        end
  end.

Definition isStrategySupported (e : Engine) (s : RecoveryStrategy) : bool :=
  bool_decide (s ∈ Config.strategies (config e)).

Definition getRetryCount (e : Engine) : N := retryCount e.

Definition resetRetryCount : Eff unit := modify (set_retryCount 0).

Definition isCurrentlyRecovering (e : Engine) : bool := isRecovering e.

(** Strategy invocations in a log: [execute] announces each one through
    the recovery-started callback. *)
Definition is_attempt (ev : Event) : bool :=
  match ev with EvOnRecovery _ => true | _ => false end.

Definition attempts (l : list Event) : nat := length (filter is_attempt l).

Definition delays (l : list Event) : list N :=
  omap (fun ev => match ev with EvDelay ms => Some ms | _ => None end) l.

End RecoveryEngine.

(** * AutoCorrect.ts *)
Module AutoCorrect.

Inductive AutoCorrectStrategy : Type :=
| reload_component
| restore_content
| fix_layout
| inject_fallback
| retry_render.

(** A DOM node is known by its identity. *)
Definition Element : Type := nat.
Definition Callback : Type := string.

(** [AutoCorrectConfig], its three nested groups flattened. *)
Record AutoCorrectConfig : Type := {
  enabled : bool;
  whitePageDetection_enabled : bool;
  whitePageDetection_threshold : float;
  whitePageDetection_checkInterval : nat;
  pageBreakDetection_enabled : bool;
  pageBreakDetection_selectors : list string;
  pageBreakDetection_minHeight : float;
  visualHealing_enabled : bool;
  visualHealing_strategies : list AutoCorrectStrategy;
  onAutoCorrect : option Callback
}.

Inductive ActionType : Type :=
| white_page_fix
| page_break_fix
| layout_heal
| content_restore.

(** [AutoCorrectAction] (its [timestamp] and [metadata] are left out). *)
Record AutoCorrectAction : Type := {
  type : ActionType;
  element : option Element;
  description : string;
  success : bool
}.

(** The fields of the class. *)
Record AutoCorrect : Type := {
  config : AutoCorrectConfig;
  whitePageCheckInterval : option positive;
  isRunning : bool;
  lastContentSnapshot : string;
  contentHistory : list string
}.

(** The callbacks the class hands to the browser. *)
Inductive Handler : Type :=
| CheckForWhitePage
| CheckForPageBreaks
| CheckForVisualIssues
| AttemptPageReload.

(** What the browser holds on behalf of the page: armed interval and
    one-shot timers by handle, the mutation observers connected to
    [document.body], and each resize observer with the elements it
    observes. *)
Record Browser : Type := {
  intervals : gmap positive Handler;
  timeouts : gmap positive Handler;
  mutationObservers : list Handler;
  resizeObservers : list (Handler * list Element);
  nextTimer : positive
}.

Definition fresh_browser : Browser :=
  {| intervals := ∅; timeouts := ∅; mutationObservers := [];
     resizeObservers := []; nextTimer := 1%positive |}.

(** The engine together with the browser it registers with. *)
Record System : Type := {
  self : AutoCorrect;
  browser : Browser
}.

(** What a callback reads from the document when it runs. *)
Record Node : Type := {
  node : Element;
  display : string;
  visibility : string;
  opacity : string;
  textContent : Text
}.

Record Page : Type := {
  body_innerHTML : string;
  body_scrollHeight : float;
  body_offsetHeight : float;
  html_clientHeight : float;
  html_scrollHeight : float;
  html_offsetHeight : float;
  innerHeight : float;
  all_elements : list Node
}.

Inductive Event : Type :=
| EvOnAutoCorrect (cb : Callback) (action : AutoCorrectAction)
| EvSetBodyInnerHTML (html : string)
| EvReload
| EvConsoleWarn (msg : string).

(** The outside of the engine.  [onAutoCorrect_call] is what the caller's
    callback does: [None] is a normal return, [Some err] a throw.
    [reread] is the document as a callback finds it when it looks again
    after having written to it: the elements may depend on everything
    that was done since [page] was read. *)
Record World : Type := {
  onAutoCorrect_call : list Event -> AutoCorrectAction -> option string;
  reread : list Event -> Page -> Page
}.

Abbreviation Eff := (M (St := System) (Ev := Event)).

Local Open Scope eff_scope.

Definition constructor (c : AutoCorrectConfig) : AutoCorrect :=
  {| config := c; whitePageCheckInterval := None; isRunning := false;
     lastContentSnapshot := ""; contentHistory := [] |}.

Definition on_self (f : AutoCorrect -> AutoCorrect) (s : System) : System :=
  {| self := f (self s); browser := browser s |}.

Definition on_browser (f : Browser -> Browser) (s : System) : System :=
  {| self := self s; browser := f (browser s) |}.

Definition set_isRunning (b : bool) (a : AutoCorrect) : AutoCorrect :=
  {| config := config a; whitePageCheckInterval := whitePageCheckInterval a;
     isRunning := b; lastContentSnapshot := lastContentSnapshot a;
     contentHistory := contentHistory a |}.

Definition set_whitePageCheckInterval (t : option positive) (a : AutoCorrect)
    : AutoCorrect :=
  {| config := config a; whitePageCheckInterval := t;
     isRunning := isRunning a; lastContentSnapshot := lastContentSnapshot a;
     contentHistory := contentHistory a |}.

Definition set_lastContentSnapshot (h : string) (a : AutoCorrect)
    : AutoCorrect :=
  {| config := config a; whitePageCheckInterval := whitePageCheckInterval a;
     isRunning := isRunning a; lastContentSnapshot := h;
     contentHistory := contentHistory a |}.

Definition set_contentHistory (h : list string) (a : AutoCorrect)
    : AutoCorrect :=
  {| config := config a; whitePageCheckInterval := whitePageCheckInterval a;
     isRunning := isRunning a; lastContentSnapshot := lastContentSnapshot a;
     contentHistory := h |}.

(** [setInterval(h, ms)]: arm a timer under a fresh handle. *)
Definition setInterval (h : Handler) : Eff positive :=
  s <- get ;;
  let id := nextTimer (browser s) in
  modify (on_browser (fun b =>
    {| intervals := <[id := h]> (intervals b); timeouts := timeouts b;
       mutationObservers := mutationObservers b;
       resizeObservers := resizeObservers b;
       nextTimer := Pos.succ id |})) ;;;
  ret id.

Definition clearInterval (id : positive) : Eff unit :=
  modify (on_browser (fun b =>
    {| intervals := delete id (intervals b); timeouts := timeouts b;
       mutationObservers := mutationObservers b;
       resizeObservers := resizeObservers b;
       nextTimer := nextTimer b |})).

Definition setTimeout (h : Handler) : Eff positive :=
  s <- get ;;
  let id := nextTimer (browser s) in
  modify (on_browser (fun b =>
    {| intervals := intervals b; timeouts := <[id := h]> (timeouts b);
       mutationObservers := mutationObservers b;
       resizeObservers := resizeObservers b;
       nextTimer := Pos.succ id |})) ;;;
  ret id.

(** [new MutationObserver(h).observe(document.body, ...)] *)
Definition observe_mutations (h : Handler) : Eff unit :=
  modify (on_browser (fun b =>
    {| intervals := intervals b; timeouts := timeouts b;
       mutationObservers := mutationObservers b ++ [h];
       resizeObservers := resizeObservers b;
       nextTimer := nextTimer b |})).

(** [new ResizeObserver(h)] observing each of [els]. *)
Definition observe_resizes (h : Handler) (els : list Element) : Eff unit :=
  modify (on_browser (fun b =>
    {| intervals := intervals b; timeouts := timeouts b;
       mutationObservers := mutationObservers b;
       resizeObservers := resizeObservers b ++ [(h, els)];
       nextTimer := nextTimer b |})).

Definition startWhitePageDetection : Eff unit :=
  id <- setInterval CheckForWhitePage ;;
  modify (on_self (set_whitePageCheckInterval (Some id))).

Definition startPageBreakDetection : Eff unit :=
  observe_mutations CheckForPageBreaks.

Definition startVisualHealing (page : Page) : Eff unit :=
  observe_resizes CheckForVisualIssues (map node (all_elements page)).

Definition start (page : Page) : Eff unit :=
  s <- get ;;
  if isRunning (self s) then ret tt
  else
    modify (on_self (set_isRunning true)) ;;;
    (if whitePageDetection_enabled (config (self s))
     then startWhitePageDetection else ret tt) ;;;
    (if pageBreakDetection_enabled (config (self s))
     then startPageBreakDetection else ret tt) ;;;
    (if visualHealing_enabled (config (self s))
     then startVisualHealing page else ret tt).

Definition stop : Eff unit :=
  modify (on_self (set_isRunning false)) ;;;
  s <- get ;;
  match whitePageCheckInterval (self s) with
  | Some id =>
      clearInterval id ;;;
      modify (on_self (set_whitePageCheckInterval None))
  | None => ret tt
  end.

(** [this.config.onAutoCorrect?.(action)] *)
Definition reportAutoCorrect (w : World) (action : AutoCorrectAction)
    : Eff unit :=
  s <- get ;;
  match onAutoCorrect (config (self s)) with
  | Some cb =>
      l <- history ;;
      emit (EvOnAutoCorrect cb action) ;;;
      match onAutoCorrect_call w l action with
      | None => ret tt
      | Some err => throw err
      end
  | None => ret tt
  end.

Definition attemptPageReload : Eff unit := emit EvReload.

(** [this.contentHistory.pop()]: the last entry leaves and is returned. *)
Definition pop_contentHistory : Eff (option string) :=
  s <- get ;;
  modify (on_self
            (set_contentHistory (removelast (contentHistory (self s))))) ;;;
  ret (last (contentHistory (self s))).

Definition restoreFromHistory (w : World) : Eff unit :=
  s <- get ;;
  if 0 <? length (contentHistory (self s))
  then
    lastContent <- pop_contentHistory ;;
    if truthy_string lastContent
    then
      emit (EvSetBodyInnerHTML (default "" lastContent)) ;;;
      reportAutoCorrect w
        {| type := content_restore; element := None;
           description := "Restored content from history"; success := true |}
    else ret tt
  else ret tt.

Definition handleWhitePage (w : World) : Eff unit :=
  emit (EvConsoleWarn "White page detected - attempting auto-correction") ;;;
  s <- get ;;
  if 0 <? length (contentHistory (self s))
  then restoreFromHistory w
  else attemptPageReload.

(** The placeholder markup of [injectFallbackContent], abbreviated. *)
Definition fallbackHTML : string := "<div><h1>Page Loading...</h1></div>".

Definition injectFallbackContent : Eff unit :=
  emit (EvSetBodyInnerHTML fallbackHTML).

Definition handleEmptyPage : Eff unit :=
  emit (EvConsoleWarn "Empty page detected - attempting auto-correction") ;;;
  injectFallbackContent ;;;
  _ <- setTimeout AttemptPageReload ;;
  ret tt.

(** The loop of [hasVisibleContent], entered with [visibleCount] found. *)
Fixpoint hasVisibleContent_from (visibleCount : nat) (elements : list Node)
    : bool :=
  match elements with
  | [] => false
  | el :: rest =>
      if negb (String.eqb (display el) "none")
         && negb (String.eqb (visibility el) "hidden")
         && negb (String.eqb (opacity el) "0")
         && has_non_space (textContent el)
      then
        if 3 <? S visibleCount then true
        else hasVisibleContent_from (S visibleCount) rest
      else hasVisibleContent_from visibleCount rest
  end.

Definition hasVisibleContent (page : Page) : bool :=
  hasVisibleContent_from 0 (all_elements page).

(** [checkForWhitePage], run on the document [page].  The heights are
    read first; [hasVisibleContent] looks at the document only after
    [handleWhitePage] may have rewritten it. *)
Definition checkForWhitePage (w : World) (page : Page) : Eff unit :=
  let contentHeight :=
    js_max (body_scrollHeight page)
      (js_max (body_offsetHeight page)
         (js_max (html_clientHeight page)
            (js_max (html_scrollHeight page) (html_offsetHeight page)))) in
  let viewportHeight := innerHeight page in
  let contentRatio := (contentHeight / viewportHeight)%float in
  s <- get ;;
  let white :=
    (contentRatio <? whitePageDetection_threshold (config (self s)))%float in
  (if white then handleWhitePage w else ret tt) ;;;
  l <- history ;;
  let now := if white then reread w l page else page in
  if negb (hasVisibleContent now) && (contentHeight <? 100)%float
  then handleEmptyPage
  else ret tt.

Definition saveContentSnapshot (page : Page) : Eff unit :=
  modify (on_self (set_lastContentSnapshot (body_innerHTML page))) ;;;
  modify (on_self (fun a =>
    set_contentHistory (contentHistory a ++ [lastContentSnapshot a]) a)) ;;;
  s <- get ;;
  if 5 <? length (contentHistory (self s))
  then modify (on_self (fun a =>
         set_contentHistory (tail (contentHistory a)) a))
  else ret tt.

(** What the browser can signal to the page. *)
Inductive Signal : Type :=
| IntervalElapsed (id : positive)
| TimeoutElapsed (id : positive)
| DomMutated
| Resized (el : Element).

(** The callbacks the browser invokes on a signal: those still registered
    for it. *)
Definition deliver (b : Browser) (sg : Signal) : list Handler :=
  match sg with
  | IntervalElapsed id => option_list (intervals b !! id)
  | TimeoutElapsed id => option_list (timeouts b !! id)
  | DomMutated => mutationObservers b
  | Resized el =>
      omap (fun o : Handler * list Element =>
              if bool_decide (el ∈ o.2) then Some o.1 else None)
        (resizeObservers b)
  end.

(** The public calls of the class and the white-page callback, as the host
    and the browser may interleave them. *)
Inductive Call : Type :=
| CallStart (page : Page)
| CallStop
| CallSaveContentSnapshot (page : Page)
| RunCheckForWhitePage (page : Page).

Definition run_call (w : World) (c : Call) : Eff unit :=
  match c with
  | CallStart page => start page
  | CallStop => stop
  | CallSaveContentSnapshot page => saveContentSnapshot page
  | RunCheckForWhitePage page => checkForWhitePage w page
  end.

(** A callback that throws ends itself, not the page: the next call runs
    on the fields as the failed one left them. *)
Fixpoint run_calls (w : World) (cs : list Call) (s : System) (l : list Event)
    : System * list Event :=
  match cs with
  | [] => (s, l)
  | c :: cs' =>
      match run_call w c s l with
      | (_, s1, l1) => run_calls w cs' s1 l1
      end
  end.

(** [n] snapshots taken in a row, of the pages [pages]. *)
Definition save_all (pages : list Page) : list Call :=
  map CallSaveContentSnapshot pages.

End AutoCorrect.

(** * LayoutWatcher.ts *)
Module LayoutWatcher.

Definition Element : Type := nat.
Definition Callback : Type := string.

(** The fields of a [DOMRect] the watcher reads; they are JavaScript
    numbers, that is IEEE 754 doubles. *)
Record DOMRect : Type := {
  left : float;
  top : float;
  right : float;
  bottom : float;
  width : float;
  height : float
}.

(** The computed style properties the watcher reads; [opacity] is the
    number [parseFloat] makes of the property. *)
Record CSSStyleDeclaration : Type := {
  overflowX : string;
  overflowY : string;
  clipPath : string;
  clip : string;
  position : string;
  visibility : string;
  display : string;
  opacity : float
}.

(** What the document says about one element at the time of a check. *)
Record ElementView : Type := {
  contained : bool;
  boundingClientRect : DOMRect;
  computedStyle : CSSStyleDeclaration;
  parentElement : option Element;
  textContent : option Text;
  children_length : nat
}.

(** The document at the time of a check; [querySelectorAll] is [None] on a
    selector it rejects with an exception. *)
Record DOM : Type := {
  view : Element -> ElementView;
  querySelectorAll : string -> option (list Element)
}.

Inductive AnomalyType : Type :=
| overflow
| clipping
| positioning
| sizing
| visibility_anomaly.

Inductive Severity : Type :=
| low
| medium
| high
| critical.

(** [LayoutAnomaly] (the description text, the timestamp, the selector hint
    and the style snapshot are left out). *)
Record LayoutAnomaly : Type := {
  type : AnomalyType;
  element : Element;
  severity : Severity;
  boundingRect : option DOMRect
}.

Record Thresholds : Type := {
  threshold_overflow : float;
  threshold_clipping : float;
  threshold_positioning : float
}.

Record LayoutWatcherConfig : Type := {
  enabled : bool;
  interval : nat;
  selectors : list string;
  thresholds : Thresholds;
  onAnomaly : Callback
}.

(** The fields of the class that the checks use. *)
Record LayoutWatcher : Type := {
  config : LayoutWatcherConfig;
  isRunning : bool;
  baselineMetrics : gmap Element DOMRect
}.

Inductive Event : Type :=
| EvOnAnomaly (anomaly : LayoutAnomaly)
| EvConsoleWarn (msg : string).

Record World : Type := {
  onAnomaly_call : list Event -> LayoutAnomaly -> option string
}.

Abbreviation Eff := (M (St := LayoutWatcher) (Ev := Event)).

Local Open Scope eff_scope.

Definition constructor (c : LayoutWatcherConfig) : LayoutWatcher :=
  {| config := c; isRunning := false; baselineMetrics := ∅ |}.

Definition on_baselineMetrics
    (f : gmap Element DOMRect -> gmap Element DOMRect) (lw : LayoutWatcher)
    : LayoutWatcher :=
  {| config := config lw; isRunning := isRunning lw;
     baselineMetrics := f (baselineMetrics lw) |}.

(** [this.config.onAnomaly(anomaly)] *)
Definition reportAnomaly (w : World) (anomaly : LayoutAnomaly) : Eff unit :=
  l <- history ;;
  emit (EvOnAnomaly anomaly) ;;;
  match onAnomaly_call w l anomaly with
  | None => ret tt
  | Some err => throw err
  end.

(** [a > b] on numbers. *)
Definition gt (a b : float) : bool := (b <? a)%float.

Definition calculateSeverity (rect parentRect : DOMRect) : Severity :=
  let overflowRatio :=
    js_max ((right rect - right parentRect) / width parentRect)
      (js_max ((left parentRect - left rect) / width parentRect)
         (js_max ((bottom rect - bottom parentRect) / height parentRect)
            ((top parentRect - top rect) / height parentRect)))%float in
  if gt overflowRatio 0.5 then critical
  else if gt overflowRatio 0x1.3333333333333p-2 then high
  else if gt overflowRatio 0x1.999999999999ap-4 then medium
  else low.
(** The last two constants are the doubles that [0.3] and [0.1] denote. *)

Definition calculateSeverityFromDelta (delta : float) : Severity :=
  if gt delta 100 then critical
  else if gt delta 50 then high
  else if gt delta 20 then medium
  else low.

Definition checkOverflowAnomaly (w : World) (dom : DOM) (element : Element)
    (rect : DOMRect) (style : CSSStyleDeclaration) : Eff unit :=
  if String.eqb (overflowX style) "visible"
     || String.eqb (overflowY style) "visible"
  then
    match parentElement (view dom element) with
    | Some parent =>
        let parentRect := boundingClientRect (view dom parent) in
        let overflowX :=
          gt (right rect) (right parentRect)
          || (left rect <? left parentRect)%float in
        let overflowY :=
          gt (bottom rect) (bottom parentRect)
          || (top rect <? top parentRect)%float in
        if overflowX || overflowY
        then reportAnomaly w
               {| type := overflow; element := element;
                  severity := calculateSeverity rect parentRect;
                  boundingRect := Some rect |}
        else ret tt
    | None => ret tt
    end
  else ret tt.

Definition checkClippingAnomaly (w : World) (element : Element)
    (rect : DOMRect) (style : CSSStyleDeclaration) : Eff unit :=
  if negb (String.eqb (clipPath style) "none")
     || negb (String.eqb (clip style) "auto")
  then
    let isClipped := (width rect =? 0)%float || (height rect =? 0)%float in
    if isClipped
    then reportAnomaly w
           {| type := clipping; element := element; severity := high;
              boundingRect := Some rect |}
    else ret tt
  else ret tt.

Definition checkPositioningAnomaly (w : World) (dom : DOM)
    (element : Element) (rect : DOMRect) (baseline : option DOMRect)
    : Eff unit :=
  match baseline with
  | None => ret tt
  | Some baseline =>
      lw <- get ;;
      let position := position (computedStyle (view dom element)) in
      let threshold := threshold_positioning (thresholds (config lw)) in
      if String.eqb position "absolute" || String.eqb position "fixed"
      then
        let deltaX := abs (left rect - left baseline) in
        let deltaY := abs (top rect - top baseline) in
        let deltaDistance := sqrt (deltaX * deltaX + deltaY * deltaY) in
        if gt deltaDistance (threshold * 100)
        then reportAnomaly w
               {| type := positioning; element := element;
                  severity := calculateSeverityFromDelta deltaDistance;
                  boundingRect := Some rect |}
        else ret tt
      else ret tt
  end.

Definition checkSizingAnomaly (w : World) (element : Element)
    (rect : DOMRect) (baseline : option DOMRect) : Eff unit :=
  match baseline with
  | None => ret tt
  | Some baseline =>
      lw <- get ;;
      let threshold := threshold_overflow (thresholds (config lw)) in
      let widthChange :=
        (abs (width rect - width baseline) / width baseline)%float in
      let heightChange :=
        (abs (height rect - height baseline) / height baseline)%float in
      if gt widthChange threshold || gt heightChange threshold
      then reportAnomaly w
             {| type := sizing; element := element;
                severity :=
                  calculateSeverityFromDelta (js_max widthChange heightChange);
                boundingRect := Some rect |}
      else ret tt
  end.

Definition checkVisibilityAnomaly (w : World) (dom : DOM) (element : Element)
    (style : CSSStyleDeclaration) : Eff unit :=
  if String.eqb (visibility style) "hidden"
     || String.eqb (display style) "none"
     || (opacity style =? 0)%float
  then
    let hasContent :=
      match textContent (view dom element) with
      | Some text => has_non_space text
      | None => false
      end
      || (0 <? children_length (view dom element)) in
    if hasContent
    then reportAnomaly w
           {| type := visibility_anomaly; element := element;
              severity := medium; boundingRect := None |}
    else ret tt
  else ret tt.

Definition checkElementForAnomalies (w : World) (dom : DOM)
    (element : Element) : Eff unit :=
  if negb (contained (view dom element))
  then modify (on_baselineMetrics (delete element))
  else
    let rect := boundingClientRect (view dom element) in
    let style := computedStyle (view dom element) in
    lw <- get ;;
    let baseline := baselineMetrics lw !! element in
    checkOverflowAnomaly w dom element rect style ;;;
    checkClippingAnomaly w element rect style ;;;
    checkPositioningAnomaly w dom element rect baseline ;;;
    checkSizingAnomaly w element rect baseline ;;;
    checkVisibilityAnomaly w dom element style ;;;
    modify (on_baselineMetrics (insert element rect)).

(** [elements.forEach(f)] *)
Fixpoint for_each (f : Element -> Eff unit) (elements : list Element)
    : Eff unit :=
  match elements with
  | [] => ret tt
  | element :: rest => f element ;;; for_each f rest
  end.

(** The loop of [getElementsToWatch] over the selectors still to query. *)
Fixpoint getElementsToWatch_from (dom : DOM) (sels : list string)
    (elements : list Element) : Eff (list Element) :=
  match sels with
  | [] => ret elements
  | selector :: rest =>
      match querySelectorAll dom selector with
      | Some found => getElementsToWatch_from dom rest (elements ++ found)
      | None =>
          emit (EvConsoleWarn ("Invalid selector: " ++ selector)%string) ;;;
          getElementsToWatch_from dom rest elements
      end
  end.

Definition getElementsToWatch (dom : DOM) : Eff (list Element) :=
  lw <- get ;;
  getElementsToWatch_from dom (selectors (config lw)) [].

Definition establishBaseline (dom : DOM) : Eff unit :=
  elements <- getElementsToWatch dom ;;
  for_each
    (fun element =>
       modify (on_baselineMetrics
                 (insert element (boundingClientRect (view dom element)))))
    elements.

Definition performAnomalyCheck (w : World) (dom : DOM) : Eff unit :=
  elements <- getElementsToWatch dom ;;
  for_each (checkElementForAnomalies w dom) elements.

(** The anomalies of the two kinds that compare against the baseline,
    reported about [el]. *)
Definition is_drift_anomaly (el : Element) (ev : Event) : bool :=
  match ev with
  | EvOnAnomaly a =>
      bool_decide (element a = el)
      && match type a with
         | positioning | sizing => true
         | _ => false
         end
  | _ => false
  end.

End LayoutWatcher.

(** [l.slice(-n)] for a count [n]: the last [n] entries, and - since [-0]
    is [0] - the whole of [l] when [n] is zero. *)
Definition slice_from_end {A : Type} (n : nat) (l : list A) : list A :=
  match n with
  | O => l
  | S _ => drop (length l - n) l
  end.
(** * Reporter.ts, as its host drives it through a whole life *)
Module ReporterHost.
Import Reporter.

Local Open Scope eff_scope.

(** The calls of [Reporter.Call], and [updateConfig] and [clearQueue]. *)
Inductive Call : Type :=
| Plain (c : Reporter.Call)
| CallUpdateConfig (newConfig : ReporterConfigLiteral)
| CallClearQueue.

Definition run_call (w : World) (c : Call) : Eff unit :=
  match c with
  | Plain c => Reporter.run_call w c
  | CallUpdateConfig newConfig => updateConfig newConfig
  | CallClearQueue => clearQueue
  end.

Fixpoint run_calls (w : World) (cs : list Call) : Eff unit :=
  match cs with
  | [] => ret tt
  | c :: cs' => run_call w c ;;; run_calls w cs'
  end.

(** The interval timers armed and not yet cleared, counted from a log. *)
Fixpoint armed (l : list Event) : Z :=
  match l with
  | [] => 0
  | EvSetInterval _ :: rest => armed rest + 1
  | EvClearInterval :: rest => armed rest - 1
  | _ :: rest => armed rest
  end.

(** The records of the requests in [new] that the collector accepted, in
    the order they were sent; [before] is the log up to [new]. *)
Fixpoint delivered (w : World) (before new : list Event)
    : list GuardianError :=
  match new with
  | [] => []
  | ev :: rest =>
      match ev with
      | EvFetch req =>
          match network w before req with
          | FetchResponds true _ => req_errors req
          | _ => []
          end
      | _ => []
      end ++ delivered w (before ++ [ev]) rest
  end.

(** What [report] takes in: everything on an enabled reporter, nothing on
    a disabled one. *)
Definition accepted (r : Reporter) (cs : list Reporter.Call)
    : list GuardianError :=
  if truthy_bool (enabled (config r)) then reported cs else [].

End ReporterHost.

(** * RecoveryEngine.ts: the suggestions *)
Module RecoverySuggestions.
Import RecoveryEngine.

(** What [getSmartRecoverySuggestions] reads of an [Error]. *)
Record Error : Type := {
  name : string;
  message : string
}.

(** [s.includes(pattern)] *)
Definition includes (s pattern : string) : bool :=
  match String.index 0 pattern s with
  | Some _ => true
  | None => false
  end.

Definition suggest_retry (budget : N) : Action.t :=
  {| Action.strategy := retry;
     Action.fallbackComponent := None;
     Action.redirectUrl := None;
     Action.retryCount := None;
     Action.maxRetries := Some budget;
     Action.customAction := None |}.

Definition suggest_fallback (e : Engine) : Action.t :=
  {| Action.strategy := fallback;
     Action.fallbackComponent := Config.fallbackComponent (config e);
     Action.redirectUrl := None;
     Action.retryCount := None;
     Action.maxRetries := None;
     Action.customAction := None |}.

Definition suggest_reload : Action.t :=
  {| Action.strategy := reload;
     Action.fallbackComponent := None;
     Action.redirectUrl := None;
     Action.retryCount := None;
     Action.maxRetries := None;
     Action.customAction := None |}.

Definition suggest_redirect (href : string) : Action.t :=
  {| Action.strategy := redirect;
     Action.fallbackComponent := None;
     Action.redirectUrl := Some href;
     Action.retryCount := None;
     Action.maxRetries := None;
     Action.customAction := None |}.

(** [if (test) { suggestions.push(...more) }] *)
Definition push_if (test : bool) (more suggestions : list Action.t)
    : list Action.t :=
  if test then suggestions ++ more else suggestions.

Definition getSmartRecoverySuggestions (e : Engine) (error : Error)
    : list Action.t :=
  let suggestions := [] in
  let suggestions :=
    push_if (String.eqb (name error) "NetworkError"
             || includes (message error) "fetch")
      [suggest_retry 3; suggest_fallback e] suggestions in
  let suggestions :=
    push_if (String.eqb (name error) "TypeError"
             || String.eqb (name error) "ReferenceError")
      [suggest_retry 1; suggest_fallback e] suggestions in
  let suggestions :=
    push_if (includes (message error) "Loading chunk"
             || includes (message error) "ChunkLoadError")
      [suggest_reload] suggestions in
  let suggestions :=
    push_if (includes (message error) "401"
             || includes (message error) "Unauthorized")
      [suggest_redirect "/login"] suggestions in
  let suggestions :=
    push_if (includes (message error) "403"
             || includes (message error) "Forbidden")
      [suggest_redirect "/unauthorized"] suggestions in
  let suggestions :=
    push_if (includes (message error) "500"
             || includes (message error) "Internal Server Error")
      [suggest_retry 2; suggest_fallback e] suggestions in
  push_if (length suggestions =? 0)
    [suggest_retry 1; suggest_fallback e] suggestions.

End RecoverySuggestions.


(** * LayoutWatcher.ts: the life cycle of a watcher *)
Module LayoutWatcherHost.
Import LayoutWatcher.

(** The fields of the class that remember what [start] registered. *)
Record Handles : Type := {
  observer : option positive;
  resizeObserver : option positive;
  intervalId : option positive
}.

(** What the browser holds on behalf of the page: the mutation observers
    connected to [document.body], each resize observer with the elements
    it observes, and the armed interval timers, all by identity. *)
Record Browser : Type := {
  mutationObservers : gset positive;
  resizeObservers : gmap positive (list Element);
  intervals : gset positive;
  next : positive
}.

Definition fresh_browser : Browser :=
  {| mutationObservers := ∅; resizeObservers := ∅; intervals := ∅;
     next := 1%positive |}.

(** The watcher, the rest of its fields, and the browser it registers
    with. *)
Record System : Type := {
  self : LayoutWatcher;
  handles : Handles;
  browser : Browser
}.

Definition fresh_system (c : LayoutWatcherConfig) : System :=
  {| self := constructor c;
     handles := {| observer := None; resizeObserver := None;
                   intervalId := None |};
     browser := fresh_browser |}.

Abbreviation HostEff := (M (St := System) (Ev := Event)).

Local Open Scope eff_scope.

Definition on_self (f : LayoutWatcher -> LayoutWatcher) (s : System) : System :=
  {| self := f (self s); handles := handles s; browser := browser s |}.

Definition on_handles (f : Handles -> Handles) (s : System) : System :=
  {| self := self s; handles := f (handles s); browser := browser s |}.

Definition on_browser (f : Browser -> Browser) (s : System) : System :=
  {| self := self s; handles := handles s; browser := f (browser s) |}.

Definition set_isRunning (b : bool) (lw : LayoutWatcher) : LayoutWatcher :=
  {| config := config lw; isRunning := b;
     baselineMetrics := baselineMetrics lw |}.

Definition set_observer (o : option positive) (h : Handles) : Handles :=
  {| observer := o; resizeObserver := resizeObserver h;
     intervalId := intervalId h |}.

Definition set_resizeObserver (o : option positive) (h : Handles) : Handles :=
  {| observer := observer h; resizeObserver := o;
     intervalId := intervalId h |}.

Definition set_intervalId (o : option positive) (h : Handles) : Handles :=
  {| observer := observer h; resizeObserver := resizeObserver h;
     intervalId := o |}.

(** A method of the class that touches only the fields of
    [LayoutWatcher.LayoutWatcher], run on the whole system. *)
Definition lift {A} (m : Eff A) : HostEff A :=
  fun s l =>
    match m (self s) l with
    | (c, lw, l1) =>
        (c, {| self := lw; handles := handles s; browser := browser s |}, l1)
    end.

(** The identity of a newly made observer or timer. *)
Definition fresh_id : HostEff positive :=
  s <- get ;;
  modify (on_browser (fun b =>
    {| mutationObservers := mutationObservers b;
       resizeObservers := resizeObservers b;
       intervals := intervals b;
       next := Pos.succ (next b) |})) ;;;
  ret (next (browser s)).

(** [observer.observe(document.body, ...)] *)
Definition observe_body (o : positive) : HostEff unit :=
  modify (on_browser (fun b =>
    {| mutationObservers := {[o]} ∪ mutationObservers b;
       resizeObservers := resizeObservers b;
       intervals := intervals b;
       next := next b |})).

(** [observer.disconnect()] on a mutation observer. *)
Definition disconnect_body (o : positive) : HostEff unit :=
  modify (on_browser (fun b =>
    {| mutationObservers := mutationObservers b ∖ {[o]};
       resizeObservers := resizeObservers b;
       intervals := intervals b;
       next := next b |})).

(** [resizeObserver.observe(element)] *)
Definition observe_element (r : positive) (element : Element) : HostEff unit :=
  modify (on_browser (fun b =>
    {| mutationObservers := mutationObservers b;
       resizeObservers :=
         <[r := default [] (resizeObservers b !! r) ++ [element]]>
           (resizeObservers b);
       intervals := intervals b;
       next := next b |})).

(** [resizeObserver.disconnect()] *)
Definition disconnect_elements (r : positive) : HostEff unit :=
  modify (on_browser (fun b =>
    {| mutationObservers := mutationObservers b;
       resizeObservers := delete r (resizeObservers b);
       intervals := intervals b;
       next := next b |})).

Definition setInterval : HostEff positive :=
  id <- fresh_id ;;
  modify (on_browser (fun b =>
    {| mutationObservers := mutationObservers b;
       resizeObservers := resizeObservers b;
       intervals := {[id]} ∪ intervals b;
       next := next b |})) ;;;
  ret id.

Definition clearInterval (id : positive) : HostEff unit :=
  modify (on_browser (fun b =>
    {| mutationObservers := mutationObservers b;
       resizeObservers := resizeObservers b;
       intervals := intervals b ∖ {[id]};
       next := next b |})).

(** [elements.forEach(f)] for an [f] that registers with the browser. *)
Fixpoint for_each_host (f : Element -> HostEff unit) (elements : list Element)
    : HostEff unit :=
  match elements with
  | [] => ret tt
  | element :: rest => f element ;;; for_each_host f rest
  end.

Definition setupObservers (dom : DOM) : HostEff unit :=
  o <- fresh_id ;;
  modify (on_handles (set_observer (Some o))) ;;;
  observe_body o ;;;
  r <- fresh_id ;;
  modify (on_handles (set_resizeObserver (Some r))) ;;;
  elements <- lift (getElementsToWatch dom) ;;
  for_each_host
    (fun element =>
       s <- get ;;
       match resizeObserver (handles s) with
       | Some r => observe_element r element
       | None => ret tt
       end)
    elements.

Definition startPeriodicCheck : HostEff unit :=
  id <- setInterval ;;
  modify (on_handles (set_intervalId (Some id))).

Definition start (dom : DOM) : HostEff unit :=
  s <- get ;;
  if isRunning (self s) then ret tt
  else
    modify (on_self (set_isRunning true)) ;;;
    lift (establishBaseline dom) ;;;
    setupObservers dom ;;;
    startPeriodicCheck.

Definition stop : HostEff unit :=
  modify (on_self (set_isRunning false)) ;;;
  s <- get ;;
  match observer (handles s) with
  | Some o =>
      disconnect_body o ;;;
      modify (on_handles (set_observer None))
  | None => ret tt
  end ;;;
  s <- get ;;
  match resizeObserver (handles s) with
  | Some r =>
      disconnect_elements r ;;;
      modify (on_handles (set_resizeObserver None))
  | None => ret tt
  end ;;;
  s <- get ;;
  match intervalId (handles s) with
  | Some id =>
      clearInterval id ;;;
      modify (on_handles (set_intervalId None))
  | None => ret tt
  end ;;;
  modify (on_self (on_baselineMetrics (fun _ => ∅))).

(** The public calls of the class, and the callbacks the browser runs: an
    interval that elapses, a mutation observer told of the element nodes
    that [childList] mutations added, a resize observer told of targets that
    changed size.  Each callback sees the document as it is then, and runs
    only if it is still registered. *)
Inductive Call : Type :=
| CallStart (dom : DOM)
| CallStop
| IntervalElapsed (id : positive) (dom : DOM)
| Mutated (o : positive) (added : list Element) (dom : DOM)
| Resized (r : positive) (targets : list Element) (dom : DOM).

Definition run_call (w : World) (c : Call) : HostEff unit :=
  match c with
  | CallStart dom => start dom
  | CallStop => stop
  | IntervalElapsed id dom =>
      s <- get ;;
      if bool_decide (id ∈ intervals (browser s))
      then lift (performAnomalyCheck w dom)
      else ret tt
  | Mutated o added dom =>
      s <- get ;;
      if bool_decide (o ∈ mutationObservers (browser s))
      then lift (for_each (checkElementForAnomalies w dom) added)
      else ret tt
  | Resized r targets dom =>
      s <- get ;;
      match resizeObservers (browser s) !! r with
      | Some observed =>
          lift (for_each (checkElementForAnomalies w dom)
                  (filter (fun el => el ∈ observed) targets))
      | None => ret tt
      end
  end.

(** A callback that throws ends itself, not the page: the next call runs
    on the fields as the failed one left them. *)
Fixpoint run_calls (w : World) (cs : list Call) (s : System) (l : list Event)
    : System * list Event :=
  match cs with
  | [] => (s, l)
  | c :: cs' =>
      match run_call w c s l with
      | (_, s1, l1) => run_calls w cs' s1 l1
      end
  end.

(** The document a call reads, if it reads one. *)
Definition dom_of (c : Call) : option DOM :=
  match c with
  | CallStart dom => Some dom
  | CallStop => None
  | IntervalElapsed _ dom => Some dom
  | Mutated _ _ dom => Some dom
  | Resized _ _ dom => Some dom
  end.

(** An anomaly of one of the two kinds that compare against the baseline. *)
Definition is_drift (ev : Event) : bool :=
  match ev with
  | EvOnAnomaly a =>
      match type a with
      | positioning | sizing => true
      | _ => false
      end
  | _ => false
  end.

End LayoutWatcherHost.

(** * GuardianProvider: the reducer behind the provider's counters *)
Module GuardianProvider.

Record GuardianState : Type := {
  errorCount : nat;
  anomalyCount : nat;
  isRecovering : bool;
  lastError : option Reporter.GuardianError;
  lastAnomaly : option LayoutWatcher.LayoutAnomaly;
  errors : list Reporter.GuardianError;
  anomalies : list LayoutWatcher.LayoutAnomaly;
  autoCorrectCount : nat;
  lastAutoCorrect : option AutoCorrect.AutoCorrectAction
}.

Definition initialState : GuardianState :=
  {| errorCount := 0; anomalyCount := 0; isRecovering := false;
     lastError := None; lastAnomaly := None; errors := []; anomalies := [];
     autoCorrectCount := 0; lastAutoCorrect := None |}.

(** [OTHER] stands for an action outside the declared union, which the
    [default:] branch still handles. *)
Inductive GuardianAction : Type :=
| REPORT_ERROR (payload : Reporter.GuardianError)
| REPORT_ANOMALY (payload : LayoutWatcher.LayoutAnomaly)
| START_RECOVERY (payload : RecoveryEngine.Action.t)
| END_RECOVERY
| AUTO_CORRECT (payload : AutoCorrect.AutoCorrectAction)
| RESET_STATE
| OTHER (type : string).

Definition guardianReducer (state : GuardianState) (action : GuardianAction)
    : GuardianState :=
  match action with
  | REPORT_ERROR payload =>
      {| errorCount := errorCount state + 1;
         anomalyCount := anomalyCount state;
         isRecovering := isRecovering state;
         lastError := Some payload;
         lastAnomaly := lastAnomaly state;
         errors := slice_from_end 99 (errors state) ++ [payload];
         anomalies := anomalies state;
         autoCorrectCount := autoCorrectCount state;
         lastAutoCorrect := lastAutoCorrect state |}
  | REPORT_ANOMALY payload =>
      {| errorCount := errorCount state;
         anomalyCount := anomalyCount state + 1;
         isRecovering := isRecovering state;
         lastError := lastError state;
         lastAnomaly := Some payload;
         errors := errors state;
         anomalies := slice_from_end 99 (anomalies state) ++ [payload];
         autoCorrectCount := autoCorrectCount state;
         lastAutoCorrect := lastAutoCorrect state |}
  | START_RECOVERY _ =>
      {| errorCount := errorCount state;
         anomalyCount := anomalyCount state;
         isRecovering := true;
         lastError := lastError state;
         lastAnomaly := lastAnomaly state;
         errors := errors state;
         anomalies := anomalies state;
         autoCorrectCount := autoCorrectCount state;
         lastAutoCorrect := lastAutoCorrect state |}
  | END_RECOVERY =>
      {| errorCount := errorCount state;
         anomalyCount := anomalyCount state;
         isRecovering := false;
         lastError := lastError state;
         lastAnomaly := lastAnomaly state;
         errors := errors state;
         anomalies := anomalies state;
         autoCorrectCount := autoCorrectCount state;
         lastAutoCorrect := lastAutoCorrect state |}
  | AUTO_CORRECT payload =>
      {| errorCount := errorCount state;
         anomalyCount := anomalyCount state;
         isRecovering := isRecovering state;
         lastError := lastError state;
         lastAnomaly := lastAnomaly state;
         errors := errors state;
         anomalies := anomalies state;
         autoCorrectCount := autoCorrectCount state + 1;
         lastAutoCorrect := Some payload |}
  | RESET_STATE => initialState
  | OTHER _ => state
  end.

(** The state after the actions dispatched so far, oldest first. *)
Definition dispatched (actions : list GuardianAction) : GuardianState :=
  foldl guardianReducer initialState actions.

(** The actions dispatched since the last [RESET_STATE]. *)
Fixpoint since_reset (seen actions : list GuardianAction)
    : list GuardianAction :=
  match actions with
  | [] => seen
  | RESET_STATE :: rest => since_reset [] rest
  | action :: rest => since_reset (seen ++ [action]) rest
  end.

Definition error_of (action : GuardianAction)
    : option Reporter.GuardianError :=
  match action with
  | REPORT_ERROR payload => Some payload
  | _ => None
  end.

Definition anomaly_of (action : GuardianAction)
    : option LayoutWatcher.LayoutAnomaly :=
  match action with
  | REPORT_ANOMALY payload => Some payload
  | _ => None
  end.

End GuardianProvider.

(** * index.ts: the retry helper of [useRecovery] *)
Module UseRecovery.
Import RecoveryEngine.

(** What an operation resolves with. *)
Definition Value : Type := string.

Inductive Event : Type :=
| EvOperation
| EvTriggerRecovery (action : Action.t).

(** How a call of the operation ends: its promise resolves, or it rejects
    (or the call itself throws). *)
Inductive Outcome : Type :=
| Resolves (v : Value)
| Rejects (err : string).

Record World : Type := {
  operation_call : list Event -> Outcome
}.

(** The state is the [retryCount] that the closure [attempt] shares. *)
Abbreviation Eff := (M (St := nat) (Ev := Event)).

Local Open Scope eff_scope.

(** [{ strategy: 'retry', maxRetries: budget }] *)
Definition retry_action (budget : nat) : Action.t :=
  {| Action.strategy := retry;
     Action.fallbackComponent := None;
     Action.redirectUrl := None;
     Action.retryCount := None;
     Action.maxRetries := Some (N.of_nat budget);
     Action.customAction := None |}.

(** [await operation()] *)
Definition await_operation (w : World) : Eff Value :=
  l <- history ;;
  emit EvOperation ;;;
  match operation_call w l with
  | Resolves v => ret v
  | Rejects err => throw err
  end.

(** [triggerRecovery(action)]: the provider hands the action to the
    engine's [execute] and does not wait for it. *)
Definition triggerRecovery (action : Action.t) : Eff unit :=
  emit (EvTriggerRecovery action).

(** [attempt]; [fuel] bounds the depth of the self-call. *)
Fixpoint attempt (fuel : nat) (w : World) (maxRetries : nat) : Eff Value :=
  match fuel with
  | O => out_of_fuel
  | S fuel' =>
      try_catch (await_operation w)
        (fun error =>
           retryCount <- get ;;
           if retryCount <? maxRetries
           then
             modify S ;;;
             retryCount <- get ;;
             triggerRecovery (retry_action (maxRetries - retryCount)) ;;;
             attempt fuel' w maxRetries
           else throw error)
  end.

(** [retryOperation(operation, maxRetries = 3)], a whole number of
    retries. *)
Definition retryOperation (fuel : nat) (w : World) (maxRetries : option nat)
    : Completion Value * nat * list Event :=
  attempt fuel w (default 3 maxRetries) 0 [].

(** The calls a run makes when the operation fails [k] times in a row from
    the [r]-th failure on: each failure but the last is followed by a
    recovery whose budget is what is left of [maxRetries]. *)
Fixpoint retries (maxRetries r k : nat) : list Event :=
  match k with
  | O => []
  | S k' =>
      EvOperation :: EvTriggerRecovery (retry_action (maxRetries - S r))
        :: retries maxRetries (S r) k'
  end.

End UseRecovery.

(** * utils/performance.ts *)
Module PerformanceMonitor.

Definition Callback : Type := string.

(** [PerformanceMetrics] (the timestamp and the free-form [metadata] bag
    are left out). *)
Record PerformanceMetrics : Type := {
  name : string;
  duration : float
}.

(** [PerformanceConfig]; [maxEntries] is a whole number. *)
Record PerformanceConfig : Type := {
  enabled : bool;
  threshold : float;
  maxEntries : nat;
  onMetric : option Callback
}.

(** The fields of the class that recording uses. *)
Record PerformanceMonitor : Type := {
  config : PerformanceConfig;
  metrics : list PerformanceMetrics
}.

Inductive Event : Type :=
| EvOnMetric (cb : Callback) (metric : PerformanceMetrics)
| EvOperation (label : string).

(** How a measured operation ends. *)
Inductive Outcome : Type :=
| Returns (result : string)
| Throws (err : string).

Record World : Type := {
  onMetric_call : list Event -> PerformanceMetrics -> option string;
  operation_call : list Event -> string -> Outcome;
  (** [performance.now() - start] once the operation has returned *)
  elapsed : list Event -> float
}.

Abbreviation Eff := (M (St := PerformanceMonitor) (Ev := Event)).

Local Open Scope eff_scope.

Definition set_metrics (ms : list PerformanceMetrics)
    (p : PerformanceMonitor) : PerformanceMonitor :=
  {| config := config p; metrics := ms |}.

Definition recordMetric (w : World) (metric : PerformanceMetrics)
    : Eff unit :=
  modify (fun p => set_metrics (metrics p ++ [metric]) p) ;;;
  p <- get ;;
  (if maxEntries (config p) <? length (metrics p)
   then modify (fun p =>
          set_metrics (slice_from_end (maxEntries (config p)) (metrics p)) p)
   else ret tt) ;;;
  p <- get ;;
  if (threshold (config p) <? duration metric)%float
  then
    match onMetric (config p) with
    | Some cb =>
        l <- history ;;
        emit (EvOnMetric cb metric) ;;;
        match onMetric_call w l metric with
        | None => ret tt
        | Some err => throw err
        end
    | None => ret tt
    end
  else ret tt.

(** [operation()], known by a label. *)
Definition call_operation (w : World) (label : string) : Eff string :=
  l <- history ;;
  emit (EvOperation label) ;;;
  match operation_call w l label with
  | Returns result => ret result
  | Throws err => throw err
  end.

Definition measure (w : World) (name : string) (operation : string)
    : Eff string :=
  p <- get ;;
  if negb (enabled (config p)) then call_operation w operation
  else
    result <- call_operation w operation ;;
    l <- history ;;
    recordMetric w {| name := name; duration := elapsed w l |} ;;;
    ret result.

Definition getMetrics (p : PerformanceMonitor) : list PerformanceMetrics :=
  metrics p.

Definition getMetricsByName (p : PerformanceMonitor) (n : string)
    : list PerformanceMetrics :=
  filter (fun metric => name metric = n) (metrics p).

Definition clearMetrics : Eff unit := modify (set_metrics []).

(** What the observer of layout shifts reads of an entry. *)
Record LayoutShift : Type := {
  hadRecentInput : bool;
  value : float
}.

(** The callback of the layout-shift observer: [for (const entry of
    list.getEntries())], with a [return] in its body. *)
Fixpoint on_layout_shifts (w : World) (entries : list LayoutShift)
    : Eff unit :=
  match entries with
  | [] => ret tt
  | entry :: rest =>
      if hadRecentInput entry then ret tt
      else
        recordMetric w {| name := "layout-shift"; duration := value entry |} ;;;
        on_layout_shifts w rest
  end.

(** The callback of the long-task observer, given the entries' durations. *)
Fixpoint on_long_tasks (w : World) (durations : list float) : Eff unit :=
  match durations with
  | [] => ret tt
  | d :: rest =>
      recordMetric w {| name := "long-task"; duration := d |} ;;;
      on_long_tasks w rest
  end.

(** What the host and the browser may do with a monitor, in any order. *)
Inductive Call : Type :=
| CallRecordMetric (metric : PerformanceMetrics)
| CallMeasure (name : string) (operation : string)
| CallClearMetrics
| LayoutShifts (entries : list LayoutShift)
| LongTasks (durations : list float).

Definition run_call (w : World) (c : Call) : Eff unit :=
  match c with
  | CallRecordMetric metric => recordMetric w metric
  | CallMeasure name operation => _ <- measure w name operation ;; ret tt
  | CallClearMetrics => clearMetrics
  | LayoutShifts entries => on_layout_shifts w entries
  | LongTasks durations => on_long_tasks w durations
  end.

(** A call that throws ends itself, not the page: the next call runs on
    the fields as the failed one left them. *)
Fixpoint run_calls (w : World) (cs : list Call) (p : PerformanceMonitor)
    (l : list Event) : PerformanceMonitor * list Event :=
  match cs with
  | [] => (p, l)
  | c :: cs' =>
      match run_call w c p l with
      | (_, p1, l1) => run_calls w cs' p1 l1
      end
  end.

(** The fields after the constructor; the two observers it may set up
    are known by their callbacks, [LayoutShifts] and [LongTasks]. *)
Definition constructor (c : PerformanceConfig) : PerformanceMonitor :=
  {| config := c; metrics := [] |}.

End PerformanceMonitor.

(** * AutoCorrect.ts: page-break detection and visual healing *)
Module AutoCorrectHealing.
Import AutoCorrect.

(** The fields of a [DOMRect] these checks read. *)
Record DOMRect : Type := {
  top : float;
  left : float;
  width : float;
  height : float
}.

(** What the callbacks do to the document and to the caller.  The timer
    of [reloadComponent] is known by the element and the [display] value
    it will put back. *)
Inductive Event : Type :=
| EvConsoleWarn (msg : string) (el : Element)
| EvSetStyle (el : Element) (property value : string)
| EvSetInnerHTML (el : Element) (html : string)
| EvAppendFallback (el : Element)
| EvReplaceWithClone (parent el : Element)
| EvSetTimeout (el : Element) (display : string)
| EvOnAutoCorrect (cb : Callback) (action : AutoCorrectAction).

(** What the document answers when it is read.  The answers may depend on
    everything that was written before, so each read is given the log so
    far; a computed style is live, and so is read property by property.
    [querySelectorAll] is [None] on a selector it rejects with an
    exception. *)
Record World : Type := {
  querySelectorAll : list Event -> string -> option (list Element);
  getBoundingClientRect : list Event -> Element -> DOMRect;
  computed : list Event -> Element -> string -> string;
  inline_display : list Event -> Element -> string;
  children_length : list Event -> Element -> nat;
  parentNode : list Event -> Element -> option Element;
  window_innerWidth : list Event -> float;
  window_innerHeight : list Event -> float;
  onAutoCorrect_call : list Event -> AutoCorrectAction -> option string
}.

Abbreviation Eff := (M (St := AutoCorrect) (Ev := Event)).

Local Open Scope eff_scope.

(** A read of the document as it is now. *)
Definition read {A : Type} (f : list Event -> A) : Eff A :=
  l <- history ;; ret (f l).

Definition set_style (el : Element) (property value : string) : Eff unit :=
  emit (EvSetStyle el property value).

(** [a > b] on numbers. *)
Definition gt (a b : float) : bool := (b <? a)%float.

(** [xs.forEach(f)], and [for (const x of xs)] with no early exit. *)
Fixpoint for_each {A : Type} (f : A -> Eff unit) (xs : list A) : Eff unit :=
  match xs with
  | [] => ret tt
  | x :: rest => f x ;;; for_each f rest
  end.

(** [this.config.onAutoCorrect?.(action)] *)
Definition reportAutoCorrect (w : World) (action : AutoCorrectAction)
    : Eff unit :=
  a <- get ;;
  match onAutoCorrect (config a) with
  | Some cb =>
      l <- history ;;
      emit (EvOnAutoCorrect cb action) ;;;
      match onAutoCorrect_call w l action with
      | None => ret tt
      | Some err => throw err
      end
  | None => ret tt
  end.

Definition reloadComponent (w : World) (element : Element) : Eff unit :=
  originalDisplay <- read (fun l => inline_display w l element) ;;
  set_style element "display" "none" ;;;
  emit (EvSetTimeout element
          (if String.eqb originalDisplay "" then "block"
           else originalDisplay)).

Definition restoreContent (element : Element) : Eff unit :=
  a <- get ;;
  if 0 <? length (contentHistory a)
  then
    match last (contentHistory a) with
    | Some lastContent => emit (EvSetInnerHTML element lastContent)
    | None => ret tt
    end
  else ret tt.

Definition fixLayout (w : World) (element : Element) : Eff unit :=
  l <- history ;;
  (if String.eqb (computed w l element "position") "absolute"
      && String.eqb (computed w l element "top") ""
      && String.eqb (computed w l element "left") ""
   then set_style element "position" "relative"
   else ret tt) ;;;
  l <- history ;;
  if String.eqb (computed w l element "display") "none"
  then set_style element "display" "block"
  else ret tt.

Definition injectFallback (element : Element) : Eff unit :=
  emit (EvAppendFallback element).

Definition retryRender (w : World) (element : Element) : Eff unit :=
  parent <- read (fun l => parentNode w l element) ;;
  match parent with
  | Some parent => emit (EvReplaceWithClone parent element)
  | None => ret tt
  end.

Definition fixElementLayout (w : World) (element : Element) : Eff unit :=
  a <- get ;;
  for_each
    (fun strategy =>
       match strategy with
       | reload_component => reloadComponent w element
       | restore_content => restoreContent element
       | fix_layout => fixLayout w element
       | inject_fallback => injectFallback element
       | retry_render => retryRender w element
       end)
    (visualHealing_strategies (config a)).

Definition fixElementPositioning (w : World) (element : Element)
    : Eff unit :=
  rect <- read (fun l => getBoundingClientRect w l element) ;;
  if (top rect <? 0)%float || (left rect <? 0)%float
  then
    set_style element "position" "relative" ;;;
    set_style element "top" "0" ;;;
    set_style element "left" "0"
  else ret tt.

Definition handlePageBreak (w : World) (element : Element) : Eff unit :=
  emit (EvConsoleWarn "Page break detected in element:" element) ;;;
  fixElementLayout w element ;;;
  reportAutoCorrect w
    {| type := page_break_fix; element := Some element;
       description := "Fixed page break in element"; success := true |}.

Definition handleMispositionedElement (w : World) (element : Element)
    : Eff unit :=
  emit (EvConsoleWarn "Mispositioned element detected:" element) ;;;
  fixElementPositioning w element ;;;
  reportAutoCorrect w
    {| type := layout_heal; element := Some element;
       description := "Fixed element positioning"; success := true |}.

(** The body of the inner [forEach] of [checkForPageBreaks]. *)
Definition checkElement (w : World) (element : Element) : Eff unit :=
  a <- get ;;
  rect <- read (fun l => getBoundingClientRect w l element) ;;
  (if (height rect <? pageBreakDetection_minHeight (config a))%float
   then handlePageBreak w element
   else ret tt) ;;;
  if (top rect <? 0)%float || (left rect <? 0)%float
  then handleMispositionedElement w element
  else ret tt.

(** The body of the outer [forEach] of [checkForPageBreaks]. *)
Definition checkSelector (w : World) (selector : string) : Eff unit :=
  elements <- read (fun l => querySelectorAll w l selector) ;;
  match elements with
  | Some elements => for_each (checkElement w) elements
  | None => throw "SyntaxError"
  end.

Definition checkForPageBreaks (w : World) : Eff unit :=
  a <- get ;;
  for_each (checkSelector w) (pageBreakDetection_selectors (config a)).

Definition fixInvisibleElement (w : World) (element : Element) : Eff unit :=
  l <- history ;;
  (if String.eqb (computed w l element "display") "none"
   then set_style element "display" "block"
   else ret tt) ;;;
  l <- history ;;
  (if String.eqb (computed w l element "visibility") "hidden"
   then set_style element "visibility" "visible"
   else ret tt) ;;;
  l <- history ;;
  if String.eqb (computed w l element "opacity") "0"
  then set_style element "opacity" "1"
  else ret tt.

Definition fixOverflowElement (w : World) (element : Element) : Eff unit :=
  rect <- read (fun l => getBoundingClientRect w l element) ;;
  l <- history ;;
  (if gt (width rect) (window_innerWidth w l)
   then set_style element "maxWidth" "100vw" ;;;
        set_style element "overflowX" "auto"
   else ret tt) ;;;
  l <- history ;;
  if gt (height rect) (window_innerHeight w l)
  then set_style element "maxHeight" "100vh" ;;;
       set_style element "overflowY" "auto"
  else ret tt.

Definition fixZIndexIssues (element : Element) : Eff unit :=
  set_style element "zIndex" "1".

Definition checkForVisualIssues (w : World) (element : Element) : Eff unit :=
  rect <- read (fun l => getBoundingClientRect w l element) ;;
  l <- history ;;
  (if (width rect =? 0)%float && (height rect =? 0)%float
      && (0 <? children_length w l element)
   then fixInvisibleElement w element
   else ret tt) ;;;
  l <- history ;;
  (if gt (width rect) (window_innerWidth w l)
      || gt (height rect) (window_innerHeight w l)
   then fixOverflowElement w element
   else ret tt) ;;;
  l <- history ;;
  if String.eqb (computed w l element "zIndex") "auto"
     && String.eqb (computed w l element "position") "absolute"
  then fixZIndexIssues element
  else ret tt.

(** The callback of the resize observer, given the entries' targets. *)
Definition on_resize (w : World) (targets : list Element) : Eff unit :=
  for_each (checkForVisualIssues w) targets.

(** A write of an inline style property. *)
Definition is_style_write (ev : Event) : bool :=
  match ev with
  | EvSetStyle _ _ _ => true
  | _ => false
  end.

(** Anything the fixers do: all but warnings and reports. *)
Definition is_fix (ev : Event) : bool :=
  match ev with
  | EvConsoleWarn _ _ | EvOnAutoCorrect _ _ => false
  | _ => true
  end.

End AutoCorrectHealing.

(** * Facts about the reporter *)
Module ReporterFacts.
Import Reporter.

Lemma flush_no_endpoint (w : World) (r : Reporter) (l : list Event) :
  truthy_string (endpoint (config r)) = false ->
  flush w r l = (Normal tt, r, l).
Proof.
  intros H. unfold flush. eff. rewrite H, orb_true_r. reflexivity.
Qed.

Lemma report_with_customReporter (w : World) (r : Reporter) (l : list Event)
    (error : GuardianError) (cb : Callback) :
  truthy_bool (enabled (config r)) = true ->
  customReporter (config r) = Some cb ->
  report w error r l =
    (Normal tt, set_queue (queue r ++ [error]) r,
     l ++ EvCustomReporter cb error (queue r ++ [error]) ::
       match sink w l cb error with
       | SinkResolves => []
       | _ => [EvConsoleError "Custom reporter failed:"]
       end).
Proof.
  intros He Hc. unfold report, await_customReporter, console_error. eff.
  rewrite He, Hc. simpl.
  destruct (sink w l cb error); simpl; rewrite <- ?app_assoc; reflexivity.
Qed.

Lemma report_disabled (w : World) (r : Reporter) (l : list Event)
    (error : GuardianError) :
  truthy_bool (enabled (config r)) = false ->
  report w error r l = (Normal tt, r, l).
Proof. intros He. unfold report. eff. rewrite He. reflexivity. Qed.

Lemma report_no_endpoint (w : World) (r : Reporter) (l : list Event)
    (error : GuardianError) :
  truthy_bool (enabled (config r)) = true ->
  truthy_string (endpoint (config r)) = false ->
  customReporter (config r) = None ->
  report w error r l = (Normal tt, set_queue (queue r ++ [error]) r, l).
Proof.
  intros He Hn Hc. unfold report. eff. rewrite He, Hc. simpl.
  destruct (_ <=? _); [|reflexivity].
  apply flush_no_endpoint. exact Hn.
Qed.

(** The [catch] block of [flush]: the batch goes back in front of whatever
    was queued in the meantime, unless a hundred records or more were. *)
Lemma requeue_spec (batch : list GuardianError) (r : Reporter)
    (l : list Event) :
  requeue batch r l =
    (Normal tt,
     if length (queue r) <? 100 then set_queue (batch ++ queue r) r else r,
     l ++ [EvConsoleError "Failed to report errors:"]).
Proof.
  unfold requeue, console_error. eff. destruct (_ <? _); reflexivity.
Qed.

Definition delivery_fails (o : FetchOutcome) : bool :=
  match o with
  | FetchRejects _ => true
  | FetchResponds ok _ => negb ok
  end.

(** A flush whose delivery fails, with nothing reported in between, leaves
    the queue as it found it. *)
Lemma flush_failure_restores (w : World) (r : Reporter) (l : list Event)
    (req : Request) :
  truthy_string (endpoint (config r)) = true ->
  queue r <> [] ->
  req = mk_request (config r) (default "" (endpoint (config r))) (queue r) ->
  delivery_fails (network w l req) = true ->
  flush w r l =
    (Normal tt, r,
     l ++ [EvFetch req; EvConsoleError "Failed to report errors:"]).
Proof.
  intros He Hq -> Hf. unfold flush, await_fetch. eff. rewrite He.
  destruct r as [c q t]; simpl in *.
  destruct q as [|e q]; [done|]. simpl.
  set (req := mk_request _ _ _) in *.
  destruct (network w l req) as [err|[|] st]; simpl in Hf; try done;
    rewrite requeue_spec; simpl; rewrite <- app_assoc, app_nil_r; reflexivity.
Qed.


(** Without an endpoint no call changes the configuration, and each leaves
    the queue longer by exactly what it reports. *)
Lemma run_call_no_endpoint (w : World) (c : Call) (r : Reporter)
    (l : list Event) :
  truthy_string (endpoint (config r)) = false ->
  truthy_bool (enabled (config r)) = true ->
  exists r' new,
    run_call w c r l = (Normal tt, r', l ++ new)
    /\ config r' = config r
    /\ queue r' = queue r ++ reported [c]
    /\ Forall (fun ev => is_fetch ev = false) new.
Proof.
  intros Hn He. destruct c as [error| | |]; simpl.
  - destruct (customReporter (config r)) as [cb|] eqn:Hc.
    + rewrite (report_with_customReporter w r l error cb He Hc).
      eexists _, _. split; [reflexivity|]. repeat split.
      destruct (sink w l cb error); repeat constructor.
    + rewrite (report_no_endpoint w r l error He Hn Hc).
      exists (set_queue (queue r ++ [error]) r), [].
      rewrite app_nil_r. repeat split. constructor.
  - rewrite (flush_no_endpoint w r l Hn).
    exists r, []. rewrite !app_nil_r. repeat split. constructor.
  - unfold on_flush_timer. eff.
    destruct (0 <? _); [rewrite (flush_no_endpoint w r l Hn)|];
      exists r, []; rewrite !app_nil_r; repeat split; constructor.
  - unfold stop. eff. destruct (flushTimer r) as [t|]; simpl.
    + rewrite flush_no_endpoint by exact Hn.
      eexists _, [EvClearInterval]. split; [reflexivity|].
      simpl. rewrite app_nil_r. repeat split. repeat constructor.
    + rewrite flush_no_endpoint by exact Hn.
      exists r, []. rewrite !app_nil_r. repeat split. constructor.
Qed.

Lemma reported_cons (c : Call) (cs : list Call) :
  reported (c :: cs) = reported [c] ++ reported cs.
Proof. unfold reported. simpl. destruct c; reflexivity. Qed.

(** Without an endpoint no call sends anything, on any reporter; and only
    an enabled reporter takes a reported record in. *)
Lemma run_call_without_endpoint (w : World) (c : Call) (r : Reporter)
    (l : list Event) :
  truthy_string (endpoint (config r)) = false ->
  exists r' new,
    run_call w c r l = (Normal tt, r', l ++ new)
    /\ config r' = config r
    /\ queue r' = queue r ++ ReporterHost.accepted r [c]
    /\ Forall (fun ev => is_fetch ev = false) new.
Proof.
  intros Hn. unfold ReporterHost.accepted.
  destruct (truthy_bool (enabled (config r))) eqn:He;
    [exact (run_call_no_endpoint w c r l Hn He)|].
  rewrite app_nil_r. destruct c as [error| | |]; simpl.
  - rewrite (report_disabled w r l error He).
    exists r, []. rewrite app_nil_r. repeat split. constructor.
  - rewrite (flush_no_endpoint w r l Hn).
    exists r, []. rewrite app_nil_r. repeat split. constructor.
  - unfold on_flush_timer. eff.
    destruct (0 <? _); [rewrite (flush_no_endpoint w r l Hn)|];
      exists r, []; rewrite app_nil_r; repeat split; constructor.
  - unfold stop. eff. destruct (flushTimer r) as [t|]; simpl.
    + rewrite flush_no_endpoint by exact Hn.
      eexists _, [EvClearInterval]. split; [reflexivity|].
      simpl. repeat split. repeat constructor.
    + rewrite flush_no_endpoint by exact Hn.
      exists r, []. rewrite app_nil_r. repeat split. constructor.
Qed.

(** ** Sample inputs *)

Definition sample_error (n : N) : GuardianError :=
  {| message := "render failed"; stack := None; componentStack := None;
     errorBoundary := None; timestamp := n; userId := None;
     sessionId := None; userAgent := None; url := None |}.

Definition sample_errors (n : nat) : list GuardianError :=
  map (fun k => sample_error (N.of_nat k)) (seq 0 n).

(** A collector that is down, and a sink that throws. *)
Definition world_down : World :=
  {| sink := fun _ _ _ => SinkThrows "sink failed";
     network := fun _ _ => FetchRejects "Failed to fetch" |}.

(** A collector that answers 200, and a sink that resolves. *)
Definition world_up : World :=
  {| sink := fun _ _ _ => SinkResolves;
     network := fun _ _ => FetchResponds true "200 OK" |}.

Definition config_endpoint : ReporterConfig :=
  {| endpoint := Some "https://collector.example/errors"; apiKey := None;
     batchSize := None; flushInterval := None; customReporter := None;
     enabled := None |}.

Definition config_sink : ReporterConfig :=
  {| endpoint := None; apiKey := None; batchSize := None;
     flushInterval := None; customReporter := Some "sentry";
     enabled := None |}.

(** [{}]: nothing is configured, so the reporter is enabled and has
    neither an endpoint nor a custom sink. *)
Definition config_plain : ReporterConfig :=
  {| endpoint := None; apiKey := None; batchSize := None;
     flushInterval := None; customReporter := None; enabled := None |}.

(** [{ enabled: false }] *)
Definition config_disabled : ReporterConfig :=
  {| endpoint := None; apiKey := None; batchSize := None;
     flushInterval := None; customReporter := None;
     enabled := Some false |}.

Definition reporter_of (c : ReporterConfig) : Reporter :=
  fst (constructor (Some (given c))).

(** C9, as stated, fails: a reporter need not be enabled.  On a reporter
    made with [{ enabled: false }] and no endpoint, twelve reports - more
    than the batch size of 10 - send nothing, but the queue accumulates
    none of them: it is empty afterwards. *)
Lemma disabled_reporter_queues_nothing :
  truthy_string (endpoint (config (reporter_of config_disabled))) = false
  /\ or_default (batchSize (config (reporter_of config_disabled))) 10
     <= length (reported (map CallReport (sample_errors 12)))
  /\ exists r' l',
       run_calls world_up (map CallReport (sample_errors 12))
         (reporter_of config_disabled) [] = (Normal tt, r', l')
       /\ Forall (fun ev => is_fetch ev = false) l'
       /\ queue r' = []
       /\ queue r' <>
            queue (reporter_of config_disabled)
            ++ reported (map CallReport (sample_errors 12)).
Proof.
  split; [reflexivity|]. split; [vm_compute; lia|].
  eexists _, _. split; [vm_compute; reflexivity|].
  split; [constructor|]. split; [reflexivity|]. discriminate.
Qed.

(** C9, amended. With no endpoint configured, whatever is called and
    however often - [report], [flush], the flush timer, [stop] - no
    request is ever handed to [fetch], and a flush returns at once with
    the reporter untouched: this holds for every reporter.  The queue ends
    up holding every reported record, in order, behind what it held
    before, when the reporter is enabled (as it is by default); a
    disabled reporter ignores [report], and its queue ends up as it
    was. *)
Theorem no_endpoint_never_sends (w : World) (cs : list Call) (r : Reporter)
    (l : list Event) :
  truthy_string (endpoint (config r)) = false ->
  flush w r l = (Normal tt, r, l)
  /\ exists r' new,
       run_calls w cs r l = (Normal tt, r', l ++ new)
       /\ Forall (fun ev => is_fetch ev = false) new
       /\ queue r' =
            queue r
            ++ (if truthy_bool (enabled (config r)) then reported cs
                else []).
Proof.
  intros Hn. split; [exact (flush_no_endpoint w r l Hn)|].
  change (if truthy_bool (enabled (config r)) then reported cs else [])
    with (ReporterHost.accepted r cs).
  revert r l Hn.
  induction cs as [|c cs IH]; intros r l Hn.
  - exists r, []. unfold ReporterHost.accepted. simpl.
    destruct (truthy_bool _); rewrite !app_nil_r; repeat split; constructor.
  - destruct (run_call_without_endpoint w c r l Hn)
      as (r1 & new1 & Hrun & Hcfg & Hq & Hnew).
    destruct (IH r1 (l ++ new1)) as (r2 & new2 & Hrun2 & Hnew2 & Hq2).
    { rewrite Hcfg. exact Hn. }
    exists r2, (new1 ++ new2). cbn [run_calls]. unfold bind at 1.
    rewrite Hrun, Hrun2.
    rewrite app_assoc. split; [reflexivity|]. split.
    + apply Forall_app. split; assumption.
    + rewrite Hq2, Hq. unfold ReporterHost.accepted. rewrite Hcfg.
      destruct (truthy_bool (enabled (config r)));
        [rewrite (reported_cons c cs), app_assoc|rewrite !app_nil_r];
        reflexivity.
Qed.

Lemma no_endpoint_never_sends_witness :
  flush world_down (reporter_of config_plain) [] =
    (Normal tt, reporter_of config_plain, [])
  /\ exists r' new,
       run_calls world_down (map CallReport (sample_errors 12) ++ [CallStop])
         (reporter_of config_plain) [] = (Normal tt, r', [] ++ new)
       /\ Forall (fun ev => is_fetch ev = false) new
       /\ queue r' =
            queue (reporter_of config_plain)
            ++ (if truthy_bool (enabled (config (reporter_of config_plain)))
                then reported (map CallReport (sample_errors 12)
                                 ++ [CallStop])
                else []).
Proof.
  apply (no_endpoint_never_sends world_down
           (map CallReport (sample_errors 12) ++ [CallStop])
           (reporter_of config_plain) []); reflexivity.
Defined.


(** C4, as stated, fails: a reporter with a custom sink and an empty queue
    is handed one record, and the queue holds that record afterwards. *)
Lemma custom_sink_still_queues :
  customReporter (config (reporter_of config_sink)) = Some "sentry"
  /\ queue (reporter_of config_sink) = []
  /\ (let '(_, r', _) :=
         report world_up (sample_error 0) (reporter_of config_sink) [] in
       queue r' = [sample_error 0]
       /\ queue r' <> queue (reporter_of config_sink)).
Proof. vm_compute. repeat split. discriminate. Qed.

(** C4, amended. On an enabled reporter with a custom sink, [report] hands
    the record to the sink at once and exactly once, and sends nothing to
    the endpoint however long the queue is (the batch-size flush is
    skipped); the record is nevertheless appended to the pending queue. *)
Theorem custom_sink_skips_batching (w : World) (r : Reporter)
    (l : list Event) (error : GuardianError) (cb : Callback) :
  truthy_bool (enabled (config r)) = true ->
  customReporter (config r) = Some cb ->
  exists rest,
    report w error r l =
      (Normal tt, set_queue (queue r ++ [error]) r,
       l ++ EvCustomReporter cb error (queue r ++ [error]) :: rest)
    /\ Forall (fun ev => is_fetch ev = false /\ is_sink_call ev = false) rest.
Proof.
  intros He Hc. rewrite (report_with_customReporter w r l error cb He Hc).
  eexists. split; [reflexivity|].
  destruct (sink w l cb error); repeat constructor.
Qed.

Lemma custom_sink_skips_batching_witness :
  exists rest,
    report world_down (sample_error 7)
      (set_queue (sample_errors 30) (reporter_of config_sink)) [] =
      (Normal tt,
       set_queue (sample_errors 30 ++ [sample_error 7])
         (set_queue (sample_errors 30) (reporter_of config_sink)),
       [] ++ EvCustomReporter "sentry" (sample_error 7)
               (sample_errors 30 ++ [sample_error 7]) :: rest)
    /\ Forall (fun ev => is_fetch ev = false /\ is_sink_call ev = false) rest.
Proof.
  apply (custom_sink_skips_batching world_down
           (set_queue (sample_errors 30) (reporter_of config_sink)) []
           (sample_error 7) "sentry"); reflexivity.
Defined.

(** C10. With a custom sink configured, [report] always completes normally:
    an exception the sink throws, or a rejection of the promise it returns,
    never reaches the caller.  Whenever the sink was called, it was called
    on this record while the queue already held it, and the record is
    still queued when [report] returns.  On an enabled reporter a failing
    sink was called, and its failure is written to the console. *)
Theorem custom_sink_failure_contained (w : World) (r : Reporter)
    (l : list Event) (error : GuardianError) (cb : Callback) :
  customReporter (config r) = Some cb ->
  exists r' new,
    report w error r l = (Normal tt, r', l ++ new)
    /\ (forall cb' error' queued,
          EvCustomReporter cb' error' queued ∈ new ->
          cb' = cb /\ error' = error
          /\ queued = queue r ++ [error]
          /\ queue r' = queue r ++ [error])
    /\ (truthy_bool (enabled (config r)) = true ->
        sink w l cb error <> SinkResolves ->
        new = [EvCustomReporter cb error (queue r ++ [error]);
               EvConsoleError "Custom reporter failed:"]).
Proof.
  intros Hc. destruct (truthy_bool (enabled (config r))) eqn:He.
  - rewrite (report_with_customReporter w r l error cb He Hc).
    eexists _, _. split; [reflexivity|]. split.
    + intros cb' error' queued Hin.
      apply elem_of_cons in Hin as [[= -> -> ->]|Hin]; [auto|].
      destruct (sink w l cb error);
        [apply elem_of_nil in Hin; contradiction| |];
        apply list_elem_of_singleton in Hin; discriminate.
    + intros _ Hs.
      destruct (sink w l cb error); [contradiction|reflexivity|reflexivity].
  - rewrite (report_disabled w r l error He).
    exists r, []. rewrite app_nil_r. split; [reflexivity|]. split.
    + intros cb' error' queued Hin. apply elem_of_nil in Hin. contradiction.
    + discriminate.
Qed.

Lemma custom_sink_failure_contained_witness :
  exists r' new,
    report world_down (sample_error 1) (reporter_of config_sink) [] =
      (Normal tt, r', [] ++ new)
    /\ (forall cb' error' queued,
          EvCustomReporter cb' error' queued ∈ new ->
          cb' = "sentry" /\ error' = sample_error 1
          /\ queued = queue (reporter_of config_sink) ++ [sample_error 1]
          /\ queue r' = queue (reporter_of config_sink) ++ [sample_error 1])
    /\ (truthy_bool (enabled (config (reporter_of config_sink))) = true ->
        sink world_down [] "sentry" (sample_error 1) <> SinkResolves ->
        new = [EvCustomReporter "sentry" (sample_error 1)
                 (queue (reporter_of config_sink) ++ [sample_error 1]);
               EvConsoleError "Custom reporter failed:"]).
Proof.
  apply (custom_sink_failure_contained world_down (reporter_of config_sink)
           [] (sample_error 1) "sentry"); reflexivity.
Defined.

(** While delivery keeps failing, every report leaves the queue one record
    longer: the hundred-record test in the [catch] block looks at a queue
    that [flush] has just emptied. *)
Lemma report_delivery_fails (w : World) (r : Reporter) (l : list Event)
    (error : GuardianError) :
  truthy_bool (enabled (config r)) = true ->
  customReporter (config r) = None ->
  (forall l' req, delivery_fails (network w l' req) = true) ->
  exists new,
    report w error r l =
      (Normal tt, set_queue (queue r ++ [error]) r, l ++ new).
Proof.
  intros He Hc Hw. unfold report. eff. rewrite He, Hc. simpl.
  destruct (_ <=? _).
  - destruct (truthy_string (endpoint (config r))) eqn:Hn.
    + eexists. erewrite flush_failure_restores; try reflexivity.
      * exact Hn.
      * simpl. destruct (queue r); discriminate.
      * apply Hw.
    + exists []. rewrite flush_no_endpoint by exact Hn.
      rewrite app_nil_r. reflexivity.
  - exists []. rewrite app_nil_r. reflexivity.
Qed.

Lemma failing_delivery_grows_queue (w : World) (errors : list GuardianError)
    (r : Reporter) (l : list Event) :
  truthy_bool (enabled (config r)) = true ->
  customReporter (config r) = None ->
  (forall l' req, delivery_fails (network w l' req) = true) ->
  exists new,
    run_calls w (map CallReport errors) r l =
      (Normal tt, set_queue (queue r ++ errors) r, l ++ new).
Proof.
  intros He Hc Hw. revert r l He Hc.
  induction errors as [|error errors IH]; intros r l He Hc.
  - exists []. simpl. rewrite !app_nil_r. destruct r; reflexivity.
  - destruct (report_delivery_fails w r l error He Hc Hw) as [new1 H1].
    destruct (IH (set_queue (queue r ++ [error]) r) (l ++ new1) He Hc)
      as [new2 H2].
    exists (new1 ++ new2). cbn [run_calls map run_call]. unfold bind at 1.
    rewrite H1, H2. simpl. rewrite <- !app_assoc. reflexivity.
Qed.

(** When a hundred records were queued while the request was under way, the
    failed batch is not put back at all. *)
Example requeue_drops_whole_batch :
  requeue (sample_errors 10)
    (set_queue (sample_errors 100) (reporter_of config_endpoint)) [] =
  (Normal tt, set_queue (sample_errors 100) (reporter_of config_endpoint),
   [EvConsoleError "Failed to report errors:"]).
Proof. rewrite requeue_spec. reflexivity. Qed.

(** C1, at the failing input: a reporter with an endpoint that is down is
    given 101 records, one [report] call after the other.  Every flush
    fails and puts its whole batch back, so the queue ends up holding all
    101 records, one more than the cap the claim states. *)
Theorem requeue_cap_not_enforced :
  exists r l,
    run_calls world_down (map CallReport (sample_errors 101))
      (reporter_of config_endpoint) [] = (Normal tt, r, l)
    /\ queue r = sample_errors 101
    /\ getQueueSize r = 101.
Proof.
  destruct (failing_delivery_grows_queue world_down (sample_errors 101)
              (reporter_of config_endpoint) []) as [new H];
    [reflexivity|reflexivity|reflexivity|].
  eexists _, _. split; [exact H|]. split; reflexivity.
Qed.

End ReporterFacts.

(** * Facts about the recovery engine *)
Module RecoveryEngineFacts.
Import RecoveryEngine.

(** Open the calls to the outside as well. *)
Ltac eff_ext := unfold external in *; eff.

(** No strategy writes a field of the engine, and none lets an exception
    out. *)
Lemma performRecovery_pure (w : World) (a : Action.t) (e : Engine)
    (l : list Event) :
  exists (b : bool) (new : list Event),
    performRecovery w a e l = (Normal b, e, l ++ new)
    /\ Forall (fun ev => is_attempt ev = false) new.
Proof.
  unfold performRecovery, handleRetry, handleFallback, handleReload,
    handleRedirect, handleCustom, delay.
  destruct (Action.strategy a); eff_ext; simpl.
  - destruct (_ <=? _)%N; eexists _, [_]; split; try reflexivity;
      repeat constructor.
  - destruct (Action.fallbackComponent a),
      (Config.fallbackComponent (config e));
      eexists _, []; rewrite app_nil_r; split; try reflexivity; constructor.
  - destruct (reload_call w l);
      [eexists _, [_; _]; rewrite <- app_assoc|eexists _, [_]];
      split; try reflexivity; repeat constructor.
  - destruct (truthy_string (Action.redirectUrl a)); simpl;
      (destruct (navigate_call w l _);
       [eexists _, [_; _]; rewrite <- app_assoc|eexists _, [_]];
       split; try reflexivity; repeat constructor).
  - destruct (Action.customAction a) as [p|]; simpl;
      [destruct (customAction_call w l p);
       [eexists _, [_; _]; rewrite <- app_assoc|eexists _, [_]]
      |eexists _, [_]];
      split; try reflexivity; repeat constructor.
  - eexists _, [_]; split; try reflexivity; repeat constructor.
Qed.

(** [execute] on an engine that is recovering, or disabled. *)
Lemma execute_guard (fuel : nat) (w : World) (a : Action.t) (e : Engine)
    (l : list Event) :
  negb (Config.enabled (config e)) || isRecovering e = true ->
  execute (S fuel) w a e l = (Normal false, e, l).
Proof. intros H. simpl. eff_ext. rewrite H. reflexivity. Qed.

(** One pass through [execute] on an enabled, idle engine whose callback
    returns, by what the strategy answered. *)
Lemma execute_idle (fuel : nat) (w : World) (a : Action.t) (e : Engine)
    (l l' : list Event) (b : bool) :
  Config.enabled (config e) = true ->
  isRecovering e = false ->
  onRecovery_call w l a = None ->
  performRecovery w a (set_isRecovering true e) (l ++ [EvOnRecovery a]) =
    (Normal b, set_isRecovering true e, l') ->
  execute (S (S fuel)) w a e l =
    if b then (Normal true, set_retryCount 0 e, l')
    else if (retryCount e <? Config.maxRetries (config e))%N
         then (Normal false,
               set_isRecovering true (set_retryCount (retryCount e + 1) e), l')
         else (Normal false, e, l').
Proof.
  intros He Hi Hcb Hp. cbn [execute]. eff_ext. rewrite He, Hi. cbn [negb orb].
  cbv beta. rewrite Hcb, Hp. destruct e as [c n r]; simpl in *. subst r.
  destruct b; [reflexivity|].
  unfold set_isRecovering, set_retryCount; simpl.
  destruct (n <? Config.maxRetries c)%N; simpl; [|reflexivity].
  rewrite orb_true_r. reflexivity.
Qed.

Lemma attempts_app (l1 l2 : list Event) :
  attempts (l1 ++ l2) = attempts l1 + attempts l2.
Proof. unfold attempts. rewrite filter_app, length_app. reflexivity. Qed.

Lemma attempts_none (l : list Event) :
  Forall (fun ev => is_attempt ev = false) l -> attempts l = 0.
Proof.
  unfold attempts. induction 1 as [|ev l Hev _ IH]; [reflexivity|].
  rewrite filter_cons. destruct (decide (is_attempt ev)) as [Ht|_]; [|exact IH].
  rewrite Hev in Ht. destruct Ht.
Qed.

(** Whatever the fuel, the world and the engine, one call of [execute]
    invokes a strategy at most once: the self-call is always refused. *)
Lemma execute_at_most_one_attempt (fuel : nat) (w : World) (a : Action.t)
    (e : Engine) (l : list Event) :
  exists c e' new,
    execute fuel w a e l = (c, e', l ++ new) /\ attempts new <= 1.
Proof.
  destruct fuel as [|fuel].
  { exists Unfinished, e, []. rewrite app_nil_r. split; [reflexivity|].
    vm_compute. lia. }
  destruct (negb (Config.enabled (config e)) || isRecovering e) eqn:Hg.
  { rewrite (execute_guard fuel w a e l Hg).
    eexists _, _, []. rewrite app_nil_r. split; [reflexivity|].
    vm_compute. lia. }
  destruct (performRecovery_pure w a (set_isRecovering true e)
              (l ++ [EvOnRecovery a])) as (b & new & Hp & Hnew).
  cbn [execute]. eff_ext. rewrite Hg. cbv beta.
  destruct (onRecovery_call w l a) as [err|].
  { eexists _, _, [_]. split; [reflexivity|]. vm_compute. lia. }
  rewrite Hp. rewrite <- app_assoc.
  assert (Hone : attempts ([EvOnRecovery a] ++ new) <= 1).
  { rewrite attempts_app, (attempts_none new Hnew). vm_compute. lia. }
  destruct b.
  { eexists _, _, _. split; [reflexivity|exact Hone]. }
  cbv beta. destruct (_ <? _)%N.
  - destruct fuel as [|fuel].
    + eexists _, _, _. split; [reflexivity|exact Hone].
    + cbn [execute]. eff_ext. unfold set_isRecovering, set_retryCount. simpl.
      rewrite orb_true_r.
      eexists _, _, _. split; [reflexivity|exact Hone].
  - eexists _, _, _. split; [reflexivity|exact Hone].
Qed.

(** Two levels of the recursion are all [execute] ever uses: with that much
    fuel it always finishes, and more fuel changes nothing. *)
Lemma execute_fuel (fuel : nat) (w : World) (a : Action.t) (e : Engine)
    (l : list Event) :
  execute (S (S fuel)) w a e l = execute 2 w a e l
  /\ (execute 2 w a e l).1.1 <> Unfinished.
Proof.
  destruct (negb (Config.enabled (config e)) || isRecovering e) eqn:Hg.
  { rewrite !execute_guard by exact Hg. split; [reflexivity|discriminate]. }
  destruct (performRecovery_pure w a (set_isRecovering true e)
              (l ++ [EvOnRecovery a])) as (b & new & Hp & _).
  cbn [execute]. eff_ext. rewrite Hg. cbv beta.
  destruct (onRecovery_call w l a) as [err|];
    [split; [reflexivity|discriminate]|].
  rewrite Hp. destruct b; [split; [reflexivity|discriminate]|].
  cbv beta. unfold set_isRecovering, set_retryCount. simpl.
  destruct (_ <? _)%N; simpl; rewrite ?orb_true_r;
    (split; [reflexivity|discriminate]).
Qed.

(** ** Sample inputs *)

Definition world_calm : World :=
  {| onRecovery_call := fun _ _ => None;
     reload_call := fun _ => None;
     navigate_call := fun _ _ => None;
     customAction_call := fun _ _ => None |}.

(** An enabled engine configured with [maxRetries = 2] and no default
    fallback view. *)
Definition config_two : Config.t :=
  {| Config.enabled := true;
     Config.strategies := [retry; fallback];
     Config.maxRetries := 2;
     Config.fallbackComponent := None;
     Config.onRecovery := "onRecovery" |}.

Definition action_of (s : RecoveryStrategy) (count : option N) : Action.t :=
  {| Action.strategy := s;
     Action.fallbackComponent := None;
     Action.redirectUrl := None;
     Action.retryCount := count;
     Action.maxRetries := None;
     Action.customAction := None |}.

(** C6. While the engine is recovering, [execute] - whatever the action -
    returns false and is a no-op: the retry counter, the recovering flag and
    the configuration are as before, and nothing is logged, so the
    recovery-started callback was not invoked. *)
Theorem execute_while_recovering (fuel : nat) (w : World) (a : Action.t)
    (e : Engine) (l : list Event) :
  isRecovering e = true ->
  execute (S fuel) w a e l = (Normal false, e, l).
Proof.
  intros H. apply execute_guard. rewrite H. apply orb_true_r.
Qed.

Lemma execute_while_recovering_witness :
  execute 1 world_calm (action_of reload None)
    (set_isRecovering true (set_retryCount 1 (constructor config_two)))
    [EvOnRecovery (action_of fallback None)] =
  (Normal false,
   set_isRecovering true (set_retryCount 1 (constructor config_two)),
   [EvOnRecovery (action_of fallback None)]).
Proof.
  apply (execute_while_recovering 0 world_calm (action_of reload None)
           (set_isRecovering true (set_retryCount 1 (constructor config_two)))
           [EvOnRecovery (action_of fallback None)]).
  reflexivity.
Defined.

(** A strategy that fails while retries are left: the counter goes up by
    one, the self-call meets the recovering flag it has not lowered and
    returns false, and the flag stays raised. *)
Lemma failed_attempt_sticks (fuel : nat) (w : World) (a : Action.t)
    (e : Engine) (l l' : list Event) :
  Config.enabled (config e) = true ->
  isRecovering e = false ->
  onRecovery_call w l a = None ->
  performRecovery w a (set_isRecovering true e) (l ++ [EvOnRecovery a]) =
    (Normal false, set_isRecovering true e, l') ->
  (retryCount e < Config.maxRetries (config e))%N ->
  execute (S (S fuel)) w a e l =
    (Normal false,
     set_isRecovering true (set_retryCount (retryCount e + 1) e), l').
Proof.
  intros He Hi Hcb Hp Hlt.
  rewrite (execute_idle fuel w a e l l' false He Hi Hcb Hp).
  apply N.ltb_lt in Hlt. rewrite Hlt. reflexivity.
Qed.

(** A strategy that fails when no retry is left: false, and idle again. *)
Lemma exhausted_attempt_idles (fuel : nat) (w : World) (a : Action.t)
    (e : Engine) (l l' : list Event) :
  Config.enabled (config e) = true ->
  isRecovering e = false ->
  onRecovery_call w l a = None ->
  performRecovery w a (set_isRecovering true e) (l ++ [EvOnRecovery a]) =
    (Normal false, set_isRecovering true e, l') ->
  (Config.maxRetries (config e) <= retryCount e)%N ->
  execute (S (S fuel)) w a e l = (Normal false, e, l').
Proof.
  intros He Hi Hcb Hp Hle.
  rewrite (execute_idle fuel w a e l l' false He Hi Hcb Hp).
  apply N.ltb_ge in Hle. rewrite Hle. reflexivity.
Qed.

(** C2, at the failing input: an enabled, idle engine with [maxRetries = 2]
    and no fallback view executes a [fallback] action, whose strategy
    fails.  [execute] returns false after that single attempt, with the
    counter at 1 and the engine still recovering; every later [execute]
    is then refused, so the maximum is never reached and the engine never
    returns to idle. *)
Theorem failed_recovery_never_idles (fuel : nat) :
  exists e' l',
    execute (S (S fuel)) world_calm (action_of fallback None)
      (constructor config_two) [] = (Normal false, e', l')
    /\ isCurrentlyRecovering e' = true
    /\ getRetryCount e' = 1%N
    /\ attempts l' = 1
    /\ forall a,
         execute (S (S fuel)) world_calm a e' l' = (Normal false, e', l').
Proof.
  eexists _, _. split.
  - apply failed_attempt_sticks; reflexivity.
  - split; [reflexivity|]. split; [reflexivity|]. split; [reflexivity|].
    intros a. apply execute_guard. reflexivity.
Qed.

(** What C3 states about a run of [execute]: failure after three strategy
    invocations, paced by delays of 1000 and 2000 ms. *)
Definition three_attempts_then_failure
    (run : Completion bool * Engine * list Event) : Prop :=
  run.1.1 = Normal false
  /\ attempts run.2 = 3
  /\ delays run.2 = [1000; 2000]%N.

(** C3, as stated, fails.  With [maxRetries = 2], a [retry] action is
    invoked once, waits 1000 ms and succeeds; and a [retry] action that
    does fail (its own [retryCount] is used up) fails after one invocation
    and without any delay. *)
Lemma retry_action_single_attempt :
  execute 8 world_calm (action_of retry None) (constructor config_two) [] =
    (Normal true, constructor config_two,
     [EvOnRecovery (action_of retry None); EvDelay 1000])
  /\ ~ three_attempts_then_failure
        (execute 8 world_calm (action_of retry None)
           (constructor config_two) [])
  /\ ~ three_attempts_then_failure
        (execute 8 world_calm (action_of retry (Some 2%N))
           (constructor config_two) []).
Proof.
  split; [reflexivity|].
  split; intros (_ & H & _); vm_compute in H; discriminate.
Qed.

Lemma backoff_capped (n : N) : (4 <= n)%N -> backoff n = 10000%N.
Proof.
  intros H. unfold backoff. apply N.min_r.
  transitivity (1000 * 2 ^ 4)%N; [vm_compute; discriminate|].
  apply N.mul_le_mono_l, N.pow_le_mono_r; [discriminate|exact H].
Qed.

(** C3, amended. On an enabled, idle engine, [execute] of a [retry] action
    whose own [retryCount] k is below its limit first announces the action
    through the recovery-started callback.  When the callback returns, the
    strategy is invoked exactly once: [execute] waits
    [min(1000 * 2^k, 10000)] ms and returns true, with the retry counter
    reset and the engine idle.  When the callback throws, [execute] throws
    the same error without invoking the strategy or waiting, and the
    engine stays recovering.  The delay is 1000 ms for k = 0, 2000 ms for
    k = 1, and 10000 ms from k = 4 on. *)
Theorem retry_action_paces_once (fuel : nat) (w : World) (a : Action.t)
    (e : Engine) (l : list Event) :
  Config.enabled (config e) = true ->
  isRecovering e = false ->
  Action.strategy a = retry ->
  (or_else (Action.retryCount a) 0
   < or_else (Action.maxRetries a) (Config.maxRetries (config e)))%N ->
  execute (S (S fuel)) w a e l =
    match onRecovery_call w l a with
    | None =>
        (Normal true, set_retryCount 0 e,
         l ++ [EvOnRecovery a;
               EvDelay (backoff (or_else (Action.retryCount a) 0))])
    | Some err =>
        (Abrupt err, set_isRecovering true e, l ++ [EvOnRecovery a])
    end
  /\ backoff 0 = 1000%N
  /\ backoff 1 = 2000%N
  /\ forall n, (4 <= n)%N -> backoff n = 10000%N.
Proof.
  intros He Hi Hs Hlt. split; [|repeat split; apply backoff_capped].
  destruct (onRecovery_call w l a) as [err|] eqn:Hcb.
  - cbn [execute]. eff_ext. rewrite He, Hi. cbn [negb orb]. cbv beta.
    rewrite Hcb. reflexivity.
  - rewrite (execute_idle fuel w a e l
               (l ++ [EvOnRecovery a;
                      EvDelay (backoff (or_else (Action.retryCount a) 0))])
               true He Hi Hcb); [reflexivity|].
    unfold performRecovery, handleRetry, delay. rewrite Hs. eff_ext. simpl.
    apply N.leb_gt in Hlt. rewrite Hlt. rewrite <- app_assoc. reflexivity.
Qed.

Lemma retry_action_paces_once_witness :
  execute 2 world_calm (action_of retry (Some 1%N))
    (constructor config_two) [] =
    match onRecovery_call world_calm [] (action_of retry (Some 1%N)) with
    | None =>
        (Normal true, set_retryCount 0 (constructor config_two),
         [] ++ [EvOnRecovery (action_of retry (Some 1%N));
                EvDelay (backoff (or_else (Action.retryCount
                                             (action_of retry (Some 1%N)))
                                    0))])
    | Some err =>
        (Abrupt err, set_isRecovering true (constructor config_two),
         [] ++ [EvOnRecovery (action_of retry (Some 1%N))])
    end
  /\ backoff 0 = 1000%N
  /\ backoff 1 = 2000%N
  /\ forall n, (4 <= n)%N -> backoff n = 10000%N.
Proof.
  apply (retry_action_paces_once 0 world_calm (action_of retry (Some 1%N))
           (constructor config_two) []); reflexivity.
Defined.

End RecoveryEngineFacts.

(** * Facts about the auto-correct engine *)
Module AutoCorrectFacts.
Import AutoCorrect.

(** The last [n] entries of a list. *)
Definition keep_last {A} (n : nat) (l : list A) : list A :=
  drop (length l - n) l.

Lemma keep_last_length {A} (n : nat) (l : list A) :
  length (keep_last n l) = min n (length l).
Proof. unfold keep_last. rewrite length_drop. lia. Qed.

Lemma keep_last_short {A} (n : nat) (l : list A) :
  length l <= n -> keep_last n l = l.
Proof.
  intros H. unfold keep_last. replace (length l - n) with 0 by lia.
  reflexivity.
Qed.

Lemma keep_last_app {A} (n : nat) (x y : list A) :
  keep_last n (keep_last n x ++ y) = keep_last n (x ++ y).
Proof.
  unfold keep_last.
  rewrite <- (drop_app_le x y (length x - n)) by lia.
  rewrite drop_drop. f_equal.
  rewrite length_drop, !length_app. lia.
Qed.

Definition history_of (s : System) : list string := contentHistory (self s).

(** One snapshot: the page's markup goes to the end, and the first entry
    leaves when that makes six. *)
Lemma saveContentSnapshot_spec (page : Page) (s : System) (l : list Event) :
  exists s',
    saveContentSnapshot page s l = (Normal tt, s', l)
    /\ browser s' = browser s
    /\ history_of s' =
         let h := history_of s ++ [body_innerHTML page] in
         if 5 <? length h then tail h else h.
Proof.
  unfold saveContentSnapshot, history_of. eff. simpl.
  destruct (5 <? _); eexists; split; try reflexivity; split; reflexivity.
Qed.

Lemma save_keeps_last (h : list string) (b : string) :
  length h <= 5 ->
  (let h' := h ++ [b] in if 5 <? length h' then tail h' else h') =
    keep_last 5 (h ++ [b]).
Proof.
  intros H. cbv zeta. rewrite length_app. simpl.
  destruct (5 <? length h + 1) eqn:E.
  - apply Nat.ltb_lt in E. unfold keep_last.
    rewrite length_app. simpl.
    replace (length h + 1 - 5) with 1 by lia. reflexivity.
  - apply Nat.ltb_ge in E. symmetry. apply keep_last_short.
    rewrite length_app. simpl. lia.
Qed.

(** A computation that never lengthens the snapshot history. *)
Definition no_growth {A} (m : Eff A) : Prop :=
  forall s l, length (history_of (m s l).1.2) <= length (history_of s).

Lemma no_growth_ret {A} (a : A) : no_growth (ret a).
Proof. intros s l. reflexivity. Qed.

Lemma no_growth_get : no_growth get.
Proof. intros s l. reflexivity. Qed.

Lemma no_growth_history : no_growth history.
Proof. intros s l. reflexivity. Qed.

Lemma no_growth_emit (ev : Event) : no_growth (emit ev).
Proof. intros s l. reflexivity. Qed.

Lemma no_growth_throw {A} (err : string) : no_growth (throw (A := A) err).
Proof. intros s l. reflexivity. Qed.

Lemma no_growth_modify (f : System -> System) :
  (forall s, length (history_of (f s)) <= length (history_of s)) ->
  no_growth (modify f).
Proof. intros H s l. apply H. Qed.

Lemma no_growth_bind {A B} (m : Eff A) (k : A -> Eff B) :
  no_growth m -> (forall a, no_growth (k a)) -> no_growth (bind m k).
Proof.
  intros Hm Hk s l. unfold bind. specialize (Hm s l).
  destruct (m s l) as [[[a|err|] s1] l1]; simpl in *; try exact Hm.
  etransitivity; [apply Hk|exact Hm].
Qed.

Create HintDb no_growth.
#[local] Hint Resolve no_growth_ret no_growth_get no_growth_history
  no_growth_emit no_growth_throw no_growth_bind : no_growth.

(** Walk down a computation, leaving what is not plain sequencing. *)
Ltac no_growth_step :=
  lazymatch goal with
  | |- no_growth (bind _ _) => apply no_growth_bind; [|intros]
  | |- no_growth (if ?b then _ else _) => destruct b
  | |- no_growth (match ?o with Some _ => _ | None => _ end) => destruct o
  | |- no_growth (modify (on_browser _)) =>
      apply no_growth_modify; intros; reflexivity
  | |- no_growth (modify (on_self (set_isRunning _))) =>
      apply no_growth_modify; intros; reflexivity
  | |- no_growth (modify (on_self (set_whitePageCheckInterval _))) =>
      apply no_growth_modify; intros; reflexivity
  | |- _ => solve [auto with no_growth]
  end.

Lemma no_growth_reportAutoCorrect (w : World) (a : AutoCorrectAction) :
  no_growth (reportAutoCorrect w a).
Proof. unfold reportAutoCorrect. repeat no_growth_step. Qed.

Lemma length_removelast_le {A} (l : list A) :
  length (removelast l) <= length l.
Proof.
  induction l as [|a [|b l] IH]; simpl in *; lia.
Qed.

Lemma no_growth_pop_contentHistory : no_growth pop_contentHistory.
Proof. intros s l. apply length_removelast_le. Qed.

Lemma no_growth_restoreFromHistory (w : World) :
  no_growth (restoreFromHistory w).
Proof.
  unfold restoreFromHistory.
  repeat first
    [ apply no_growth_reportAutoCorrect
    | apply no_growth_pop_contentHistory
    | no_growth_step ].
Qed.

Lemma no_growth_handleWhitePage (w : World) : no_growth (handleWhitePage w).
Proof.
  unfold handleWhitePage, attemptPageReload.
  repeat first [apply no_growth_restoreFromHistory | no_growth_step].
Qed.

Lemma no_growth_handleEmptyPage : no_growth handleEmptyPage.
Proof.
  unfold handleEmptyPage, injectFallbackContent, setTimeout.
  repeat no_growth_step.
Qed.

Lemma no_growth_checkForWhitePage (w : World) (page : Page) :
  no_growth (checkForWhitePage w page).
Proof.
  unfold checkForWhitePage. cbv zeta.
  repeat first
    [ apply no_growth_handleWhitePage
    | apply no_growth_handleEmptyPage
    | no_growth_step ].
Qed.

Lemma no_growth_start (page : Page) : no_growth (start page).
Proof.
  unfold start, startWhitePageDetection, startPageBreakDetection,
    startVisualHealing, setInterval, observe_mutations, observe_resizes.
  repeat no_growth_step.
Qed.

Lemma no_growth_stop : no_growth stop.
Proof. unfold stop, clearInterval. repeat no_growth_step. Qed.

(** Every call keeps a history of at most five entries that short. *)
Lemma run_call_bounded (w : World) (c : Call) (s : System) (l : list Event) :
  length (history_of s) <= 5 ->
  length (history_of (run_call w c s l).1.2) <= 5.
Proof.
  intros H. destruct c as [page| |page|page]; simpl.
  - etransitivity; [apply no_growth_start|exact H].
  - etransitivity; [apply no_growth_stop|exact H].
  - destruct (saveContentSnapshot_spec page s l) as (s' & -> & _ & Hh).
    simpl. rewrite Hh, (save_keeps_last _ _ H), keep_last_length. lia.
  - etransitivity; [apply no_growth_checkForWhitePage|exact H].
Qed.

Lemma run_calls_bounded (w : World) (cs : list Call) (s : System)
    (l : list Event) :
  length (history_of s) <= 5 ->
  length (history_of (run_calls w cs s l).1) <= 5.
Proof.
  revert s l. induction cs as [|c cs IH]; intros s l H; [exact H|].
  simpl. pose proof (run_call_bounded w c s l H) as H1.
  destruct (run_call w c s l) as [[r s1] l1]. apply IH. exact H1.
Qed.

Lemma save_all_history (w : World) (pages : list Page) (s : System)
    (l : list Event) :
  length (history_of s) <= 5 ->
  history_of (run_calls w (save_all pages) s l).1 =
    keep_last 5 (history_of s ++ map body_innerHTML pages).
Proof.
  revert s l. induction pages as [|page pages IH]; intros s l H.
  - simpl. rewrite app_nil_r. symmetry. apply keep_last_short. exact H.
  - simpl.
    destruct (saveContentSnapshot_spec page s l) as (s' & -> & _ & Hh).
    rewrite (save_keeps_last _ _ H) in Hh.
    rewrite IH by (rewrite Hh, keep_last_length; lia).
    rewrite Hh, keep_last_app, <- app_assoc. reflexivity.
Qed.

(** ** Sample inputs *)

Definition sample_page (html : string) : Page :=
  {| body_innerHTML := html;
     body_scrollHeight := 900; body_offsetHeight := 900;
     html_clientHeight := 600; html_scrollHeight := 900;
     html_offsetHeight := 900; innerHeight := 600;
     all_elements :=
       [ {| node := 7; display := "block"; visibility := "visible";
            opacity := "1"; textContent := utf16 "Dashboard" |} ] |}.

Definition config_all : AutoCorrectConfig :=
  {| enabled := true;
     whitePageDetection_enabled := true;
     whitePageDetection_threshold := 0.5;
     whitePageDetection_checkInterval := 5000;
     pageBreakDetection_enabled := true;
     pageBreakDetection_selectors := ["main"];
     pageBreakDetection_minHeight := 50;
     visualHealing_enabled := true;
     visualHealing_strategies := [fix_layout];
     onAutoCorrect := Some "onAutoCorrect" |}.

(** A callback that returns, and a document that shows again what was
    last written into its body. *)
Definition world_calm : World :=
  {| onAutoCorrect_call := fun _ _ => None;
     reread := fun l page =>
       match last (omap (fun ev => match ev with
                                   | EvSetBodyInnerHTML html => Some html
                                   | _ => None
                                   end) l) with
       | Some html => sample_page html
       | None => page
       end |}.

Definition fresh_system (c : AutoCorrectConfig) : System :=
  {| self := constructor c; browser := fresh_browser |}.

(** C8. From a history of at most five snapshots - the empty one of a new
    engine in particular - no sequence of calls ever makes it longer than
    five; snapshots taken in a row leave exactly the last five of the old
    entries followed by the new ones, in that order, so the newest is at
    the end and the oldest are the ones evicted; and six snapshots on an
    empty history leave five. *)
Theorem snapshot_history_fifo (w : World) (s : System) (l : list Event) :
  length (contentHistory (self s)) <= 5 ->
  (forall cs, length (contentHistory (self (run_calls w cs s l).1)) <= 5)
  /\ (forall pages,
        contentHistory (self (run_calls w (save_all pages) s l).1) =
          keep_last 5 (contentHistory (self s) ++ map body_innerHTML pages))
  /\ (forall pages,
        contentHistory (self s) = [] -> length pages = 6 ->
        length (contentHistory (self (run_calls w (save_all pages) s l).1)) = 5
        /\ contentHistory (self (run_calls w (save_all pages) s l).1) =
             tail (map body_innerHTML pages)).
Proof.
  intros H. split; [|split].
  - intros cs. apply (run_calls_bounded w cs s l H).
  - intros pages. apply (save_all_history w pages s l H).
  - intros pages He Hp.
    pose proof (save_all_history w pages s l H) as Hs.
    unfold history_of in Hs. rewrite Hs, He. simpl.
    split.
    + rewrite keep_last_length, length_map. lia.
    + unfold keep_last. rewrite length_map, Hp. reflexivity.
Qed.

Lemma snapshot_history_fifo_witness :
  (forall cs,
     length (contentHistory
               (self (run_calls world_calm cs (fresh_system config_all) []).1))
     <= 5)
  /\ (forall pages,
        contentHistory
          (self (run_calls world_calm (save_all pages)
                   (fresh_system config_all) []).1) =
          keep_last 5 (contentHistory (self (fresh_system config_all))
                       ++ map body_innerHTML pages))
  /\ (forall pages,
        contentHistory (self (fresh_system config_all)) = [] ->
        length pages = 6 ->
        length (contentHistory
                  (self (run_calls world_calm (save_all pages)
                           (fresh_system config_all) []).1)) = 5
        /\ contentHistory
             (self (run_calls world_calm (save_all pages)
                      (fresh_system config_all) []).1) =
             tail (map body_innerHTML pages)).
Proof.
  apply (snapshot_history_fifo world_calm (fresh_system config_all) []).
  simpl. lia.
Defined.

(** [stop] clears the interval it holds a handle to and nothing else: the
    observers registered with the browser stay as they were. *)
Lemma stop_spec (s : System) (l : list Event) :
  exists s',
    stop s l = (Normal tt, s', l)
    /\ isRunning (self s') = false
    /\ mutationObservers (browser s') = mutationObservers (browser s)
    /\ resizeObservers (browser s') = resizeObservers (browser s)
    /\ timeouts (browser s') = timeouts (browser s)
    /\ forall id,
         whitePageCheckInterval (self s) = Some id ->
         deliver (browser s') (IntervalElapsed id) = [].
Proof.
  unfold stop, clearInterval. eff. simpl.
  destruct (whitePageCheckInterval (self s)) as [id|]; simpl;
    eexists; (split; [reflexivity|]); simpl; repeat split; try discriminate.
  intros ? [= <-]. rewrite lookup_delete_eq. reflexivity.
Qed.

(** Whatever the configuration, once page-break detection is enabled a
    started and stopped engine still has its page-break check run on every
    DOM mutation. *)
Lemma stopped_engine_still_checks (c : AutoCorrectConfig) (page : Page)
    (w : World) :
  pageBreakDetection_enabled c = true ->
  CheckForPageBreaks ∈
    deliver (browser (run_calls w [CallStart page; CallStop]
                        (fresh_system c) []).1) DomMutated.
Proof.
  intros H. unfold run_calls, run_call, start, stop, startWhitePageDetection,
    startPageBreakDetection, startVisualHealing, setInterval, clearInterval,
    observe_mutations, observe_resizes.
  eff. simpl. rewrite H.
  destruct (whitePageDetection_enabled c), (visualHealing_enabled c); simpl;
    apply list_elem_of_singleton; reflexivity.
Qed.

(** C5, at the failing input: an engine with all three detections enabled
    is started and then stopped.  The white-page interval is cleared, but
    the mutation observer and the resize observer, which [start] never
    kept a reference to, are still connected: after [stop] a DOM mutation
    still runs the page-break check and a resize still runs the
    visual-issue check. *)
Theorem stop_leaves_observers_connected :
  let s :=
    (run_calls world_calm [CallStart (sample_page "<main/>"); CallStop]
       (fresh_system config_all) []).1 in
  isRunning (self s) = false
  /\ whitePageCheckInterval (self s) = None
  /\ deliver (browser s) (IntervalElapsed 1) = []
  /\ deliver (browser s) DomMutated = [CheckForPageBreaks]
  /\ deliver (browser s) (Resized 7) = [CheckForVisualIssues].
Proof. vm_compute. repeat split. Qed.

End AutoCorrectFacts.

(** * Facts about doubles *)
Module FloatFacts.

(** NaN or a zero of either sign: what a difference [x - x] can be, and
    what is built from such differences. *)
Definition nil (x : float) : Prop :=
  Prim2SF x = S754_nan \/ exists s, Prim2SF x = S754_zero s.

(** NaN or [+0]. *)
Definition nil_pos (x : float) : Prop :=
  Prim2SF x = S754_nan \/ Prim2SF x = S754_zero false.

Lemma nil_pos_nil (x : float) : nil_pos x -> nil x.
Proof. intros [H|H]; [left|right; exists false]; exact H. Qed.

Lemma sub_diag_nil (x : float) : nil_pos (x - x).
Proof.
  unfold nil_pos. rewrite sub_spec.
  destruct (Prim2SF x) as [[|]|[|]| |s m e]; auto.
  right. unfold SF64sub, SFsub. rewrite Z.sub_diag. reflexivity.
Qed.

Lemma abs_nil_pos (x : float) : nil x -> nil_pos (abs x).
Proof.
  unfold nil, nil_pos. rewrite abs_spec.
  intros [->|[s ->]]; simpl; auto.
Qed.

Lemma mul_nil_pos (x y : float) : nil_pos x -> nil_pos y -> nil_pos (x * y).
Proof.
  unfold nil_pos. rewrite mul_spec.
  intros [->| ->] [->| ->]; simpl; auto.
Qed.

Lemma add_nil_pos (x y : float) : nil_pos x -> nil_pos y -> nil_pos (x + y).
Proof.
  unfold nil_pos. rewrite add_spec.
  intros [->| ->] [->| ->]; simpl; auto.
Qed.

Lemma sqrt_nil_pos (x : float) : nil_pos x -> nil_pos (sqrt x).
Proof.
  unfold nil_pos. rewrite sqrt_spec. intros [->| ->]; simpl; auto.
Qed.

(** [|x - x| / x]: NaN when [x] is NaN, infinite or zero, a zero
    otherwise. *)
Lemma relative_change_nil (x : float) : nil (abs (x - x) / x).
Proof.
  unfold nil. rewrite div_spec, abs_spec, sub_spec.
  destruct (Prim2SF x) as [[|]|[|]| |s m e]; simpl; eauto.
  unfold SF64sub, SFsub. rewrite Z.sub_diag. simpl. eauto.
Qed.

(** A number that is at least zero: a zero, a positive finite number or
    [+Infinity]. *)
Definition non_negative (t : float) : Prop := (0 <=? t)%float = true.

Lemma non_negative_cases (t : float) :
  non_negative t ->
  (exists s, Prim2SF t = S754_zero s)
  \/ Prim2SF t = S754_infinity false
  \/ exists m e, Prim2SF t = S754_finite false m e.
Proof.
  unfold non_negative. rewrite leb_spec.
  change (Prim2SF 0) with (S754_zero false).
  destruct (Prim2SF t) as [s|[|]| |[|] m e]; simpl; try discriminate; eauto.
Qed.

(** Nothing that is a zero or NaN exceeds a non-negative number. *)
Lemma nil_not_above (t x : float) :
  non_negative t -> nil x -> (t <? x)%float = false.
Proof.
  intros Ht Hx. rewrite ltb_spec.
  destruct (non_negative_cases t Ht) as [[s ->]|[->|(m & e & ->)]];
    destruct Hx as [->|[s' ->]]; reflexivity.
Qed.

(** Rounding a non-negative magnitude gives no negative number. *)
Lemma round_not_below_zero (m e : Z) (l : location) (s : bool) :
  SFltb (binary_round_aux prec emax false m e l) (S754_zero s) = false.
Proof.
  unfold binary_round_aux.
  destruct (shr_fexp prec emax m e l) as [mrs e'].
  destruct (shr_fexp prec emax _ e' loc_Exact) as [mrs' e''].
  destruct (shr_m mrs') as [|p|p]; [reflexivity| |reflexivity].
  destruct (Z.leb e'' _); reflexivity.
Qed.

(** Nothing that is a zero or NaN exceeds a hundred times a non-negative
    number. *)
Lemma nil_not_above_scaled (t x : float) :
  non_negative t -> nil x -> (t * 100 <? x)%float = false.
Proof.
  intros Ht Hx. rewrite ltb_spec, mul_spec.
  change (Prim2SF 100) with (S754_finite false 7036874417766400 (-46)).
  destruct Hx as [->|[s' ->]].
  { destruct (SF64mul _ _); reflexivity. }
  destruct (non_negative_cases t Ht) as [[s ->]|[->|(m & e & ->)]];
    try reflexivity.
  unfold SF64mul, SFmul. cbn [xorb]. apply round_not_below_zero.
Qed.

End FloatFacts.

(** * Facts about the layout watcher *)
Module LayoutWatcherFacts.
Import LayoutWatcher FloatFacts.

Section Emits.
(** Which events a computation may log, on which watchers. *)
Context (Q : Event -> Prop) (P : LayoutWatcher -> Prop).

(** [m] leaves the fields alone, and logs only events that satisfy [Q],
    whenever it starts on a watcher that satisfies [P]. *)
Definition emits {A} (m : Eff A) : Prop :=
  forall lw l, P lw ->
    exists c new, m lw l = (c, lw, l ++ new) /\ Forall Q new.

Lemma emits_ret {A} (a : A) : emits (ret a).
Proof. intros lw l _. exists (Normal a), []. rewrite app_nil_r. auto. Qed.

Lemma emits_get : emits get.
Proof. intros lw l _. exists (Normal lw), []. rewrite app_nil_r. auto. Qed.

Lemma emits_history : emits history.
Proof. intros lw l _. exists (Normal l), []. rewrite app_nil_r. auto. Qed.

Lemma emits_throw {A} (err : string) : emits (throw (A := A) err).
Proof. intros lw l _. exists (Abrupt err), []. rewrite app_nil_r. auto. Qed.

Lemma emits_emit (ev : Event) : Q ev -> emits (emit ev).
Proof. intros H lw l _. exists (Normal tt), [ev]. auto. Qed.

Lemma emits_bind {A B} (m : Eff A) (k : A -> Eff B) :
  emits m -> (forall a, emits (k a)) -> emits (bind m k).
Proof.
  intros Hm Hk lw l HP. unfold bind.
  destruct (Hm lw l HP) as (c & new & -> & Hnew).
  destruct c as [a|err|].
  - destruct (Hk a lw (l ++ new) HP) as (c' & new' & -> & Hnew').
    exists c', (new ++ new'). rewrite app_assoc. split; [reflexivity|].
    apply Forall_app. auto.
  - exists (Abrupt err), new. auto.
  - exists Unfinished, new. auto.
Qed.

Lemma emits_reportAnomaly (w : World) (a : LayoutAnomaly) :
  Q (EvOnAnomaly a) -> emits (reportAnomaly w a).
Proof.
  intros H lw l _. unfold reportAnomaly. eff.
  destruct (onAnomaly_call w l a); eexists _, [_]; split; try reflexivity;
    auto.
Qed.

(** What is left of a sequence once its first part, which leaves the
    fields alone, has returned. *)
Lemma emits_bind_inv {A B} (m : Eff A) (k : A -> Eff B) (lw lw' : LayoutWatcher)
    (l l' : list Event) (b : B) :
  emits m -> P lw ->
  bind m k lw l = (Normal b, lw', l') ->
  exists a new, Forall Q new /\ k a lw (l ++ new) = (Normal b, lw', l').
Proof.
  intros Hm HP. unfold bind.
  destruct (Hm lw l HP) as (c & new & -> & Hnew).
  destruct c as [a|err|]; [|discriminate|discriminate].
  intros H. exists a, new. auto.
Qed.

(** [m] may write the fields, but keeps [P] and logs only events that
    satisfy [Q]. *)
Definition logs {A} (m : Eff A) : Prop :=
  forall lw l, P lw ->
    exists c lw' new, m lw l = (c, lw', l ++ new) /\ P lw' /\ Forall Q new.

Lemma emits_logs {A} (m : Eff A) : emits m -> logs m.
Proof.
  intros Hm lw l HP. destruct (Hm lw l HP) as (c & new & -> & Hnew).
  exists c, lw, new. auto.
Qed.

Lemma logs_modify (f : LayoutWatcher -> LayoutWatcher) :
  (forall lw, P lw -> P (f lw)) -> logs (modify f).
Proof.
  intros Hf lw l HP. exists (Normal tt), (f lw), [].
  rewrite app_nil_r. auto.
Qed.

Lemma logs_bind {A B} (m : Eff A) (k : A -> Eff B) :
  logs m -> (forall a, logs (k a)) -> logs (bind m k).
Proof.
  intros Hm Hk lw l HP. unfold bind.
  destruct (Hm lw l HP) as (c & lw1 & new & -> & HP1 & Hnew).
  destruct c as [a|err|].
  - destruct (Hk a lw1 (l ++ new) HP1) as (c' & lw2 & new' & -> & HP2 & Hnew').
    exists c', lw2, (new ++ new'). rewrite app_assoc.
    split; [reflexivity|]. split; [exact HP2|]. apply Forall_app. auto.
  - exists (Abrupt err), lw1, new. auto.
  - exists Unfinished, lw1, new. auto.
Qed.

(** The three checks that do not look at the baseline. *)
Hypothesis Q_other :
  forall a, type a <> positioning -> type a <> sizing -> Q (EvOnAnomaly a).

Lemma emits_checkOverflowAnomaly (w : World) (dom : DOM) (el : Element)
    (rect : DOMRect) (style : CSSStyleDeclaration) :
  emits (checkOverflowAnomaly w dom el rect style).
Proof.
  unfold checkOverflowAnomaly.
  destruct (_ || _); [|apply emits_ret].
  destruct (parentElement _); [|apply emits_ret].
  destruct (_ || _); [|apply emits_ret].
  apply emits_reportAnomaly, Q_other; discriminate.
Qed.

Lemma emits_checkClippingAnomaly (w : World) (el : Element) (rect : DOMRect)
    (style : CSSStyleDeclaration) :
  emits (checkClippingAnomaly w el rect style).
Proof.
  unfold checkClippingAnomaly.
  destruct (_ || _); [|apply emits_ret].
  destruct (_ || _); [|apply emits_ret].
  apply emits_reportAnomaly, Q_other; discriminate.
Qed.

Lemma emits_checkVisibilityAnomaly (w : World) (dom : DOM) (el : Element)
    (style : CSSStyleDeclaration) :
  emits (checkVisibilityAnomaly w dom el style).
Proof.
  unfold checkVisibilityAnomaly.
  destruct (_ || _); [|apply emits_ret].
  destruct (_ || _); [|apply emits_ret].
  apply emits_reportAnomaly, Q_other; discriminate.
Qed.

End Emits.

(** The two checks against the baseline leave the fields alone too. *)
Lemma any_checkPositioningAnomaly (w : World) (dom : DOM) (el : Element)
    (rect : DOMRect) (baseline : option DOMRect) :
  emits (fun _ => True) (fun _ => True)
    (checkPositioningAnomaly w dom el rect baseline).
Proof.
  unfold checkPositioningAnomaly.
  destruct baseline as [b|]; [|apply emits_ret].
  apply emits_bind; [apply emits_get|intros lw].
  destruct (_ || _); [|apply emits_ret].
  destruct (gt _ _); [|apply emits_ret].
  apply emits_reportAnomaly. exact I.
Qed.

Lemma any_checkSizingAnomaly (w : World) (el : Element) (rect : DOMRect)
    (baseline : option DOMRect) :
  emits (fun _ => True) (fun _ => True)
    (checkSizingAnomaly w el rect baseline).
Proof.
  unfold checkSizingAnomaly.
  destruct baseline as [b|]; [|apply emits_ret].
  apply emits_bind; [apply emits_get|intros lw].
  destruct (_ || _); [|apply emits_ret].
  apply emits_reportAnomaly. exact I.
Qed.

(** The thresholds a watcher was configured with are not negative. *)
Definition sane (lw : LayoutWatcher) : Prop :=
  non_negative (threshold_overflow (thresholds (config lw)))
  /\ non_negative (threshold_positioning (thresholds (config lw))).

(** Against a baseline equal to the current box, the positioning check
    reports nothing. *)
Lemma still_checkPositioningAnomaly (Q : Event -> Prop) (w : World)
    (dom : DOM) (el : Element) (rect : DOMRect) :
  emits Q sane (checkPositioningAnomaly w dom el rect (Some rect)).
Proof.
  intros lw l [_ Hpos]. unfold checkPositioningAnomaly. eff.
  exists (Normal tt), []. rewrite app_nil_r. split; [|constructor].
  destruct (_ || _); [|reflexivity].
  unfold gt. rewrite nil_not_above_scaled; [reflexivity|exact Hpos|].
  apply nil_pos_nil, sqrt_nil_pos, add_nil_pos;
    apply mul_nil_pos; apply abs_nil_pos, nil_pos_nil, sub_diag_nil.
Qed.

(** Against a baseline equal to the current box, the sizing check reports
    nothing. *)
Lemma still_checkSizingAnomaly (Q : Event -> Prop) (w : World)
    (el : Element) (rect : DOMRect) :
  emits Q sane (checkSizingAnomaly w el rect (Some rect)).
Proof.
  intros lw l [Hov _]. unfold checkSizingAnomaly. eff.
  exists (Normal tt), []. rewrite app_nil_r. split; [|constructor].
  unfold gt.
  rewrite !nil_not_above; try exact Hov; try apply relative_change_nil.
  reflexivity.
Qed.


(** A check that returns leaves the configuration as it was and the
    element's baseline at its current box - or without a baseline, if the
    element is no longer in the document. *)
Lemma check_records_baseline (w : World) (dom : DOM) (el : Element)
    (lw lw1 : LayoutWatcher) (l l1 : list Event) :
  checkElementForAnomalies w dom el lw l = (Normal tt, lw1, l1) ->
  config lw1 = config lw
  /\ baselineMetrics lw1 !! el =
       if contained (view dom el)
       then Some (boundingClientRect (view dom el))
       else None.
Proof.
  unfold checkElementForAnomalies.
  destruct (contained (view dom el)); simpl.
  - unfold bind at 1, get at 1.
    set (Q := fun _ : Event => True). set (P := fun _ : LayoutWatcher => True).
    assert (HQ : forall a, type a <> positioning -> type a <> sizing ->
                           Q (EvOnAnomaly a)) by (intros; exact I).
    intros H.
    apply (emits_bind_inv Q P) in H as (_ & ? & _ & H);
      [|apply emits_checkOverflowAnomaly; exact HQ|exact I].
    apply (emits_bind_inv Q P) in H as (_ & ? & _ & H);
      [|apply emits_checkClippingAnomaly; exact HQ|exact I].
    apply (emits_bind_inv Q P) in H as (_ & ? & _ & H);
      [|apply any_checkPositioningAnomaly|exact I].
    apply (emits_bind_inv Q P) in H as (_ & ? & _ & H);
      [|apply any_checkSizingAnomaly|exact I].
    apply (emits_bind_inv Q P) in H as (_ & ? & _ & H);
      [|apply emits_checkVisibilityAnomaly; exact HQ|exact I].
    unfold modify in H. injection H as <- _. simpl.
    split; [reflexivity|]. apply lookup_insert_eq.
  - unfold modify. intros [= <- _]. simpl.
    split; [reflexivity|]. apply lookup_delete_eq.
Qed.

Definition no_drift (el : Element) (ev : Event) : Prop :=
  is_drift_anomaly el ev = false.

Lemma no_drift_other (el : Element) (a : LayoutAnomaly) :
  type a <> positioning -> type a <> sizing -> no_drift el (EvOnAnomaly a).
Proof.
  intros H1 H2. unfold no_drift. simpl.
  destruct (type a); try contradiction; apply andb_false_r.
Qed.

(** A check of an element whose baseline is absent or equal to its current
    box reports no positioning and no sizing anomaly about it. *)
Lemma check_still (w : World) (dom : DOM) (el : Element) (lw : LayoutWatcher)
    (l : list Event) :
  sane lw ->
  baselineMetrics lw !! el = None
  \/ baselineMetrics lw !! el = Some (boundingClientRect (view dom el)) ->
  exists c lw' new,
    checkElementForAnomalies w dom el lw l = (c, lw', l ++ new)
    /\ Forall (no_drift el) new.
Proof.
  intros Hs Hb. unfold checkElementForAnomalies.
  destruct (contained (view dom el)); simpl.
  - unfold bind at 1, get at 1.
    set (rect := boundingClientRect (view dom el)) in *.
    assert (Hlogs : forall baseline,
              baseline = None \/ baseline = Some rect ->
              logs (no_drift el) sane
                (bind (checkOverflowAnomaly w dom el rect
                         (computedStyle (view dom el))) (fun _ =>
                 bind (checkClippingAnomaly w el rect
                         (computedStyle (view dom el))) (fun _ =>
                 bind (checkPositioningAnomaly w dom el rect baseline) (fun _ =>
                 bind (checkSizingAnomaly w el rect baseline) (fun _ =>
                 bind (checkVisibilityAnomaly w dom el
                         (computedStyle (view dom el))) (fun _ =>
                 modify (on_baselineMetrics (insert el rect))))))))).
    { intros baseline Hbase.
      apply logs_bind; [apply emits_logs, emits_checkOverflowAnomaly,
                          no_drift_other|intros _].
      apply logs_bind; [apply emits_logs, emits_checkClippingAnomaly,
                          no_drift_other|intros _].
      apply logs_bind; [apply emits_logs|intros _].
      { destruct Hbase as [-> | ->];
          [apply emits_ret|apply still_checkPositioningAnomaly]. }
      apply logs_bind; [apply emits_logs|intros _].
      { destruct Hbase as [-> | ->];
          [apply emits_ret|apply still_checkSizingAnomaly]. }
      apply logs_bind; [apply emits_logs, emits_checkVisibilityAnomaly,
                          no_drift_other|intros _].
      apply logs_modify. intros lw0 H0. exact H0. }
    destruct (Hlogs (baselineMetrics lw !! el) Hb lw l Hs)
      as (c & lw' & new & H & _ & Hnew).
    exists c, lw', new. auto.
  - exists (Normal tt), (on_baselineMetrics (delete el) lw), [].
    rewrite app_nil_r. split; [reflexivity|constructor].
Qed.

(** ** Sample inputs *)

Definition box (l t w h : float) : DOMRect :=
  {| left := l; top := t; right := l + w; bottom := t + h;
     width := w; height := h |}.

Definition style_absolute : CSSStyleDeclaration :=
  {| overflowX := "hidden"; overflowY := "hidden"; clipPath := "none";
     clip := "auto"; position := "absolute"; visibility := "visible";
     display := "block"; opacity := 1 |}.

(** A document in which every element has the box [r]. *)
Definition dom_with (r : DOMRect) : DOM :=
  {| view := fun _ =>
       {| contained := true; boundingClientRect := r;
          computedStyle := style_absolute; parentElement := None;
          textContent := Some (utf16 "Save"); children_length := 0 |};
     querySelectorAll := fun _ => Some [1] |}.

Definition config_default : LayoutWatcherConfig :=
  {| enabled := true; interval := 1000; selectors := ["button"];
     thresholds :=
       {| threshold_overflow := 0x1.999999999999ap-4;
          threshold_clipping := 0x1.999999999999ap-4;
          threshold_positioning := 0x1.999999999999ap-4 |};
     onAnomaly := "onAnomaly" |}.

Definition world_calm : World := {| onAnomaly_call := fun _ _ => None |}.

(** C7. Two consecutive checks of an element find it with the same bounding
    box, the first one returns, and the configured thresholds are not
    negative: then the second check reports no [sizing] and no
    [positioning] anomaly about that element. *)
Theorem unchanged_box_no_drift (w : World) (dom1 dom2 : DOM) (el : Element)
    (lw lw1 : LayoutWatcher) (l l1 : list Event) :
  non_negative (threshold_overflow (thresholds (config lw))) ->
  non_negative (threshold_positioning (thresholds (config lw))) ->
  boundingClientRect (view dom1 el) = boundingClientRect (view dom2 el) ->
  checkElementForAnomalies w dom1 el lw l = (Normal tt, lw1, l1) ->
  exists c lw2 new,
    checkElementForAnomalies w dom2 el lw1 l1 = (c, lw2, l1 ++ new)
    /\ Forall (fun ev => is_drift_anomaly el ev = false) new.
Proof.
  intros Hov Hpos Hrect H1.
  destruct (check_records_baseline w dom1 el lw lw1 l l1 H1) as [Hcfg Hb].
  apply check_still.
  - unfold sane. rewrite Hcfg. split; assumption.
  - rewrite Hb, Hrect. destruct (contained (view dom1 el)); auto.
Qed.

Lemma unchanged_box_no_drift_witness :
  exists c lw2 new,
    checkElementForAnomalies world_calm (dom_with (box 40 80 120 32)) 1
      (on_baselineMetrics (insert 1 (box 40 80 120 32))
         (on_baselineMetrics (insert 1 (box 0 0 60 32))
            (constructor config_default)))
      [EvOnAnomaly {| type := positioning; element := 1; severity := high;
                      boundingRect := Some (box 40 80 120 32) |};
       EvOnAnomaly {| type := sizing; element := 1; severity := low;
                      boundingRect := Some (box 40 80 120 32) |}]
    = (c, lw2,
       [EvOnAnomaly {| type := positioning; element := 1; severity := high;
                       boundingRect := Some (box 40 80 120 32) |};
        EvOnAnomaly {| type := sizing; element := 1; severity := low;
                       boundingRect := Some (box 40 80 120 32) |}] ++ new)
    /\ Forall (fun ev => is_drift_anomaly 1 ev = false) new.
Proof.
  apply (unchanged_box_no_drift world_calm
           (dom_with (box 40 80 120 32)) (dom_with (box 40 80 120 32)) 1
           (on_baselineMetrics (insert 1 (box 0 0 60 32))
              (constructor config_default))
           _ []);
    reflexivity.
Defined.

End LayoutWatcherFacts.

(** * More about the reporter: delivery, batching, timers *)
Module ReporterDelivery.
Import Reporter ReporterFacts ReporterHost.

Lemma delivered_app (w : World) (l a b : list Event) :
  delivered w l (a ++ b) = delivered w l a ++ delivered w (l ++ a) b.
Proof.
  revert l. induction a as [|ev a IH]; intros l; simpl.
  - rewrite app_nil_r. reflexivity.
  - rewrite IH, <- !app_assoc. reflexivity.
Qed.

(** A flush either does nothing, or sends the whole queue in one request;
    what the collector accepted has left the queue, what it did not is
    back in it. *)
Lemma flush_conserves (w : World) (r : Reporter) (l : list Event) :
  exists r' new,
    flush w r l = (Normal tt, r', l ++ new)
    /\ config r' = config r
    /\ flushTimer r' = flushTimer r
    /\ armed new = 0%Z
    /\ queue r = delivered w l new ++ queue r'.
Proof.
  unfold flush, await_fetch. eff.
  destruct (_ || _) eqn:Hg.
  { exists r, []. rewrite app_nil_r. auto. }
  set (req := mk_request _ _ _).
  destruct (network w l req) as [err|[|] st] eqn:Hn; simpl.
  - rewrite requeue_spec. simpl.
    eexists _, [_; _]. rewrite <- app_assoc. split; [reflexivity|].
    simpl. rewrite Hn, !app_nil_r. done.
  - eexists _, [_]. split; [reflexivity|]. simpl. rewrite Hn.
    subst req. simpl. rewrite !app_nil_r. done.
  - rewrite requeue_spec. simpl.
    eexists _, [_; _]. rewrite <- app_assoc. split; [reflexivity|].
    simpl. rewrite Hn, !app_nil_r. done.
Qed.

Lemma report_conserves (w : World) (error : GuardianError) (r : Reporter)
    (l : list Event) :
  exists r' new,
    report w error r l = (Normal tt, r', l ++ new)
    /\ config r' = config r
    /\ flushTimer r' = flushTimer r
    /\ armed new = 0%Z
    /\ queue r ++ accepted r [CallReport error] =
         delivered w l new ++ queue r'.
Proof.
  unfold accepted.
  destruct (truthy_bool (enabled (config r))) eqn:He.
  - destruct (customReporter (config r)) as [cb|] eqn:Hc.
    + rewrite (report_with_customReporter w r l error cb He Hc).
      eexists _, _. split; [reflexivity|].
      destruct (sink w l cb error); done.
    + unfold report. eff. rewrite He, Hc. simpl.
      destruct (_ <=? _).
      * destruct (flush_conserves w (set_queue (queue r ++ [error]) r) l)
          as (r' & new & -> & ? & ? & ? & ?).
        exists r', new. done.
      * eexists _, []. rewrite app_nil_r. done.
  - rewrite (report_disabled w r l error He).
    exists r, []. rewrite !app_nil_r. done.
Qed.

Lemma run_call_conserves (w : World) (c : Reporter.Call) (r : Reporter)
    (l : list Event) :
  exists r' new,
    Reporter.run_call w c r l = (Normal tt, r', l ++ new)
    /\ config r' = config r
    /\ queue r ++ accepted r [c] = delivered w l new ++ queue r'.
Proof.
  destruct c as [error| | |]; simpl.
  - destruct (report_conserves w error r l) as (r' & new & -> & ? & ? & ? & ?).
    exists r', new. done.
  - destruct (flush_conserves w r l) as (r' & new & -> & ? & ? & ? & ?).
    exists r', new. unfold accepted.
    destruct (truthy_bool _); rewrite app_nil_r; done.
  - unfold on_flush_timer. eff. unfold accepted.
    destruct (0 <? _).
    + destruct (flush_conserves w r l) as (r' & new & -> & ? & ? & ? & ?).
      exists r', new. destruct (truthy_bool _); rewrite app_nil_r; done.
    + exists r, []. destruct (truthy_bool _); rewrite !app_nil_r; done.
  - unfold stop. eff. unfold accepted.
    destruct (flushTimer r) as [t|]; simpl.
    + destruct (flush_conserves w (set_flushTimer None r)
                  (l ++ [EvClearInterval])) as (r' & new & -> & ? & ? & ? & Hq).
      exists r', (EvClearInterval :: new). rewrite <- app_assoc.
      split; [reflexivity|]. split; [done|]. simpl in *.
      destruct (truthy_bool _); rewrite app_nil_r; exact Hq.
    + destruct (flush_conserves w r l) as (r' & new & -> & ? & ? & ? & ?).
      exists r', new. destruct (truthy_bool _); rewrite app_nil_r; done.
Qed.

Lemma accepted_cons (r r' : Reporter) (c : Reporter.Call)
    (cs : list Reporter.Call) :
  config r' = config r ->
  accepted r (c :: cs) = accepted r [c] ++ accepted r' cs.
Proof.
  intros H. unfold accepted. rewrite H.
  destruct (truthy_bool _); [apply reported_cons|reflexivity].
Qed.

(** X1. Whatever the collector and the sink do, and whatever the
    configuration, a run of [report], [flush], timer and [stop] calls, each
    settled before the next, loses no record and sends none twice: what
    was queued before, followed by what [report] took in, is exactly what
    the collector accepted, in the order sent, followed by what is still
    queued. *)
Theorem no_record_lost_or_repeated (w : World) (cs : list Reporter.Call)
    (r : Reporter) (l : list Event) :
  exists r' new,
    Reporter.run_calls w cs r l = (Normal tt, r', l ++ new)
    /\ queue r ++ accepted r cs = delivered w l new ++ queue r'.
Proof.
  revert r l. induction cs as [|c cs IH]; intros r l.
  - exists r, []. unfold accepted. simpl.
    destruct (truthy_bool _); rewrite !app_nil_r; done.
  - destruct (run_call_conserves w c r l) as (r1 & new1 & H1 & Hc & Hq1).
    destruct (IH r1 (l ++ new1)) as (r2 & new2 & H2 & Hq2).
    exists r2, (new1 ++ new2). cbn [Reporter.run_calls]. unfold bind at 1.
    rewrite H1, H2, app_assoc. split; [reflexivity|].
    rewrite (accepted_cons r r1 c cs Hc), delivered_app.
    rewrite app_assoc, Hq1, <- !app_assoc, Hq2. reflexivity.
Qed.


Definition sends_nothing_more (rest : list Event) : Prop :=
  Forall (fun ev => is_fetch ev = false) rest.

(** X2. On an enabled reporter with an endpoint and no custom sink,
    [report] sends nothing while the queue, the new record included, is
    shorter than the batch size ([batchSize], or 10 when it is unset or 0);
    the report that fills the batch sends one request, carrying the whole
    queue with the new record last, and leaves the queue empty when the
    collector accepts it and as it was, new record included, when not. *)
Theorem report_sends_full_batches (w : World) (r : Reporter)
    (l : list Event) (error : GuardianError) :
  truthy_bool (enabled (config r)) = true ->
  customReporter (config r) = None ->
  truthy_string (endpoint (config r)) = true ->
  let limit := or_default (batchSize (config r)) 10 in
  let req :=
    mk_request (config r) (default "" (endpoint (config r)))
      (queue r ++ [error]) in
  (length (queue r) + 1 < limit ->
   report w error r l = (Normal tt, set_queue (queue r ++ [error]) r, l))
  /\ (limit <= length (queue r) + 1 ->
      exists rest,
        report w error r l =
          (Normal tt,
           set_queue
             match network w l req with
             | FetchResponds true _ => []
             | _ => queue r ++ [error]
             end r,
           l ++ EvFetch req :: rest)
        /\ sends_nothing_more rest).
Proof.
  intros He Hc Hn limit req. unfold report. eff. rewrite He, Hc. simpl.
  rewrite length_app. simpl. fold limit. split; intros Hlen.
  - apply Nat.leb_gt in Hlen. rewrite Hlen. reflexivity.
  - apply Nat.leb_le in Hlen. rewrite Hlen.
    unfold flush, await_fetch. eff. simpl. rewrite Hn.
    rewrite length_app. simpl.
    replace (length (queue r) + 1 =? 0) with false
      by (symmetry; apply Nat.eqb_neq; lia).
    simpl. fold req.
    destruct (network w l req) as [err|[|] st]; simpl.
    + rewrite requeue_spec. simpl. rewrite app_nil_r.
      exists [EvConsoleError "Failed to report errors:"].
      rewrite <- app_assoc. split; [reflexivity|]. repeat constructor.
    + exists []. split; [reflexivity|]. constructor.
    + rewrite requeue_spec. simpl. rewrite app_nil_r.
      exists [EvConsoleError "Failed to report errors:"].
      rewrite <- app_assoc. split; [reflexivity|]. repeat constructor.
Qed.

Lemma report_sends_full_batches_witness :
  let r := set_queue (sample_errors 9) (reporter_of config_endpoint) in
  let limit := or_default (batchSize (config r)) 10 in
  let req :=
    mk_request (config r) (default "" (endpoint (config r)))
      (queue r ++ [sample_error 9]) in
  (length (queue r) + 1 < limit ->
   report world_up (sample_error 9) r [] =
     (Normal tt, set_queue (queue r ++ [sample_error 9]) r, []))
  /\ (limit <= length (queue r) + 1 ->
      exists rest,
        report world_up (sample_error 9) r [] =
          (Normal tt,
           set_queue
             match network world_up [] req with
             | FetchResponds true _ => []
             | _ => queue r ++ [sample_error 9]
             end r,
           [] ++ EvFetch req :: rest)
        /\ sends_nothing_more rest).
Proof.
  apply (report_sends_full_batches world_up
           (set_queue (sample_errors 9) (reporter_of config_endpoint)) []
           (sample_error 9)); reflexivity.
Defined.

Lemma armed_app (l1 l2 : list Event) : armed (l1 ++ l2) = (armed l1 + armed l2)%Z.
Proof.
  induction l1 as [|ev l1 IH]; simpl; [reflexivity|].
  destruct ev; rewrite ?IH; lia.
Qed.

Definition indicator (r : Reporter) : Z :=
  match flushTimer r with
  | Some _ => 1
  | None => 0
  end.

Lemma startFlushTimer_armed (r : Reporter) (l : list Event) :
  exists r' new,
    startFlushTimer r l = (Normal tt, r', l ++ new)
    /\ (armed new = indicator r' - indicator r)%Z.
Proof.
  unfold startFlushTimer, indicator. eff.
  destruct (flushTimer r); simpl.
  - eexists _, [_; _]. rewrite <- app_assoc. split; [reflexivity|]. reflexivity.
  - eexists _, [_]. split; reflexivity.
Qed.

Lemma host_call_armed (w : World) (c : ReporterHost.Call) (r : Reporter)
    (l : list Event) :
  exists r' new,
    ReporterHost.run_call w c r l = (Normal tt, r', l ++ new)
    /\ (armed new = indicator r' - indicator r)%Z.
Proof.
  destruct c as [[error| | |]|newConfig|]; simpl.
  - destruct (report_conserves w error r l)
      as (r' & new & -> & _ & Ht & Ha & _).
    exists r', new. unfold indicator. rewrite Ht, Ha. split; [done|lia].
  - destruct (flush_conserves w r l) as (r' & new & -> & _ & Ht & Ha & _).
    exists r', new. unfold indicator. rewrite Ht, Ha. split; [done|lia].
  - unfold on_flush_timer. eff. destruct (0 <? _).
    + destruct (flush_conserves w r l) as (r' & new & -> & _ & Ht & Ha & _).
      exists r', new. unfold indicator. rewrite Ht, Ha. split; [done|lia].
    + exists r, []. rewrite app_nil_r. split; [done|]. simpl. lia.
  - unfold stop. eff. destruct (flushTimer r) as [t|] eqn:Hr; simpl.
    + destruct (flush_conserves w (set_flushTimer None r)
                  (l ++ [EvClearInterval]))
        as (r' & new & -> & _ & Ht & Ha & _).
      exists r', (EvClearInterval :: new). rewrite <- app_assoc.
      split; [reflexivity|]. unfold indicator. simpl in *.
      rewrite Ht, Hr, Ha. reflexivity.
    + destruct (flush_conserves w r l) as (r' & new & -> & _ & Ht & Ha & _).
      exists r', new. unfold indicator. rewrite Ht, Ha. split; [done|lia].
  - unfold updateConfig. eff. cbv beta.
    set (r1 := set_config _ r).
    destruct (truthy_bool (enabled (config r1))).
    + destruct (startFlushTimer_armed r1 l) as (r' & new & -> & Ha).
      exists r', new. split; [done|]. exact Ha.
    + unfold indicator. subst r1. destruct r as [c0 q0 [t0|]]; simpl.
      * eexists _, [_]. split; reflexivity.
      * eexists _, []. rewrite app_nil_r. split; reflexivity.
  - unfold clearQueue. eff. eexists _, []. rewrite app_nil_r.
    split; [reflexivity|]. unfold indicator. simpl. lia.
Qed.

(** X3. From [new Reporter(config)] on, through any run of [report],
    [flush], timer, [stop], [updateConfig] and [clearQueue] calls, the
    reporter never has more than one interval timer armed: the timers set
    and not yet cleared are exactly the one [flushTimer] holds, if it
    holds one. *)
Theorem flush_timer_never_leaks (w : World)
    (c : option ReporterConfigLiteral)
    (cs : list ReporterHost.Call) :
  exists r l,
    ReporterHost.run_calls w cs (constructor c).1 (constructor c).2 =
      (Normal tt, r, l)
    /\ armed l = match flushTimer r with Some _ => 1%Z | None => 0%Z end.
Proof.
  assert (Hrun : forall cs r l,
            exists r' new,
              ReporterHost.run_calls w cs r l = (Normal tt, r', l ++ new)
              /\ (armed new = indicator r' - indicator r)%Z).
  { clear cs. induction cs as [|c0 cs IH]; intros r l.
    - exists r, []. rewrite app_nil_r. split; [done|]. simpl. lia.
    - destruct (host_call_armed w c0 r l) as (r1 & new1 & H1 & Ha1).
      destruct (IH r1 (l ++ new1)) as (r2 & new2 & H2 & Ha2).
      exists r2, (new1 ++ new2). cbn [ReporterHost.run_calls].
      unfold bind at 1. rewrite H1, H2, app_assoc. split; [done|].
      rewrite armed_app. lia. }
  assert (H0 : armed (constructor c).2 = indicator (constructor c).1).
  { unfold constructor. cbv zeta.
    destruct (truthy_bool _); [|reflexivity].
    match goal with
    | |- context [startFlushTimer ?r ?l] =>
        destruct (startFlushTimer_armed r l) as (r' & new & -> & Ha)
    end.
    simpl in *. rewrite Ha. unfold indicator. simpl. lia. }
  destruct (Hrun cs (constructor c).1 (constructor c).2)
    as (r & new & H & Ha).
  exists r, ((constructor c).2 ++ new). split; [exact H|].
  rewrite armed_app, H0, Ha. fold (indicator r). lia.
Qed.

End ReporterDelivery.

(** * More about the recovery engine: suggestions and how they execute *)
Module RecoverySuggestionsFacts.
Import RecoveryEngine RecoveryEngineFacts RecoverySuggestions.

Example includes_examples :
  includes "Failed to fetch" "fetch" = true
  /\ includes "HTTP 401" "401" = true
  /\ includes "fetc" "fetch" = false
  /\ includes "" "" = true
  /\ includes "Loading CSS chunk 3 failed" "Loading chunk" = false.
Proof. repeat split. Qed.

(** [includes] is the substring test: a non-empty pattern is included
    exactly when it is the substring at some position. *)
Lemma includes_spec (s pattern : string) :
  pattern <> "" ->
  includes s pattern = true
  <-> exists m, substring m (String.length pattern) s = pattern.
Proof.
  intros Hp. unfold includes.
  destruct (String.index 0 pattern s) as [m|] eqn:Hi.
  - split; [intros _|reflexivity]. exists m.
    exact (index_correct1 0 m pattern s Hi).
  - split; [discriminate|]. intros [m Hm]. exfalso.
    apply (index_correct3 0 m pattern s Hi Hp); [lia|exact Hm].
Qed.

(** What a well-formed suggestion looks like. *)
Definition well_formed (e : Engine) (a : Action.t) : Prop :=
  Action.retryCount a = None
  /\ Action.customAction a = None
  /\ match Action.strategy a with
     | retry =>
         exists budget,
           Action.maxRetries a = Some budget /\ (1 <= budget <= 3)%N
     | fallback =>
         Action.fallbackComponent a = Config.fallbackComponent (config e)
     | reload => True
     | redirect =>
         Action.redirectUrl a = Some "/login"
         \/ Action.redirectUrl a = Some "/unauthorized"
     | custom | unknown _ => False
     end.

Lemma well_formed_retry (e : Engine) (n : N) :
  (1 <= n <= 3)%N -> well_formed e (suggest_retry n).
Proof. intros H. repeat split. exists n. auto. Qed.

Lemma well_formed_fallback (e : Engine) : well_formed e (suggest_fallback e).
Proof. repeat split. Qed.

Lemma well_formed_reload (e : Engine) : well_formed e suggest_reload.
Proof. repeat split. Qed.

Lemma well_formed_redirect (e : Engine) (href : string) :
  href = "/login" \/ href = "/unauthorized" ->
  well_formed e (suggest_redirect href).
Proof. intros [-> | ->]; repeat split; simpl; auto. Qed.

Lemma Forall_push_if (P : Action.t -> Prop) (test : bool)
    (more l : list Action.t) :
  Forall P more -> Forall P l -> Forall P (push_if test more l).
Proof.
  intros Hm Hl. unfold push_if. destruct test; [|exact Hl].
  apply Forall_app. auto.
Qed.

(** The first suggestion of a list built by pushes. *)
Definition leads (l : list Action.t) : Prop :=
  match l with
  | [] => True
  | a :: _ => Action.strategy a <> fallback
  end.

Lemma leads_push_if (test : bool) (more l : list Action.t) :
  leads more -> leads l -> leads (push_if test more l).
Proof.
  intros Hm Hl. unfold push_if. destruct test; [|exact Hl].
  destruct l; [exact Hm|exact Hl].
Qed.

(** X4. Whatever the error, [getSmartRecoverySuggestions] returns at least
    one suggestion, and the first one is never a fallback.  Every
    suggestion is a retry with a budget of 1, 2 or 3, a fallback to the
    configured fallback component, a reload, or a redirect to [/login] or
    [/unauthorized]; none is a custom action and none carries a retry
    count. *)
Theorem suggestions_well_formed (e : Engine) (error : Error) :
  getSmartRecoverySuggestions e error <> []
  /\ leads (getSmartRecoverySuggestions e error)
  /\ Forall (well_formed e) (getSmartRecoverySuggestions e error).
Proof.
  unfold getSmartRecoverySuggestions. cbv zeta. split; [|split].
  - match goal with
    | |- push_if _ _ ?l <> [] => destruct l eqn:Hl
    end; simpl; discriminate.
  - repeat (apply leads_push_if; [simpl; discriminate|]). exact I.
  - repeat (apply Forall_push_if;
            [repeat constructor;
             first [ apply well_formed_retry; lia
                   | apply well_formed_fallback
                   | apply well_formed_reload
                   | apply well_formed_redirect; auto ]|]).
    constructor.
Qed.


(** Whether executing [a] can succeed: a fallback needs a configured
    fallback component, everything else suggested goes through. *)
Definition can_succeed (e : Engine) (a : Action.t) : bool :=
  match Action.strategy a, Config.fallbackComponent (config e) with
  | fallback, None => false
  | _, _ => true
  end.

(** X5. Executing any suggestion of [getSmartRecoverySuggestions] on the
    enabled, idle engine that made it, when the recovery-started callback
    returns and the browser accepts reloads and navigations, succeeds -
    unless it is a fallback and no fallback component is configured, in
    which case it fails.  On success the engine is idle again with its
    retry counter at 0, and a suggested retry has waited exactly 1000 ms. *)
Theorem suggestions_execute (fuel : nat) (w : World) (e : Engine)
    (error : Error) (a : Action.t) (l : list Event) :
  a ∈ getSmartRecoverySuggestions e error ->
  Config.enabled (config e) = true ->
  isRecovering e = false ->
  onRecovery_call w l a = None ->
  reload_call w (l ++ [EvOnRecovery a]) = None ->
  (forall href, navigate_call w (l ++ [EvOnRecovery a]) href = None) ->
  exists e' new,
    execute (S (S fuel)) w a e l =
      (Normal (can_succeed e a), e', l ++ EvOnRecovery a :: new)
    /\ (can_succeed e a = true -> e' = set_retryCount 0 e)
    /\ (Action.strategy a = retry -> new = [EvDelay 1000]).
Proof.
  intros Hin He Hi Hcb Hreload Hnav.
  destruct (suggestions_well_formed e error) as (_ & _ & Hwf).
  rewrite Forall_forall in Hwf. specialize (Hwf a Hin).
  destruct Hwf as (Hcount & Hcustom & Hshape).
  assert (Hexec : forall b new,
            performRecovery w a (set_isRecovering true e)
              (l ++ [EvOnRecovery a]) =
              (Normal b, set_isRecovering true e,
               (l ++ [EvOnRecovery a]) ++ new) ->
            b = can_succeed e a ->
            (Action.strategy a = retry -> new = [EvDelay 1000]) ->
            exists e' new,
              execute (S (S fuel)) w a e l =
                (Normal (can_succeed e a), e', l ++ EvOnRecovery a :: new)
              /\ (can_succeed e a = true -> e' = set_retryCount 0 e)
              /\ (Action.strategy a = retry -> new = [EvDelay 1000])).
  { intros b new Hp Hb Hnew.
    rewrite (execute_idle fuel w a e l _ b He Hi Hcb Hp).
    rewrite <- app_assoc. subst b.
    destruct (can_succeed e a).
    - exists (set_retryCount 0 e), new. auto.
    - destruct (_ <? _)%N; eexists _, new;
        (split; [reflexivity|]); (split; [discriminate|exact Hnew]). }
  unfold can_succeed in *. unfold performRecovery in Hexec.
  destruct (Action.strategy a) eqn:Hs; try contradiction.
  - destruct Hshape as (budget & Hmax & Hb1 & _).
    apply (Hexec true [EvDelay 1000]);
      [|reflexivity|reflexivity].
    clear Hexec. unfold handleRetry, delay. eff_ext. rewrite Hcount, Hmax. simpl.
    destruct budget as [|p]; [lia|]. reflexivity.
  - destruct (Config.fallbackComponent (config e)) eqn:Hf;
      [apply (Hexec true [])|apply (Hexec false [])];
      try reflexivity; try discriminate;
      unfold handleFallback, bind, get, try_catch, ret; simpl;
      rewrite Hshape, ?Hf, app_nil_r; reflexivity.
  - apply (Hexec true [EvReload]);
      [|reflexivity|discriminate].
    clear Hexec. unfold handleReload. eff_ext. rewrite Hreload. reflexivity.
  - assert (Hurl : exists href,
              Action.redirectUrl a = Some href /\ truthy_string (Some href) = true).
    { destruct Hshape as [-> | ->]; eexists; split; reflexivity. }
    destruct Hurl as (href & Hurl & Htruthy).
    apply (Hexec true [EvNavigate href]);
      [|reflexivity|discriminate].
    clear Hexec. unfold handleRedirect. eff_ext. rewrite Hurl, Htruthy. simpl.
    rewrite Hnav. reflexivity.
Qed.

Definition sample_engine : Engine := constructor config_two.

Definition sample_error : Error :=
  {| name := "Error"; message := "HTTP 401 Unauthorized" |}.

Lemma suggestions_execute_witness :
  exists e' new,
    execute 2 world_calm (suggest_redirect "/login") sample_engine [] =
      (Normal (can_succeed sample_engine (suggest_redirect "/login")), e',
       [] ++ EvOnRecovery (suggest_redirect "/login") :: new)
    /\ (can_succeed sample_engine (suggest_redirect "/login") = true ->
        e' = set_retryCount 0 sample_engine)
    /\ (Action.strategy (suggest_redirect "/login") = retry ->
        new = [EvDelay 1000]).
Proof.
  apply (suggestions_execute 0 world_calm sample_engine sample_error
           (suggest_redirect "/login") []); try reflexivity.
  apply list_elem_of_singleton. reflexivity.
Defined.


(** X6. Whatever the action and whatever the browser and a custom
    procedure do - throw included - [execute] itself does not throw as long
    as the recovery-started callback returns: it answers true or false.
    It answers true only with the engine idle and the retry counter back
    at 0, and it never touches the configuration. *)
Theorem execute_contains_failures (fuel : nat) (w : World) (a : Action.t)
    (e : Engine) (l : list Event) :
  onRecovery_call w l a = None ->
  exists (b : bool) e' l',
    execute (S (S fuel)) w a e l = (Normal b, e', l')
    /\ config e' = config e
    /\ (b = true -> isRecovering e' = false /\ retryCount e' = 0%N).
Proof.
  intros Hcb.
  destruct (negb (Config.enabled (config e)) || isRecovering e) eqn:Hg.
  { rewrite (execute_guard _ w a e l Hg). exists false, e, l.
    split; [reflexivity|]. split; [reflexivity|discriminate]. }
  apply orb_false_iff in Hg as [He Hi]. apply negb_false_iff in He.
  destruct (performRecovery_pure w a (set_isRecovering true e)
              (l ++ [EvOnRecovery a])) as (b & new & Hp & _).
  rewrite (execute_idle fuel w a e l _ b He Hi Hcb Hp).
  destruct b.
  - eexists true, _, _. split; [reflexivity|]. split; [reflexivity|].
    intros _. split; [exact Hi|reflexivity].
  - destruct (_ <? _)%N; eexists false, _, _;
      (split; [reflexivity|]); (split; [reflexivity|discriminate]).
Qed.

Lemma execute_contains_failures_witness :
  exists (b : bool) e' l',
    execute 2 world_calm (action_of custom None) sample_engine [] =
      (Normal b, e', l')
    /\ config e' = config sample_engine
    /\ (b = true -> isRecovering e' = false /\ retryCount e' = 0%N).
Proof.
  apply (execute_contains_failures 0 world_calm (action_of custom None)
           sample_engine []).
  reflexivity.
Defined.

(** X7. When the recovery-started callback throws on an enabled, idle
    engine, [execute] throws the same error before any strategy runs, and
    has already raised the recovering flag, which nothing lowers: from
    then on every [execute] is refused and returns false. *)
Theorem throwing_callback_wedges (fuel : nat) (w : World) (a : Action.t)
    (e : Engine) (l : list Event) (err : string) :
  Config.enabled (config e) = true ->
  isRecovering e = false ->
  onRecovery_call w l a = Some err ->
  execute (S fuel) w a e l =
    (Abrupt err, set_isRecovering true e, l ++ [EvOnRecovery a])
  /\ forall fuel' w' a' l',
       execute (S fuel') w' a' (set_isRecovering true e) l' =
         (Normal false, set_isRecovering true e, l').
Proof.
  intros He Hi Hcb. split.
  - cbn [execute]. eff_ext. rewrite He, Hi. cbn [negb orb]. cbv beta.
    rewrite Hcb. reflexivity.
  - intros fuel' w' a' l'. apply execute_guard. apply orb_true_r.
Qed.

Definition world_throwing_callback : World :=
  {| onRecovery_call := fun _ _ => Some "onRecovery failed";
     reload_call := fun _ => None;
     navigate_call := fun _ _ => None;
     customAction_call := fun _ _ => None |}.

Lemma throwing_callback_wedges_witness :
  execute 1 world_throwing_callback (action_of reload None) sample_engine [] =
    (Abrupt "onRecovery failed", set_isRecovering true sample_engine,
     [] ++ [EvOnRecovery (action_of reload None)])
  /\ forall fuel' w' a' l',
       execute (S fuel') w' a' (set_isRecovering true sample_engine) l' =
         (Normal false, set_isRecovering true sample_engine, l').
Proof.
  apply (throwing_callback_wedges 0 world_throwing_callback
           (action_of reload None) sample_engine [] "onRecovery failed");
    reflexivity.
Defined.

(** The engine [e] with another list of supported strategies. *)
Definition with_strategies (ss : list RecoveryStrategy) (e : Engine)
    : Engine :=
  {| config :=
       {| Config.enabled := Config.enabled (config e);
          Config.strategies := ss;
          Config.maxRetries := Config.maxRetries (config e);
          Config.fallbackComponent := Config.fallbackComponent (config e);
          Config.onRecovery := Config.onRecovery (config e) |};
     retryCount := retryCount e;
     isRecovering := isRecovering e |}.

(** The same outcome, on the engine with another list. *)
Definition on_engine {A : Type} (f : Engine -> Engine)
    (run : Completion A * Engine * list Event)
    : Completion A * Engine * list Event :=
  (run.1.1, f run.1.2, run.2).

Lemma performRecovery_ignores_strategies (w : World) (a : Action.t)
    (e : Engine) (l : list Event) (ss : list RecoveryStrategy) :
  performRecovery w a (with_strategies ss e) l =
    on_engine (with_strategies ss) (performRecovery w a e l).
Proof.
  unfold performRecovery, handleRetry, handleFallback, handleReload,
    handleRedirect, handleCustom, delay, on_engine.
  destruct (Action.strategy a); eff_ext; simpl.
  - destruct (_ <=? _)%N; reflexivity.
  - destruct (Action.fallbackComponent a),
      (Config.fallbackComponent (config e)); reflexivity.
  - destruct (reload_call w l); reflexivity.
  - destruct (truthy_string (Action.redirectUrl a)); simpl;
      destruct (navigate_call w l _); reflexivity.
  - destruct (Action.customAction a) as [p|]; simpl;
      [destruct (customAction_call w l p)|]; reflexivity.
  - reflexivity.
Qed.

(** X25. [execute] never consults the configured list of strategies:
    engines that differ only in that list run every action alike, so a
    strategy for which [isStrategySupported] answers false - a reload on
    an engine configured for retries only, say - is carried out all the
    same. *)
Theorem execute_ignores_strategies (fuel : nat) (w : World) (a : Action.t)
    (e : Engine) (l : list Event) (ss : list RecoveryStrategy) :
  execute fuel w a (with_strategies ss e) l =
    on_engine (with_strategies ss) (execute fuel w a e l).
Proof.
  destruct fuel as [|fuel]; [reflexivity|].
  destruct (negb (Config.enabled (config e)) || isRecovering e) eqn:Hg.
  { rewrite !execute_guard by exact Hg. reflexivity. }
  pose proof (performRecovery_ignores_strategies w a
                (set_isRecovering true e) (l ++ [EvOnRecovery a]) ss) as Hss.
  destruct (performRecovery_pure w a (set_isRecovering true e)
              (l ++ [EvOnRecovery a])) as (b & new & Hp & _).
  rewrite Hp in Hss. unfold on_engine in Hss. cbn [fst snd] in Hss.
  assert (Hg' : negb (Config.enabled (config (with_strategies ss e)))
                || isRecovering (with_strategies ss e) = false) by exact Hg.
  cbn [execute]. eff_ext. rewrite Hg, Hg'. cbv beta.
  destruct (onRecovery_call w l a) as [err|]; [reflexivity|].
  change (set_isRecovering true (with_strategies ss e))
    with (with_strategies ss (set_isRecovering true e)).
  rewrite Hss, Hp. unfold on_engine. cbn [fst snd].
  destruct b; [reflexivity|]. cbv beta.
  change (Config.maxRetries
            (config (with_strategies ss (set_isRecovering true e))))
    with (Config.maxRetries (config (set_isRecovering true e))).
  change (retryCount (with_strategies ss (set_isRecovering true e)))
    with (retryCount (set_isRecovering true e)).
  destruct (_ <? _)%N; [|reflexivity].
  destruct fuel as [|fuel]; [reflexivity|].
  cbn [execute]. eff_ext. unfold set_retryCount, set_isRecovering. simpl.
  rewrite !orb_true_r. reflexivity.
Qed.

End RecoverySuggestionsFacts.

(** * More about the auto-correct engine *)
Module AutoCorrectMore.
Import AutoCorrect AutoCorrectFacts.

(** The test in the loop of [hasVisibleContent]. *)
Definition is_visible_text (el : Node) : bool :=
  negb (String.eqb (display el) "none")
  && negb (String.eqb (visibility el) "hidden")
  && negb (String.eqb (opacity el) "0")
  && has_non_space (textContent el).

Definition visible_texts (els : list Node) : nat :=
  length (filter (fun el => is_visible_text el = true) els).

Lemma hasVisibleContent_from_spec (found : nat) (els : list Node) :
  found <= 3 ->
  hasVisibleContent_from found els = true <-> 4 <= found + visible_texts els.
Proof.
  revert found. induction els as [|el els IH]; intros found Hf.
  - unfold visible_texts. simpl. split; [discriminate|lia].
  - cbn [hasVisibleContent_from]. fold (is_visible_text el).
    unfold visible_texts. rewrite filter_cons.
    destruct (is_visible_text el) eqn:Hv.
    + rewrite decide_True by reflexivity. cbn [length].
      fold (visible_texts els).
      destruct (3 <? S found) eqn:Hlt.
      * apply Nat.ltb_lt in Hlt. split; [lia|reflexivity].
      * apply Nat.ltb_ge in Hlt. rewrite IH by lia. lia.
    + rewrite decide_False by discriminate. fold (visible_texts els).
      apply IH. exact Hf.
Qed.

(** X8. [hasVisibleContent] answers true exactly when the document has at
    least four elements that are displayed, not hidden, not of opacity 0,
    and whose text is more than white space: stopping at the fourth one
    found loses nothing. *)
Theorem hasVisibleContent_counts (page : Page) :
  hasVisibleContent page = true <-> 4 <= visible_texts (all_elements page).
Proof.
  unfold hasVisibleContent. rewrite hasVisibleContent_from_spec by lia.
  reflexivity.
Qed.


Definition white_page_warning : Event :=
  EvConsoleWarn "White page detected - attempting auto-correction".

Definition restore_action : AutoCorrectAction :=
  {| type := content_restore; element := None;
     description := "Restored content from history"; success := true |}.

(** What [handleWhitePage] logs after its warning when the newest snapshot
    is [snapshot]. *)
Definition restore_events (s : System) (snapshot : string) : list Event :=
  match snapshot with
  | EmptyString => []
  | _ =>
      EvSetBodyInnerHTML snapshot ::
      match onAutoCorrect (config (self s)) with
      | Some cb => [EvOnAutoCorrect cb restore_action]
      | None => []
      end
  end.

Lemma handleWhitePage_restores (w : World) (s : System) (l : list Event)
    (rest : list string) (snapshot : string) :
  contentHistory (self s) = rest ++ [snapshot] ->
  exists c,
    handleWhitePage w s l =
      (c, on_self (set_contentHistory rest) s,
       l ++ white_page_warning :: restore_events s snapshot).
Proof.
  intros Hh. unfold handleWhitePage, restoreFromHistory, pop_contentHistory,
    reportAutoCorrect, restore_events.
  assert (Hpos : (0 <? length (contentHistory (self s))) = true).
  { rewrite Hh, length_app. apply Nat.ltb_lt. simpl. lia. }
  eff. cbv beta. rewrite Hpos. cbv beta. rewrite Hpos. cbv beta.
  rewrite Hh, last_snoc, removelast_last.
  destruct snapshot as [|a snapshot]; simpl.
  - exists (Normal tt). reflexivity.
  - destruct (onAutoCorrect (config (self s))) as [cb|]; simpl.
    + destruct (onAutoCorrect_call w _ _);
        eexists; rewrite <- !app_assoc; reflexivity.
    + eexists. rewrite <- !app_assoc. reflexivity.
Qed.

(** X9. On a white page the engine reloads only when it has no snapshot:
    with an empty history it logs a warning and requests a reload, and
    that is all.  With snapshots it takes the newest one off the history,
    writes it into the body and reports a [content-restore] (an empty
    snapshot is taken off and dropped without either), and it requests no
    reload. *)
Theorem white_page_restores_or_reloads (w : World) (s : System)
    (l : list Event) :
  (contentHistory (self s) = [] ->
   handleWhitePage w s l = (Normal tt, s, l ++ [white_page_warning; EvReload]))
  /\ (forall rest snapshot,
        contentHistory (self s) = rest ++ [snapshot] ->
        (exists c,
           handleWhitePage w s l =
             (c, on_self (set_contentHistory rest) s,
              l ++ white_page_warning :: restore_events s snapshot))
        /\ EvReload ∉ restore_events s snapshot).
Proof.
  split.
  - intros Hh. unfold handleWhitePage, attemptPageReload. eff.
    rewrite Hh. simpl. rewrite <- app_assoc. reflexivity.
  - intros rest snapshot Hh. split.
    + apply handleWhitePage_restores. exact Hh.
    + unfold restore_events. destruct snapshot; [apply not_elem_of_nil|].
      destruct (onAutoCorrect _); intros Hin;
        repeat (apply elem_of_cons in Hin as [Hin|Hin]; [discriminate|]);
        apply elem_of_nil in Hin; exact Hin.
Qed.

Lemma saveContentSnapshot_config (page : Page) (s : System)
    (l : list Event) :
  config (self (saveContentSnapshot page s l).1.2) = config (self s).
Proof.
  unfold saveContentSnapshot. eff. simpl. destruct (5 <? _); reflexivity.
Qed.

(** X10. Taking a snapshot and then handling a white page is a round trip:
    the markup written back into the body is the markup that was saved,
    and the history is left as it was before the snapshot - less its
    oldest entry when it already held five. *)
Theorem snapshot_round_trip (w : World) (page : Page) (s : System)
    (l : list Event) :
  body_innerHTML page <> "" ->
  exists c s',
    bind (saveContentSnapshot page) (fun _ => handleWhitePage w) s l =
      (c, s',
       l ++ white_page_warning :: restore_events s (body_innerHTML page))
    /\ hd_error (restore_events s (body_innerHTML page)) =
         Some (EvSetBodyInnerHTML (body_innerHTML page))
    /\ contentHistory (self s') =
         if 5 <=? length (contentHistory (self s))
         then tail (contentHistory (self s))
         else contentHistory (self s).
Proof.
  intros Hb. unfold bind at 1.
  pose proof (saveContentSnapshot_config page s l) as Hcfg.
  destruct (saveContentSnapshot_spec page s l) as (s1 & Hs & Hbr & Hh).
  rewrite Hs in *. simpl in Hcfg.
  unfold history_of in Hh. cbv zeta in Hh. rewrite length_app in Hh.
  simpl in Hh.
  set (h := contentHistory (self s)) in *.
  assert (Hrest : contentHistory (self s1) =
                  (if 5 <=? length h then tail h else h)
                  ++ [body_innerHTML page]).
  { rewrite Hh. destruct (5 <? length h + 1) eqn:E.
    - apply Nat.ltb_lt in E.
      replace (5 <=? length h) with true by (symmetry; apply Nat.leb_le; lia).
      destruct h; [simpl in E; lia|reflexivity].
    - apply Nat.ltb_ge in E.
      replace (5 <=? length h) with false
        by (symmetry; apply Nat.leb_gt; lia).
      reflexivity. }
  destruct (handleWhitePage_restores w s1 l _ _ Hrest) as [c Hc].
  exists c, (on_self (set_contentHistory
                        (if 5 <=? length h then tail h else h)) s1).
  split; [|split].
  - rewrite Hc. unfold restore_events. rewrite Hcfg. reflexivity.
  - unfold restore_events. destruct (body_innerHTML page); [contradiction|].
    reflexivity.
  - reflexivity.
Qed.


Lemma snapshot_round_trip_witness :
  exists c s',
    bind (saveContentSnapshot (sample_page "<main>Dashboard</main>"))
      (fun _ => handleWhitePage world_calm) (fresh_system config_all) [] =
      (c, s',
       [] ++ white_page_warning ::
         restore_events (fresh_system config_all)
           (body_innerHTML (sample_page "<main>Dashboard</main>")))
    /\ hd_error (restore_events (fresh_system config_all)
                   (body_innerHTML (sample_page "<main>Dashboard</main>"))) =
         Some (EvSetBodyInnerHTML
                 (body_innerHTML (sample_page "<main>Dashboard</main>")))
    /\ contentHistory (self s') =
         if 5 <=? length (contentHistory (self (fresh_system config_all)))
         then tail (contentHistory (self (fresh_system config_all)))
         else contentHistory (self (fresh_system config_all)).
Proof.
  apply (snapshot_round_trip world_calm
           (sample_page "<main>Dashboard</main>")
           (fresh_system config_all) []).
  discriminate.
Defined.

(** [n] times [start()] then [stop()]. *)
Fixpoint cycles (n : nat) (page : Page) : list Call :=
  match n with
  | O => []
  | S n' => CallStart page :: CallStop :: cycles n' page
  end.

Lemma start_when_running (page : Page) (s : System) (l : list Event) :
  isRunning (self s) = true -> start page s l = (Normal tt, s, l).
Proof. intros H. unfold start. eff. rewrite H. reflexivity. Qed.

Lemma one_cycle (w : World) (page : Page) (s : System) (l : list Event) :
  isRunning (self s) = false ->
  pageBreakDetection_enabled (config (self s)) = true ->
  exists s',
    run_calls w [CallStart page; CallStop] s l = (s', l)
    /\ isRunning (self s') = false
    /\ config (self s') = config (self s)
    /\ mutationObservers (browser s') =
         mutationObservers (browser s) ++ [CheckForPageBreaks].
Proof.
  intros Hr Hp. unfold run_calls, run_call, start, stop,
    startWhitePageDetection, startPageBreakDetection, startVisualHealing,
    setInterval, clearInterval, observe_mutations, observe_resizes.
  destruct s as [[c wi r ls h] b]. simpl in Hr, Hp. subst r.
  eff. simpl. rewrite Hp.
  destruct (whitePageDetection_enabled c), (visualHealing_enabled c),
    wi as [id|]; simpl;
    eexists; (split; [reflexivity|]); simpl; auto.
Qed.

Lemma cycles_observers (w : World) (page : Page) (n : nat) (s : System)
    (l : list Event) :
  isRunning (self s) = false ->
  pageBreakDetection_enabled (config (self s)) = true ->
  mutationObservers (browser (run_calls w (cycles n page) s l).1) =
    mutationObservers (browser s) ++ replicate n CheckForPageBreaks.
Proof.
  revert s. induction n as [|n IH]; intros s Hr Hp.
  - simpl. rewrite app_nil_r. reflexivity.
  - destruct (one_cycle w page s l Hr Hp) as (s1 & H1 & Hr1 & Hc1 & Hm1).
    change (cycles (S n) page)
      with ([CallStart page; CallStop] ++ cycles n page).
    assert (Hsplit : forall cs1 cs2 s0 l0,
              run_calls w (cs1 ++ cs2) s0 l0 =
              run_calls w cs2 (run_calls w cs1 s0 l0).1
                (run_calls w cs1 s0 l0).2).
    { clear. induction cs1 as [|c cs1 IHc]; intros cs2 s0 l0; simpl.
      - reflexivity.
      - destruct (run_call w c s0 l0) as [[? ?] ?]. apply IHc. }
    rewrite Hsplit, H1. simpl fst. simpl snd.
    rewrite IH by (rewrite ?Hc1; assumption).
    rewrite Hm1, <- app_assoc. reflexivity.
Qed.

(** X11. [start] does nothing on an engine that is running; but [stop]
    makes it startable again without disconnecting its mutation observer,
    so every start/stop cycle leaves one more observer behind: after [n]
    cycles of an engine with page-break detection enabled, a single DOM
    mutation runs the page-break check [n] times. *)
Theorem restarts_pile_up_observers (w : World) (c : AutoCorrectConfig)
    (page : Page) (n : nat) :
  pageBreakDetection_enabled c = true ->
  (forall s l, isRunning (self s) = true -> start page s l = (Normal tt, s, l))
  /\ deliver
       (browser (run_calls w (cycles n page) (fresh_system c) []).1)
       DomMutated
     = replicate n CheckForPageBreaks.
Proof.
  intros Hp. split; [intros s l; apply start_when_running|].
  simpl. rewrite cycles_observers by (simpl; auto). reflexivity.
Qed.

Lemma restarts_pile_up_observers_witness :
  (forall s l,
     isRunning (self s) = true ->
     start (sample_page "<main/>") s l = (Normal tt, s, l))
  /\ deliver
       (browser (run_calls world_calm (cycles 3 (sample_page "<main/>"))
                   (fresh_system config_all) []).1)
       DomMutated
     = replicate 3 CheckForPageBreaks.
Proof.
  apply (restarts_pile_up_observers world_calm config_all
           (sample_page "<main/>") 3).
  reflexivity.
Defined.

(** ** Timers nobody clears *)

Section Keeps.
(** A property of the browser's registry that no call undoes. *)
Context (P : Browser -> Prop).

Definition keeps {A : Type} (m : Eff A) : Prop :=
  forall s l, P (browser s) -> P (browser (m s l).1.2).

Lemma keeps_ret {A : Type} (a : A) : keeps (ret a).
Proof. intros s l H. exact H. Qed.

Lemma keeps_get : keeps get.
Proof. intros s l H. exact H. Qed.

Lemma keeps_history : keeps history.
Proof. intros s l H. exact H. Qed.

Lemma keeps_emit (ev : Event) : keeps (emit ev).
Proof. intros s l H. exact H. Qed.

Lemma keeps_throw {A : Type} (err : string) : keeps (throw (A := A) err).
Proof. intros s l H. exact H. Qed.

Lemma keeps_on_self (f : AutoCorrect -> AutoCorrect) :
  keeps (modify (on_self f)).
Proof. intros s l H. exact H. Qed.

Lemma keeps_bind {A B : Type} (m : Eff A) (k : A -> Eff B) :
  keeps m -> (forall a, keeps (k a)) -> keeps (bind m k).
Proof.
  intros Hm Hk s l H. unfold bind. specialize (Hm s l H).
  destruct (m s l) as [[[a|err|] s1] l1]; simpl in *; [|exact Hm..].
  apply Hk, Hm.
Qed.

Lemma keeps_reportAutoCorrect (w : World) (action : AutoCorrectAction) :
  keeps (reportAutoCorrect w action).
Proof.
  unfold reportAutoCorrect.
  apply keeps_bind; [apply keeps_get|intros s].
  destruct (onAutoCorrect _); [|apply keeps_ret].
  apply keeps_bind; [apply keeps_history|intros l].
  apply keeps_bind; [apply keeps_emit|intros _].
  destruct (onAutoCorrect_call _ _ _); [apply keeps_throw|apply keeps_ret].
Qed.

Lemma keeps_handleWhitePage (w : World) : keeps (handleWhitePage w).
Proof.
  unfold handleWhitePage, restoreFromHistory, pop_contentHistory,
    attemptPageReload.
  apply keeps_bind; [apply keeps_emit|intros _].
  apply keeps_bind; [apply keeps_get|intros s].
  destruct (0 <? _); [|apply keeps_emit].
  apply keeps_bind; [apply keeps_get|intros s'].
  destruct (0 <? _); [|apply keeps_ret].
  apply keeps_bind.
  { apply keeps_bind; [apply keeps_get|intros s''].
    apply keeps_bind; [apply keeps_on_self|intros _]. apply keeps_ret. }
  intros lastContent. destruct (truthy_string _); [|apply keeps_ret].
  apply keeps_bind; [apply keeps_emit|intros _].
  apply keeps_reportAutoCorrect.
Qed.

Lemma keeps_saveContentSnapshot (page : Page) :
  keeps (saveContentSnapshot page).
Proof.
  unfold saveContentSnapshot.
  apply keeps_bind; [apply keeps_on_self|intros _].
  apply keeps_bind; [apply keeps_on_self|intros _].
  apply keeps_bind; [apply keeps_get|intros s].
  destruct (5 <? _); [apply keeps_on_self|apply keeps_ret].
Qed.

End Keeps.

(** The one-shot timer [id] is armed for [h], and [id] has been handed
    out. *)
Definition pending (id : positive) (h : Handler) (b : Browser) : Prop :=
  timeouts b !! id = Some h /\ (id < nextTimer b)%positive.

Lemma keeps_setInterval (id : positive) (h h' : Handler) :
  keeps (pending id h) (setInterval h').
Proof.
  intros s l [Ht Hlt]. unfold setInterval. eff.
  split; [exact Ht|]. apply Pos.lt_lt_succ, Hlt.
Qed.

Lemma keeps_setTimeout (id : positive) (h h' : Handler) :
  keeps (pending id h) (setTimeout h').
Proof.
  intros s l [Ht Hlt]. unfold setTimeout. eff.
  split; [|apply Pos.lt_lt_succ, Hlt].
  cbn [fst snd browser on_browser timeouts].
  rewrite lookup_insert_ne; [exact Ht|].
  intros Heq. rewrite Heq in Hlt. exact (Pos.lt_irrefl _ Hlt).
Qed.

Lemma keeps_on_browser_registry (id : positive) (h : Handler)
    (f : Browser -> Browser) :
  (forall b, timeouts (f b) = timeouts b /\ nextTimer (f b) = nextTimer b) ->
  keeps (pending id h) (modify (on_browser f)).
Proof.
  intros Hf s l [Ht Hlt]. unfold modify.
  cbn [fst snd browser on_browser]. unfold pending.
  destruct (Hf (browser s)) as [-> ->]. split; assumption.
Qed.

Lemma keeps_run_call (id : positive) (h : Handler) (w : World) (c : Call) :
  keeps (pending id h) (run_call w c).
Proof.
  destruct c as [page| |page|page]; cbn [run_call].
  - unfold start, startWhitePageDetection, startPageBreakDetection,
      startVisualHealing, observe_mutations, observe_resizes.
    apply keeps_bind; [apply keeps_get|intros s].
    destruct (isRunning _); [apply keeps_ret|].
    apply keeps_bind; [apply keeps_on_self|intros _].
    apply keeps_bind.
    { destruct (whitePageDetection_enabled _); [|apply keeps_ret].
      apply keeps_bind; [apply keeps_setInterval|intros t].
      apply keeps_on_self. }
    intros _. apply keeps_bind.
    { destruct (pageBreakDetection_enabled _); [|apply keeps_ret].
      apply keeps_on_browser_registry. intros b. split; reflexivity. }
    intros _. destruct (visualHealing_enabled _); [|apply keeps_ret].
    apply keeps_on_browser_registry. intros b. split; reflexivity.
  - unfold stop, clearInterval.
    apply keeps_bind; [apply keeps_on_self|intros _].
    apply keeps_bind; [apply keeps_get|intros s].
    destruct (whitePageCheckInterval _); [|apply keeps_ret].
    apply keeps_bind; [|intros _; apply keeps_on_self].
    apply keeps_on_browser_registry. intros b. split; reflexivity.
  - apply keeps_saveContentSnapshot.
  - unfold checkForWhitePage. cbv zeta.
    apply keeps_bind; [apply keeps_get|intros s].
    apply keeps_bind.
    { destruct (_ <? _)%float; [apply keeps_handleWhitePage|apply keeps_ret]. }
    intros _. apply keeps_bind; [apply keeps_history|intros l].
    destruct (_ && _); [|apply keeps_ret].
    unfold handleEmptyPage, injectFallbackContent.
    apply keeps_bind; [apply keeps_emit|intros _].
    apply keeps_bind; [apply keeps_emit|intros _].
    apply keeps_bind; [apply keeps_setTimeout|intros t]. apply keeps_ret.
Qed.

Lemma keeps_run_calls (id : positive) (h : Handler) (w : World)
    (cs : list Call) (s : System) (l : list Event) :
  pending id h (browser s) ->
  pending id h (browser (run_calls w cs s l).1).
Proof.
  revert s l. induction cs as [|c cs IH]; intros s l H; simpl; [exact H|].
  pose proof (keeps_run_call id h w c s l H) as H1.
  destruct (run_call w c s l) as [[r s1] l1]. apply IH, H1.
Qed.

(** X26. The reload that [handleEmptyPage] schedules cannot be called
    off: the class never clears a one-shot timer, so whatever is called
    afterwards - [stop] included - the timer stays armed, and the page
    reloads when it elapses. *)
Theorem scheduled_reload_survives_stop (w : World) (s : System)
    (l : list Event) (cs : list Call) :
  let id := nextTimer (browser s) in
  let after := handleEmptyPage s l in
  deliver (browser (run_calls w cs after.1.2 after.2).1) (TimeoutElapsed id)
    = [AttemptPageReload].
Proof.
  intros id after.
  assert (H : pending id AttemptPageReload (browser after.1.2)).
  { unfold after, handleEmptyPage, injectFallbackContent, setTimeout. eff.
    cbn [fst snd browser on_browser timeouts nextTimer].
    split; [apply lookup_insert_eq|apply Pos.lt_succ_diag_r]. }
  destruct (keeps_run_calls id AttemptPageReload w cs after.1.2 after.2 H)
    as [Ht _].
  unfold deliver. rewrite Ht. reflexivity.
Qed.

End AutoCorrectMore.

(** * More facts about the layout watcher: whole scans and the life cycle *)
Module LayoutWatcherScans.
Import LayoutWatcher FloatFacts LayoutWatcherFacts LayoutWatcherHost.

(** ** The elements a scan visits *)

(** What the selectors match, selector by selector; a selector the
    document rejects matches nothing. *)
Definition found (dom : DOM) (sels : list string) : list Element :=
  concat (omap (querySelectorAll dom) sels).

Definition warning_of (dom : DOM) (selector : string) : option Event :=
  match querySelectorAll dom selector with
  | Some _ => None
  | None => Some (EvConsoleWarn ("Invalid selector: " ++ selector)%string)
  end.

Lemma getElementsToWatch_from_spec (dom : DOM) (sels : list string)
    (elements : list Element) (lw : LayoutWatcher) (l : list Event) :
  getElementsToWatch_from dom sels elements lw l =
    (Normal (elements ++ found dom sels), lw, l ++ omap (warning_of dom) sels).
Proof.
  revert elements l. induction sels as [|selector rest IH]; intros elements l.
  - simpl. unfold found. simpl. rewrite !app_nil_r. reflexivity.
  - cbn [getElementsToWatch_from omap list_omap]. unfold found, warning_of.
    cbn [omap list_omap].
    destruct (querySelectorAll dom selector) as [f|] eqn:Hq.
    + rewrite IH. unfold found, warning_of. simpl.
      rewrite <- app_assoc. reflexivity.
    + unfold bind at 1, emit at 1. rewrite IH. unfold found, warning_of.
      simpl. rewrite <- app_assoc. reflexivity.
Qed.

Lemma getElementsToWatch_spec (dom : DOM) (lw : LayoutWatcher)
    (l : list Event) :
  getElementsToWatch dom lw l =
    (Normal (found dom (selectors (config lw))), lw,
     l ++ omap (warning_of dom) (selectors (config lw))).
Proof.
  unfold getElementsToWatch. unfold bind at 1, get at 1.
  apply (getElementsToWatch_from_spec dom _ []).
Qed.

(** X12. Collecting the elements to watch never throws and leaves the
    watcher alone.  It returns what the selectors match, in the order of
    the selectors and with repetitions kept; a selector the document
    rejects costs one warning and contributes nothing, the others are
    still queried. *)
Theorem invalid_selector_only_warns (dom : DOM) (lw : LayoutWatcher)
    (l : list Event) :
  getElementsToWatch dom lw l =
    (Normal (concat (omap (querySelectorAll dom) (selectors (config lw)))),
     lw,
     l ++ omap (warning_of dom) (selectors (config lw))).
Proof.
  unfold getElementsToWatch. unfold bind at 1, get at 1.
  apply (getElementsToWatch_from_spec dom _ []).
Qed.


(** ** One check of one element *)

(** [m] leaves the fields alone and reports nothing, or one anomaly of
    type [t] about [el]. *)
Definition one_of (t : AnomalyType) (el : Element) (m : Eff unit) : Prop :=
  forall lw l,
    (m lw l = (Normal tt, lw, l))
    \/ exists c a, m lw l = (c, lw, l ++ [EvOnAnomaly a])
                   /\ type a = t /\ element a = el.

(** [m] reports only anomalies about [el], of types that follow the order
    of [ts], each type at most once. *)
Definition reports (el : Element) (ts : list AnomalyType) (m : Eff unit)
    : Prop :=
  forall lw l,
    exists c f anomalies,
      m lw l = (c, on_baselineMetrics f lw, l ++ map EvOnAnomaly anomalies)
      /\ Forall (fun a => element a = el) anomalies
      /\ sublist (map type anomalies) ts.

Lemma on_baselineMetrics_id (lw : LayoutWatcher) :
  on_baselineMetrics (fun m => m) lw = lw.
Proof. destruct lw. reflexivity. Qed.

Lemma one_of_ret (t : AnomalyType) (el : Element) : one_of t el (ret tt).
Proof. intros lw l. left. reflexivity. Qed.

Lemma one_of_reportAnomaly (w : World) (a : LayoutAnomaly) :
  one_of (type a) (element a) (reportAnomaly w a).
Proof.
  intros lw l. right. unfold reportAnomaly. eff.
  destruct (onAnomaly_call w l a); eauto.
Qed.

Lemma one_of_get (t : AnomalyType) (el : Element)
    (k : LayoutWatcher -> Eff unit) :
  (forall lw, one_of t el (k lw)) -> one_of t el (bind get k).
Proof. intros H lw l. exact (H lw lw l). Qed.

Lemma one_of_checkOverflowAnomaly (w : World) (dom : DOM) (el : Element)
    (rect : DOMRect) (style : CSSStyleDeclaration) :
  one_of overflow el (checkOverflowAnomaly w dom el rect style).
Proof.
  unfold checkOverflowAnomaly.
  destruct (_ || _); [|apply one_of_ret].
  destruct (parentElement _); [|apply one_of_ret].
  destruct (_ || _); [|apply one_of_ret].
  apply (one_of_reportAnomaly w (Build_LayoutAnomaly overflow el _ _)).
Qed.

Lemma one_of_checkClippingAnomaly (w : World) (el : Element) (rect : DOMRect)
    (style : CSSStyleDeclaration) :
  one_of clipping el (checkClippingAnomaly w el rect style).
Proof.
  unfold checkClippingAnomaly.
  destruct (_ || _); [|apply one_of_ret].
  destruct (_ || _); [|apply one_of_ret].
  apply (one_of_reportAnomaly w (Build_LayoutAnomaly clipping el _ _)).
Qed.

Lemma one_of_checkPositioningAnomaly (w : World) (dom : DOM) (el : Element)
    (rect : DOMRect) (baseline : option DOMRect) :
  one_of positioning el (checkPositioningAnomaly w dom el rect baseline).
Proof.
  unfold checkPositioningAnomaly.
  destruct baseline as [b|]; [|apply one_of_ret].
  apply one_of_get. intros lw.
  destruct (_ || _); [|apply one_of_ret].
  destruct (gt _ _); [|apply one_of_ret].
  apply (one_of_reportAnomaly w (Build_LayoutAnomaly positioning el _ _)).
Qed.

Lemma one_of_checkSizingAnomaly (w : World) (el : Element) (rect : DOMRect)
    (baseline : option DOMRect) :
  one_of sizing el (checkSizingAnomaly w el rect baseline).
Proof.
  unfold checkSizingAnomaly.
  destruct baseline as [b|]; [|apply one_of_ret].
  apply one_of_get. intros lw.
  destruct (_ || _); [|apply one_of_ret].
  apply (one_of_reportAnomaly w (Build_LayoutAnomaly sizing el _ _)).
Qed.

Lemma one_of_checkVisibilityAnomaly (w : World) (dom : DOM) (el : Element)
    (style : CSSStyleDeclaration) :
  one_of visibility_anomaly el (checkVisibilityAnomaly w dom el style).
Proof.
  unfold checkVisibilityAnomaly.
  destruct (_ || _); [|apply one_of_ret].
  destruct (_ || _); [|apply one_of_ret].
  apply (one_of_reportAnomaly w
           (Build_LayoutAnomaly visibility_anomaly el _ _)).
Qed.

Lemma reports_modify (el : Element)
    (f : gmap Element DOMRect -> gmap Element DOMRect) :
  reports el [] (modify (on_baselineMetrics f)).
Proof.
  intros lw l. exists (Normal tt), f, []. simpl. rewrite app_nil_r.
  split; [reflexivity|]. split; constructor.
Qed.

Lemma reports_bind (el : Element) (t : AnomalyType) (ts : list AnomalyType)
    (m : Eff unit) (k : unit -> Eff unit) :
  one_of t el m -> (forall u, reports el ts (k u)) ->
  reports el (t :: ts) (bind m k).
Proof.
  intros Hm Hk lw l. unfold bind.
  destruct (Hm lw l) as [-> | (c & a & -> & Ht & He)].
  - destruct (Hk tt lw l) as (c & f & anomalies & -> & Hel & Hsub).
    exists c, f, anomalies. split; [reflexivity|]. split; [exact Hel|].
    apply sublist_cons. exact Hsub.
  - destruct c as [[]|err|].
    + destruct (Hk tt lw (l ++ [EvOnAnomaly a]))
        as (c & f & anomalies & -> & Hel & Hsub).
      exists c, f, (a :: anomalies). simpl. rewrite <- app_assoc.
      split; [reflexivity|]. split; [constructor; assumption|].
      rewrite Ht. apply sublist_skip. exact Hsub.
    + exists (Abrupt err), (fun m => m), [a].
      rewrite on_baselineMetrics_id. split; [reflexivity|].
      split; [constructor; [assumption|constructor]|].
      simpl. rewrite Ht. apply sublist_skip, sublist_nil_l.
    + exists Unfinished, (fun m => m), [a].
      rewrite on_baselineMetrics_id. split; [reflexivity|].
      split; [constructor; [assumption|constructor]|].
      simpl. rewrite Ht. apply sublist_skip, sublist_nil_l.
Qed.

Lemma reports_checkElementForAnomalies (w : World) (dom : DOM)
    (el : Element) :
  reports el [overflow; clipping; positioning; sizing; visibility_anomaly]
    (checkElementForAnomalies w dom el).
Proof.
  intros lw l. unfold checkElementForAnomalies.
  destruct (contained (view dom el)); simpl.
  - unfold bind at 1, get at 1.
    apply reports_bind; [apply one_of_checkOverflowAnomaly|intros _].
    apply reports_bind; [apply one_of_checkClippingAnomaly|intros _].
    apply reports_bind; [apply one_of_checkPositioningAnomaly|intros _].
    apply reports_bind; [apply one_of_checkSizingAnomaly|intros _].
    apply reports_bind; [apply one_of_checkVisibilityAnomaly|intros _].
    apply reports_modify.
  - exists (Normal tt), (delete el), [].
    simpl. rewrite app_nil_r. split; [reflexivity|].
    split; [constructor|apply sublist_nil_l].
Qed.

(** X14. One check of one element calls [onAnomaly] at most five times:
    only about that element, at most once per anomaly type, and in the
    order overflow, clipping, positioning, sizing, visibility - also when
    a callback throws and cuts the check short.  Of the watcher's fields
    it changes the baseline only. *)
Theorem check_reports_in_order (w : World) (dom : DOM) (el : Element)
    (lw : LayoutWatcher) (l : list Event) :
  exists c lw' anomalies,
    checkElementForAnomalies w dom el lw l =
      (c, lw', l ++ map EvOnAnomaly anomalies)
    /\ config lw' = config lw
    /\ isRunning lw' = isRunning lw
    /\ Forall (fun a => element a = el) anomalies
    /\ sublist (map type anomalies)
         [overflow; clipping; positioning; sizing; visibility_anomaly].
Proof.
  destruct (reports_checkElementForAnomalies w dom el lw l)
    as (c & f & anomalies & H & Hel & Hsub).
  exists c, (on_baselineMetrics f lw), anomalies. auto.
Qed.


(** ** Documents whose boxes do not move *)

(** Every baseline the watcher holds is the box [rect] gives. *)
Definition aligned (rect : Element -> DOMRect) (lw : LayoutWatcher) : Prop :=
  forall el,
    baselineMetrics lw !! el = None
    \/ baselineMetrics lw !! el = Some (rect el).

Definition steady (rect : Element -> DOMRect) (lw : LayoutWatcher) : Prop :=
  sane lw /\ aligned rect lw.

Definition calm (ev : Event) : Prop := is_drift ev = false.

Lemma calm_other (a : LayoutAnomaly) :
  type a <> positioning -> type a <> sizing -> calm (EvOnAnomaly a).
Proof.
  intros H1 H2. unfold calm. simpl. destruct (type a); congruence.
Qed.

Lemma emits_weaken {A} (Q : Event -> Prop) (P P' : LayoutWatcher -> Prop)
    (m : Eff A) :
  (forall lw, P' lw -> P lw) -> emits Q P m -> emits Q P' m.
Proof. intros HP Hm lw l H. apply Hm, HP, H. Qed.

Lemma steady_insert (rect : Element -> DOMRect) (el : Element)
    (lw : LayoutWatcher) :
  steady rect lw -> steady rect (on_baselineMetrics (insert el (rect el)) lw).
Proof.
  intros [Hs Ha]. split; [exact Hs|]. intros e. simpl.
  destruct (decide (e = el)) as [->|Hne].
  - right. apply lookup_insert_eq.
  - rewrite lookup_insert_ne by congruence. apply Ha.
Qed.

Lemma steady_delete (rect : Element -> DOMRect) (el : Element)
    (lw : LayoutWatcher) :
  steady rect lw -> steady rect (on_baselineMetrics (delete el) lw).
Proof.
  intros [Hs Ha]. split; [exact Hs|]. intros e. simpl.
  destruct (decide (e = el)) as [->|Hne].
  - left. apply lookup_delete_eq.
  - rewrite lookup_delete_ne by congruence. apply Ha.
Qed.

Lemma steady_clear (rect : Element -> DOMRect) (lw : LayoutWatcher) :
  steady rect lw -> steady rect (on_baselineMetrics (fun _ => ∅) lw).
Proof.
  intros [Hs Ha]. split; [exact Hs|]. intros e. left. apply lookup_empty.
Qed.

(** A check of any element of a document whose boxes are those of [rect]
    reports no positioning and no sizing anomaly, and keeps the baselines
    at [rect]. *)
Lemma check_calm (w : World) (dom : DOM) (rect : Element -> DOMRect)
    (el : Element) :
  (forall e, boundingClientRect (view dom e) = rect e) ->
  logs calm (steady rect) (checkElementForAnomalies w dom el).
Proof.
  intros Hrect lw l HP. unfold checkElementForAnomalies.
  destruct (contained (view dom el)); simpl.
  - unfold bind at 1, get at 1. rewrite !Hrect.
    assert (Hlogs : forall baseline,
              baseline = None \/ baseline = Some (rect el) ->
              logs calm (steady rect)
                (bind (checkOverflowAnomaly w dom el (rect el)
                         (computedStyle (view dom el))) (fun _ =>
                 bind (checkClippingAnomaly w el (rect el)
                         (computedStyle (view dom el))) (fun _ =>
                 bind (checkPositioningAnomaly w dom el (rect el) baseline)
                   (fun _ =>
                 bind (checkSizingAnomaly w el (rect el) baseline) (fun _ =>
                 bind (checkVisibilityAnomaly w dom el
                         (computedStyle (view dom el))) (fun _ =>
                 modify (on_baselineMetrics (insert el (rect el)))))))))).
    { intros baseline Hbase.
      apply logs_bind; [apply emits_logs, emits_checkOverflowAnomaly,
                          calm_other|intros _].
      apply logs_bind; [apply emits_logs, emits_checkClippingAnomaly,
                          calm_other|intros _].
      apply logs_bind; [apply emits_logs|intros _].
      { destruct Hbase as [-> | ->]; [apply emits_ret|].
        apply (emits_weaken calm sane); [intros ? [? _]; assumption|].
        apply still_checkPositioningAnomaly. }
      apply logs_bind; [apply emits_logs|intros _].
      { destruct Hbase as [-> | ->]; [apply emits_ret|].
        apply (emits_weaken calm sane); [intros ? [? _]; assumption|].
        apply still_checkSizingAnomaly. }
      apply logs_bind; [apply emits_logs, emits_checkVisibilityAnomaly,
                          calm_other|intros _].
      apply logs_modify. intros lw0. apply steady_insert. }
    apply (Hlogs (baselineMetrics lw !! el)); [apply HP|exact HP].
  - exists (Normal tt), (on_baselineMetrics (delete el) lw), [].
    rewrite app_nil_r. split; [reflexivity|].
    split; [apply steady_delete, HP|constructor].
Qed.

Lemma logs_for_each (Q : Event -> Prop) (P : LayoutWatcher -> Prop)
    (f : Element -> Eff unit) (elements : list Element) :
  (forall el, logs Q P (f el)) -> logs Q P (for_each f elements).
Proof.
  intros Hf. induction elements as [|el rest IH]; simpl.
  - apply emits_logs, emits_ret.
  - apply logs_bind; [apply Hf|intros _; exact IH].
Qed.

Lemma Forall_warnings (Q : Event -> Prop) (dom : DOM) (sels : list string) :
  (forall msg, Q (EvConsoleWarn msg)) -> Forall Q (omap (warning_of dom) sels).
Proof.
  intros HQ. induction sels as [|selector rest IH]; simpl; [constructor|].
  unfold warning_of at 1. destruct (querySelectorAll dom selector); auto.
Qed.

Lemma emits_getElementsToWatch (Q : Event -> Prop)
    (P : LayoutWatcher -> Prop) (dom : DOM) :
  (forall msg, Q (EvConsoleWarn msg)) -> emits Q P (getElementsToWatch dom).
Proof.
  intros HQ lw l _. rewrite getElementsToWatch_spec.
  eexists _, _. split; [reflexivity|]. apply Forall_warnings, HQ.
Qed.

Lemma logs_performAnomalyCheck (Q : Event -> Prop)
    (P : LayoutWatcher -> Prop) (w : World) (dom : DOM) :
  (forall msg, Q (EvConsoleWarn msg)) ->
  (forall el, logs Q P (checkElementForAnomalies w dom el)) ->
  logs Q P (performAnomalyCheck w dom).
Proof.
  intros HQ Hc. unfold performAnomalyCheck.
  apply logs_bind; [apply emits_logs, emits_getElementsToWatch, HQ|].
  intros elements. apply logs_for_each, Hc.
Qed.

Lemma logs_establishBaseline (Q : Event -> Prop) (P : LayoutWatcher -> Prop)
    (dom : DOM) :
  (forall msg, Q (EvConsoleWarn msg)) ->
  (forall lw el,
     P lw ->
     P (on_baselineMetrics
          (insert el (boundingClientRect (view dom el))) lw)) ->
  logs Q P (establishBaseline dom).
Proof.
  intros HQ HP. unfold establishBaseline.
  apply logs_bind; [apply emits_logs, emits_getElementsToWatch, HQ|].
  intros elements. apply logs_for_each. intros el.
  apply logs_modify. intros lw. apply HP.
Qed.

(** ** The same, for the watcher together with the browser *)

Section HostLogs.
Context (Q : Event -> Prop) (P : LayoutWatcher -> Prop).

(** [m] keeps [P] of the watcher's fields and logs only events that
    satisfy [Q]. *)
Definition hlogs {A} (m : HostEff A) : Prop :=
  forall s l, P (self s) ->
    exists c s' new,
      m s l = (c, s', l ++ new) /\ P (self s') /\ Forall Q new.

Lemma hlogs_ret {A} (a : A) : hlogs (ret a).
Proof.
  intros s l HP. exists (Normal a), s, []. rewrite app_nil_r. auto.
Qed.

Lemma hlogs_get : hlogs get.
Proof.
  intros s l HP. exists (Normal s), s, []. rewrite app_nil_r. auto.
Qed.

Lemma hlogs_modify (f : System -> System) :
  (forall s, P (self s) -> P (self (f s))) -> hlogs (modify f).
Proof.
  intros Hf s l HP. exists (Normal tt), (f s), []. rewrite app_nil_r. auto.
Qed.

Lemma hlogs_bind {A B} (m : HostEff A) (k : A -> HostEff B) :
  hlogs m -> (forall a, hlogs (k a)) -> hlogs (bind m k).
Proof.
  intros Hm Hk s l HP. unfold bind.
  destruct (Hm s l HP) as (c & s1 & new & -> & HP1 & Hnew).
  destruct c as [a|err|].
  - destruct (Hk a s1 (l ++ new) HP1) as (c' & s2 & new' & -> & HP2 & Hnew').
    exists c', s2, (new ++ new'). rewrite app_assoc.
    split; [reflexivity|]. split; [exact HP2|]. apply Forall_app. auto.
  - exists (Abrupt err), s1, new. auto.
  - exists Unfinished, s1, new. auto.
Qed.

Lemma hlogs_lift {A} (m : Eff A) : logs Q P m -> hlogs (lift m).
Proof.
  intros Hm s l HP. unfold lift.
  destruct (Hm (self s) l HP) as (c & lw' & new & -> & HP' & Hnew).
  eexists _, _, _. split; [reflexivity|]. auto.
Qed.

Lemma hlogs_on_handles (f : Handles -> Handles) :
  hlogs (modify (on_handles f)).
Proof. apply hlogs_modify. intros s H. exact H. Qed.

Lemma hlogs_on_browser (f : Browser -> Browser) :
  hlogs (modify (on_browser f)).
Proof. apply hlogs_modify. intros s H. exact H. Qed.

Lemma hlogs_fresh_id : hlogs fresh_id.
Proof.
  unfold fresh_id. apply hlogs_bind; [apply hlogs_get|intros s].
  apply hlogs_bind; [apply hlogs_on_browser|intros _]. apply hlogs_ret.
Qed.

Lemma hlogs_for_each_host (f : Element -> HostEff unit)
    (elements : list Element) :
  (forall el, hlogs (f el)) -> hlogs (for_each_host f elements).
Proof.
  intros Hf. induction elements as [|el rest IH]; simpl.
  - apply hlogs_ret.
  - apply hlogs_bind; [apply Hf|intros _; exact IH].
Qed.

Hypothesis Q_warn : forall msg, Q (EvConsoleWarn msg).

Lemma hlogs_setupObservers (dom : DOM) : hlogs (setupObservers dom).
Proof.
  unfold setupObservers.
  apply hlogs_bind; [apply hlogs_fresh_id|intros o].
  apply hlogs_bind; [apply hlogs_on_handles|intros _].
  apply hlogs_bind; [apply hlogs_on_browser|intros _].
  apply hlogs_bind; [apply hlogs_fresh_id|intros r].
  apply hlogs_bind; [apply hlogs_on_handles|intros _].
  apply hlogs_bind;
    [apply hlogs_lift, emits_logs, emits_getElementsToWatch, Q_warn|].
  intros elements. apply hlogs_for_each_host. intros el.
  apply hlogs_bind; [apply hlogs_get|intros s].
  destruct (resizeObserver (handles s));
    [apply hlogs_on_browser|apply hlogs_ret].
Qed.

Lemma hlogs_startPeriodicCheck : hlogs startPeriodicCheck.
Proof.
  unfold startPeriodicCheck, setInterval.
  apply hlogs_bind; [|intros id; apply hlogs_on_handles].
  apply hlogs_bind; [apply hlogs_fresh_id|intros id].
  apply hlogs_bind; [apply hlogs_on_browser|intros _]. apply hlogs_ret.
Qed.

Hypothesis P_isRunning : forall lw b, P lw -> P (set_isRunning b lw).
Hypothesis P_clear :
  forall lw, P lw -> P (on_baselineMetrics (fun _ => ∅) lw).

Lemma hlogs_start (dom : DOM) :
  logs Q P (establishBaseline dom) -> hlogs (start dom).
Proof.
  intros Hb. unfold start.
  apply hlogs_bind; [apply hlogs_get|intros s].
  destruct (isRunning (self s)); [apply hlogs_ret|].
  apply hlogs_bind; [apply hlogs_modify; intros ?; apply P_isRunning|].
  intros _. apply hlogs_bind; [apply hlogs_lift, Hb|intros _].
  apply hlogs_bind; [apply hlogs_setupObservers|intros _].
  apply hlogs_startPeriodicCheck.
Qed.

Lemma hlogs_stop : hlogs stop.
Proof.
  unfold stop, disconnect_body, disconnect_elements, clearInterval.
  apply hlogs_bind; [apply hlogs_modify; intros ?; apply P_isRunning|].
  intros _. apply hlogs_bind; [apply hlogs_get|intros s1].
  apply hlogs_bind.
  { destruct (observer (handles s1)); [|apply hlogs_ret].
    apply hlogs_bind; [apply hlogs_on_browser|intros _].
    apply hlogs_on_handles. }
  intros _. apply hlogs_bind; [apply hlogs_get|intros s2].
  apply hlogs_bind.
  { destruct (resizeObserver (handles s2)); [|apply hlogs_ret].
    apply hlogs_bind; [apply hlogs_on_browser|intros _].
    apply hlogs_on_handles. }
  intros _. apply hlogs_bind; [apply hlogs_get|intros s3].
  apply hlogs_bind.
  { destruct (intervalId (handles s3)); [|apply hlogs_ret].
    apply hlogs_bind; [apply hlogs_on_browser|intros _].
    apply hlogs_on_handles. }
  intros _. apply hlogs_modify. intros ?. apply P_clear.
Qed.

Lemma hlogs_run_call (w : World) (c : Call) :
  (forall dom, dom_of c = Some dom ->
     logs Q P (establishBaseline dom)
     /\ forall el, logs Q P (checkElementForAnomalies w dom el)) ->
  hlogs (run_call w c).
Proof.
  intros Hd. destruct c as [dom| |id dom|o added dom|r targets dom]; simpl.
  - apply hlogs_start, (Hd dom eq_refl).
  - apply hlogs_stop.
  - apply hlogs_bind; [apply hlogs_get|intros s].
    destruct (bool_decide _); [|apply hlogs_ret].
    apply hlogs_lift, logs_performAnomalyCheck;
      [exact Q_warn|apply (Hd dom eq_refl)].
  - apply hlogs_bind; [apply hlogs_get|intros s].
    destruct (bool_decide _); [|apply hlogs_ret].
    apply hlogs_lift, logs_for_each, (Hd dom eq_refl).
  - apply hlogs_bind; [apply hlogs_get|intros s].
    destruct (_ !! r); [|apply hlogs_ret].
    apply hlogs_lift, logs_for_each, (Hd dom eq_refl).
Qed.

Lemma hlogs_run_calls (w : World) (cs : list Call) (s : System)
    (l : list Event) :
  Forall (fun c =>
            forall dom, dom_of c = Some dom ->
              logs Q P (establishBaseline dom)
              /\ forall el, logs Q P (checkElementForAnomalies w dom el))
         cs ->
  P (self s) ->
  exists new,
    (run_calls w cs s l).2 = l ++ new
    /\ P (self (run_calls w cs s l).1) /\ Forall Q new.
Proof.
  intros Hcs. revert s l.
  induction Hcs as [|c cs Hc _ IH]; intros s l HP; simpl.
  - exists []. rewrite app_nil_r. auto.
  - destruct (hlogs_run_call w c Hc s l HP) as (r & s1 & new & -> & HP1 & Hn).
    destruct (IH s1 (l ++ new) HP1) as (new' & -> & HP2 & Hn').
    exists (new ++ new'). rewrite app_assoc.
    split; [reflexivity|]. split; [exact HP2|]. apply Forall_app. auto.
Qed.

End HostLogs.

(** X13. As long as no element's bounding box moves or changes size - the
    document may change in every other way - a watcher whose thresholds
    are not negative never reports a positioning or sizing anomaly,
    whatever sequence of [start], [stop] and browser callbacks it goes
    through, and whichever of its callbacks throw. *)
Theorem unmoved_boxes_never_drift (w : World) (c : LayoutWatcherConfig)
    (rect : Element -> DOMRect) (cs : list Call) :
  non_negative (threshold_overflow (thresholds c)) ->
  non_negative (threshold_positioning (thresholds c)) ->
  Forall (fun call =>
            forall dom, dom_of call = Some dom ->
              forall el, boundingClientRect (view dom el) = rect el)
         cs ->
  Forall (fun ev => is_drift ev = false)
    (run_calls w cs (fresh_system c) []).2.
Proof.
  intros Hov Hpos Hcs.
  destruct (hlogs_run_calls calm (steady rect)) with
    (w := w) (cs := cs) (s := fresh_system c) (l := ([] : list Event))
    as (new & -> & _ & Hnew).
  - intros msg. reflexivity.
  - intros lw b [Hs Ha]. split; [exact Hs|exact Ha].
  - intros lw. apply steady_clear.
  - eapply Forall_impl; [exact Hcs|]. intros call Hcall dom Hdom.
    specialize (Hcall dom Hdom). split.
    + apply logs_establishBaseline; [intros msg; reflexivity|].
      intros lw el Hlw. rewrite Hcall. apply steady_insert, Hlw.
    + intros el. apply check_calm, Hcall.
  - split; [split; assumption|]. intros el. left. apply lookup_empty.
  - exact Hnew.
Qed.

Lemma unmoved_boxes_never_drift_witness :
  Forall (fun ev => is_drift ev = false)
    (run_calls world_calm
       [CallStart (dom_with (box 40 80 120 32));
        IntervalElapsed 3 (dom_with (box 40 80 120 32));
        Resized 2 [1] (dom_with (box 40 80 120 32))]
       (fresh_system config_default) []).2.
Proof.
  apply (unmoved_boxes_never_drift world_calm config_default
           (fun _ => box 40 80 120 32)).
  - reflexivity.
  - reflexivity.
  - repeat constructor; intros dom [= <-] el; reflexivity.
Defined.


(** ** What a watcher leaves registered *)

Definition no_handles : Handles :=
  {| observer := None; resizeObserver := None; intervalId := None |}.

(** A running watcher holds the handles of exactly what the browser has
    registered; a stopped one is as its constructor left it, and the
    browser has nothing registered. *)
Definition in_step (c : LayoutWatcherConfig) (s : System) : Prop :=
  config (self s) = c
  /\ if isRunning (self s)
     then exists o r i,
            handles s = {| observer := Some o; resizeObserver := Some r;
                           intervalId := Some i |}
            /\ mutationObservers (browser s) = {[o]}
            /\ intervals (browser s) = {[i]}
            /\ forall k, k <> r -> resizeObservers (browser s) !! k = None
     else self s = constructor c
          /\ handles s = no_handles
          /\ mutationObservers (browser s) = ∅
          /\ resizeObservers (browser s) = ∅
          /\ intervals (browser s) = ∅.

Lemma for_each_insert_returns (r : Element -> DOMRect)
    (elements : list Element) (lw : LayoutWatcher) (l : list Event) :
  exists f,
    for_each (fun el => modify (on_baselineMetrics (insert el (r el))))
      elements lw l = (Normal tt, on_baselineMetrics f lw, l).
Proof.
  revert lw. induction elements as [|el rest IH]; intros lw; simpl.
  - exists (fun m => m). rewrite on_baselineMetrics_id. reflexivity.
  - unfold bind at 1, modify at 1.
    destruct (IH (on_baselineMetrics (insert el (r el)) lw)) as (f & ->).
    exists (fun m => f (<[el := r el]> m)). reflexivity.
Qed.

Lemma establishBaseline_returns (dom : DOM) (lw : LayoutWatcher)
    (l : list Event) :
  exists f new,
    establishBaseline dom lw l =
      (Normal tt, on_baselineMetrics f lw, l ++ new).
Proof.
  unfold establishBaseline. unfold bind at 1.
  rewrite getElementsToWatch_spec.
  destruct (for_each_insert_returns
              (fun el => boundingClientRect (view dom el))
              (found dom (selectors (config lw))) lw
              (l ++ omap (warning_of dom) (selectors (config lw))))
    as (f & ->).
  eauto.
Qed.

Definition set_resizeObservers (ro : gmap positive (list Element))
    (b : Browser) : Browser :=
  {| mutationObservers := mutationObservers b; resizeObservers := ro;
     intervals := intervals b; next := next b |}.

Lemma for_each_observe_returns (r : positive) (elements : list Element)
    (s : System) (l : list Event) :
  resizeObserver (handles s) = Some r ->
  exists ro,
    for_each_host
      (fun element =>
         bind get (fun s =>
           match resizeObserver (handles s) with
           | Some r => observe_element r element
           | None => ret tt
           end))
      elements s l
    = (Normal tt, on_browser (set_resizeObservers ro) s, l)
    /\ forall k, k <> r -> ro !! k = resizeObservers (browser s) !! k.
Proof.
  revert s. induction elements as [|el rest IH]; intros s Hr; simpl.
  - exists (resizeObservers (browser s)). split; [|reflexivity].
    destruct s as [lw h []]. reflexivity.
  - set (s1 := on_browser (fun b =>
                 set_resizeObservers
                   (<[r := default [] (resizeObservers b !! r) ++ [el]]>
                      (resizeObservers b)) b) s).
    destruct (IH s1 Hr) as (ro & Hrest & Hro).
    exists ro. split.
    + unfold bind at 1. unfold bind at 1, get at 1. rewrite Hr.
      unfold observe_element at 1, modify at 1.
      etransitivity; [exact Hrest|]. reflexivity.
    + intros k Hk. rewrite (Hro k Hk). simpl.
      apply lookup_insert_ne. congruence.
Qed.

Lemma bind_normal {St Ev A B : Type} (m : M (St := St) (Ev := Ev) A)
    (k : A -> M B) (s s1 : St) (l l1 : list Ev) (a : A) :
  m s l = (Normal a, s1, l1) -> bind m k s l = k a s1 l1.
Proof. intros H. unfold bind. rewrite H. reflexivity. Qed.

Lemma lift_getElementsToWatch (dom : DOM) (s : System) (l : list Event) :
  lift (getElementsToWatch dom) s l =
    (Normal (found dom (selectors (config (self s)))), s,
     l ++ omap (warning_of dom) (selectors (config (self s)))).
Proof.
  unfold lift. rewrite getElementsToWatch_spec. destruct s. reflexivity.
Qed.

Lemma setupObservers_returns (dom : DOM) (s : System) (l : list Event) :
  exists ro new,
    setupObservers dom s l =
      (Normal tt,
       {| self := self s;
          handles :=
            {| observer := Some (next (browser s));
               resizeObserver := Some (Pos.succ (next (browser s)));
               intervalId := intervalId (handles s) |};
          browser :=
            {| mutationObservers :=
                 {[next (browser s)]} ∪ mutationObservers (browser s);
               resizeObservers := ro;
               intervals := intervals (browser s);
               next := Pos.succ (Pos.succ (next (browser s))) |} |},
       l ++ new)
    /\ forall k, k <> Pos.succ (next (browser s)) ->
         ro !! k = resizeObservers (browser s) !! k.
Proof.
  unfold setupObservers.
  erewrite (bind_normal fresh_id) by reflexivity.
  erewrite (bind_normal (modify _)) by reflexivity.
  erewrite (bind_normal (observe_body _)) by reflexivity.
  erewrite (bind_normal fresh_id) by reflexivity.
  erewrite (bind_normal (modify _)) by reflexivity.
  erewrite (bind_normal (lift _)) by apply lift_getElementsToWatch.
  match goal with
  | |- context [for_each_host _ ?els ?s1 ?l1] =>
      destruct (for_each_observe_returns (Pos.succ (next (browser s)))
                  els s1 l1 eq_refl) as (ro & -> & Hro)
  end.
  exists ro. eexists. split; [reflexivity|].
  intros k Hk. rewrite (Hro k Hk). reflexivity.
Qed.

Lemma start_in_step (c : LayoutWatcherConfig) (dom : DOM) (s : System)
    (l : list Event) :
  in_step c s ->
  exists s' new,
    start dom s l = (Normal tt, s', l ++ new)
    /\ in_step c s' /\ isRunning (self s') = true.
Proof.
  intros [Hc Hs]. unfold start. unfold bind at 1, get at 1.
  destruct (isRunning (self s)) eqn:Hrun.
  - exists s, []. rewrite app_nil_r. split; [reflexivity|].
    split; [|exact Hrun]. split; [exact Hc|]. rewrite Hrun. exact Hs.
  - destruct Hs as (Hself & Hh & Hmo & Hro & Hiv).
    erewrite (bind_normal (modify _)) by reflexivity.
    destruct (establishBaseline_returns dom
                (self (on_self (set_isRunning true) s)) l)
      as (f & new & Hb).
    erewrite (bind_normal (lift _)) by (unfold lift; rewrite Hb; reflexivity).
    match goal with
    | |- context [bind (setupObservers dom) _ ?s1 ?l1] =>
        destruct (setupObservers_returns dom s1 l1) as (ro & new' & Hso & Hk)
    end.
    erewrite (bind_normal (setupObservers dom)) by exact Hso.
    unfold startPeriodicCheck, setInterval.
    erewrite (bind_normal (bind fresh_id _)) by reflexivity.
    unfold modify. simpl.
    eexists _, (new ++ new'). rewrite app_assoc.
    split; [reflexivity|]. simpl. split; [|reflexivity].
    split; [exact Hc|]. simpl.
    eexists _, _, _. split; [reflexivity|].
    rewrite Hmo, Hiv.
    split; [apply union_empty_r_L|]. split; [apply union_empty_r_L|].
    intros k Hne. rewrite (Hk k Hne). simpl. rewrite Hro. apply lookup_empty.
Qed.

Lemma stop_in_step (c : LayoutWatcherConfig) (s : System) (l : list Event) :
  in_step c s ->
  exists s',
    stop s l = (Normal tt, s', l)
    /\ in_step c s' /\ isRunning (self s') = false.
Proof.
  intros [Hc Hs].
  destruct s as [[cfg run bm] [o r i] [mo ro iv n]]. simpl in Hc, Hs.
  subst cfg. destruct run.
  - destruct Hs as (o' & r' & i' & [= -> -> ->] & -> & -> & Hro).
    eexists. split; [reflexivity|]. simpl. split; [|reflexivity].
    split; [reflexivity|]. simpl.
    split; [reflexivity|]. split; [reflexivity|].
    split; [apply difference_diag_L|].
    split; [|apply difference_diag_L].
    apply map_eq. intros k. rewrite lookup_empty.
    destruct (decide (k = r')) as [->|Hne].
    + apply lookup_delete_eq.
    + rewrite lookup_delete_ne by congruence. apply Hro, Hne.
  - destruct Hs as ([= ->] & [= -> -> ->] & -> & -> & ->).
    eexists. split; [reflexivity|]. simpl. split; [|reflexivity].
    split; [reflexivity|]. simpl. auto.
Qed.

(** Checks change the baseline only. *)
Lemma check_keeps (c : LayoutWatcherConfig) (b : bool) (w : World)
    (dom : DOM) (el : Element) :
  logs (fun _ => True) (fun lw => config lw = c /\ isRunning lw = b)
    (checkElementForAnomalies w dom el).
Proof.
  intros lw l HP.
  destruct (reports_checkElementForAnomalies w dom el lw l)
    as (r & f & anomalies & -> & _ & _).
  eexists _, _, _. split; [reflexivity|]. split; [exact HP|].
  apply Forall_forall. intros; exact I.
Qed.

Lemma lift_in_step (c : LayoutWatcherConfig) (m : Eff unit) (s : System)
    (l : list Event) :
  logs (fun _ => True) (fun lw => config lw = c /\ isRunning lw = true) m ->
  in_step c s -> isRunning (self s) = true ->
  exists r s' new,
    lift m s l = (r, s', l ++ new)
    /\ in_step c s' /\ isRunning (self s') = true.
Proof.
  intros Hm [Hc Hs] Hrun. unfold lift.
  destruct (Hm (self s) l (conj Hc Hrun))
    as (r & lw' & new & -> & [Hc' Hrun'] & _).
  eexists _, _, _. split; [reflexivity|]. simpl.
  split; [|exact Hrun']. split; [exact Hc'|]. simpl.
  rewrite Hrun'. rewrite Hrun in Hs. exact Hs.
Qed.

(** The browser runs no callback of a stopped watcher. *)
Lemma callback_stopped (c : LayoutWatcherConfig) (w : World) (call : Call)
    (s : System) (l : list Event) :
  in_step c s -> isRunning (self s) = false ->
  (forall dom, call <> CallStart dom) ->
  exists s',
    run_call w call s l = (Normal tt, s', l)
    /\ in_step c s' /\ isRunning (self s') = false.
Proof.
  intros Hin Hrun Hcall.
  destruct call as [dom| |id dom|o added dom|r targets dom]; simpl.
  - destruct (Hcall dom eq_refl).
  - apply stop_in_step, Hin.
  - destruct Hin as [Hc Hs]. rewrite Hrun in Hs.
    destruct Hs as (Hself & Hh & Hmo & Hro & Hiv).
    unfold bind, get. rewrite Hiv.
    exists s. split; [reflexivity|]. split; [|exact Hrun].
    split; [exact Hc|]. rewrite Hrun. auto.
  - destruct Hin as [Hc Hs]. rewrite Hrun in Hs.
    destruct Hs as (Hself & Hh & Hmo & Hro & Hiv).
    unfold bind, get. rewrite Hmo.
    exists s. split; [reflexivity|]. split; [|exact Hrun].
    split; [exact Hc|]. rewrite Hrun. auto.
  - destruct Hin as [Hc Hs]. rewrite Hrun in Hs.
    destruct Hs as (Hself & Hh & Hmo & Hro & Hiv).
    unfold bind, get. rewrite Hro, lookup_empty.
    exists s. split; [reflexivity|]. split; [|exact Hrun].
    split; [exact Hc|]. rewrite Hrun. auto.
Qed.

Lemma run_call_in_step (c : LayoutWatcherConfig) (w : World) (call : Call)
    (s : System) (l : list Event) :
  in_step c s ->
  exists r s' new,
    run_call w call s l = (r, s', l ++ new) /\ in_step c s'.
Proof.
  intros Hin.
  destruct (isRunning (self s)) eqn:Hrun.
  - destruct call as [dom| |id dom|o added dom|t targets dom]; simpl.
    + destruct (start_in_step c dom s l Hin) as (s' & new & H & Hin' & _).
      eauto 6.
    + destruct (stop_in_step c s l Hin) as (s' & H & Hin' & _).
      exists (Normal tt), s', []. rewrite app_nil_r. auto.
    + unfold bind at 1, get at 1. destruct (bool_decide _).
      * destruct (lift_in_step c (performAnomalyCheck w dom) s l)
          as (r & s' & new & H & Hin' & _); [|exact Hin|exact Hrun|eauto 6].
        apply logs_performAnomalyCheck; [intros; exact I|].
        intros el. apply check_keeps.
      * exists (Normal tt), s, []. rewrite app_nil_r. auto.
    + unfold bind at 1, get at 1. destruct (bool_decide _).
      * destruct (lift_in_step c
                    (for_each (checkElementForAnomalies w dom) added) s l)
          as (r & s' & new & H & Hin' & _); [|exact Hin|exact Hrun|eauto 6].
        apply logs_for_each. intros el. apply check_keeps.
      * exists (Normal tt), s, []. rewrite app_nil_r. auto.
    + unfold bind at 1, get at 1. destruct (_ !! t) as [observed|].
      * destruct (lift_in_step c
                    (for_each (checkElementForAnomalies w dom)
                       (filter (fun el => el ∈ observed) targets)) s l)
          as (r & s' & new & H & Hin' & _); [|exact Hin|exact Hrun|eauto 6].
        apply logs_for_each. intros el. apply check_keeps.
      * exists (Normal tt), s, []. rewrite app_nil_r. auto.
  - destruct call as [dom| |id dom|o added dom|t targets dom].
    + destruct (start_in_step c dom s l Hin) as (s' & new & H & Hin' & _).
      simpl. eauto 6.
    + destruct (callback_stopped c w CallStop s l Hin Hrun)
        as (s' & -> & Hin' & _); [discriminate|].
      exists (Normal tt), s', []. rewrite app_nil_r. auto.
    + destruct (callback_stopped c w (IntervalElapsed id dom) s l Hin Hrun)
        as (s' & -> & Hin' & _); [discriminate|].
      exists (Normal tt), s', []. rewrite app_nil_r. auto.
    + destruct (callback_stopped c w (Mutated o added dom) s l Hin Hrun)
        as (s' & -> & Hin' & _); [discriminate|].
      exists (Normal tt), s', []. rewrite app_nil_r. auto.
    + destruct (callback_stopped c w (Resized t targets dom) s l Hin Hrun)
        as (s' & -> & Hin' & _); [discriminate|].
      exists (Normal tt), s', []. rewrite app_nil_r. auto.
Qed.

Lemma run_calls_in_step (c : LayoutWatcherConfig) (w : World)
    (cs : list Call) (s : System) (l : list Event) :
  in_step c s -> in_step c (run_calls w cs s l).1.
Proof.
  revert s l. induction cs as [|call cs IH]; intros s l Hin; simpl.
  - exact Hin.
  - destruct (run_call_in_step c w call s l Hin) as (r & s' & new & -> & Hin').
    apply IH, Hin'.
Qed.

Lemma fresh_in_step (c : LayoutWatcherConfig) : in_step c (fresh_system c).
Proof. split; [reflexivity|]. simpl. auto 6. Qed.

(** X15. Through any sequence of [start], [stop] and browser callbacks, a
    watcher and the browser stay in step.  While the watcher runs it holds
    one mutation observer, one resize observer and one interval timer, and
    these are all the browser has registered for it; once stopped it is as
    its constructor made it - the baseline empty - and the browser has
    nothing registered: [stop] undoes all of [start], and starting twice
    registers nothing twice. *)
Theorem stop_undoes_start (w : World) (c : LayoutWatcherConfig)
    (cs : list Call) :
  let s := (run_calls w cs (fresh_system c) []).1 in
  config (self s) = c
  /\ if isRunning (self s)
     then exists o r i,
            handles s = {| observer := Some o; resizeObserver := Some r;
                           intervalId := Some i |}
            /\ mutationObservers (browser s) = {[o]}
            /\ intervals (browser s) = {[i]}
            /\ forall k, k <> r -> resizeObservers (browser s) !! k = None
     else self s = constructor c
          /\ handles s = no_handles
          /\ mutationObservers (browser s) = ∅
          /\ resizeObservers (browser s) = ∅
          /\ intervals (browser s) = ∅.
Proof.
  apply (run_calls_in_step c w cs (fresh_system c) []), fresh_in_step.
Qed.

Lemma run_calls_app (w : World) (cs1 cs2 : list Call) (s : System)
    (l : list Event) :
  run_calls w (cs1 ++ cs2) s l =
    run_calls w cs2 (run_calls w cs1 s l).1 (run_calls w cs1 s l).2.
Proof.
  revert s l. induction cs1 as [|call cs1 IH]; intros s l; simpl.
  - reflexivity.
  - destruct (run_call w call s l) as [[r s1] l1]. apply IH.
Qed.

Lemma stopped_stays_silent (c : LayoutWatcherConfig) (w : World)
    (late : list Call) (s : System) (l : list Event) :
  in_step c s -> isRunning (self s) = false ->
  Forall (fun call => forall dom, call <> CallStart dom) late ->
  (run_calls w late s l).2 = l.
Proof.
  intros Hin Hrun Hlate. revert s Hin Hrun.
  induction Hlate as [|call late Hcall _ IH]; intros s Hin Hrun; simpl.
  - reflexivity.
  - destruct (callback_stopped c w call s l Hin Hrun Hcall)
      as (s' & -> & Hin' & Hrun').
    apply IH; assumption.
Qed.

(** X16. Once [stop] has returned, nothing more is reported or logged
    until the next [start]: whatever the watcher went through before, no
    interval, mutation or resize callback of it runs any more. *)
Theorem nothing_reported_after_stop (w : World) (c : LayoutWatcherConfig)
    (cs late : list Call) :
  Forall (fun call => forall dom, call <> CallStart dom) late ->
  (run_calls w (cs ++ CallStop :: late) (fresh_system c) []).2 =
    (run_calls w cs (fresh_system c) []).2.
Proof.
  intros Hlate. rewrite run_calls_app.
  pose proof (run_calls_in_step c w cs (fresh_system c) [] (fresh_in_step c))
    as Hin.
  destruct (run_calls w cs (fresh_system c) []) as [s l]. simpl in *.
  destruct (stop_in_step c s l Hin) as (s' & -> & Hin' & Hrun').
  apply (stopped_stays_silent c); assumption.
Qed.

Lemma nothing_reported_after_stop_witness :
  (run_calls world_calm
     ([CallStart (dom_with (box 40 80 120 32));
       IntervalElapsed 3 (dom_with (box 0 0 60 32))]
      ++ CallStop ::
        [IntervalElapsed 3 (dom_with (box 40 80 120 32));
         Resized 2 [1] (dom_with (box 40 80 120 32));
         Mutated 1 [1] (dom_with (box 40 80 120 32))])
     (fresh_system config_default) []).2 =
  (run_calls world_calm
     [CallStart (dom_with (box 40 80 120 32));
      IntervalElapsed 3 (dom_with (box 0 0 60 32))]
     (fresh_system config_default) []).2.
Proof.
  apply (nothing_reported_after_stop world_calm config_default).
  repeat constructor; discriminate.
Defined.

End LayoutWatcherScans.

(** * Facts about the provider's reducer *)
Module GuardianProviderFacts.
Import GuardianProvider.

Lemma slice_from_end_step {A : Type} (l : list A) (x : A) :
  slice_from_end 99 (slice_from_end 100 l) ++ [x] =
    slice_from_end 100 (l ++ [x]).
Proof.
  unfold slice_from_end.
  rewrite drop_drop, length_drop, length_app. simpl.
  rewrite drop_app_le by lia. f_equal. f_equal. lia.
Qed.

(** The counters and the two buffers of [state] are those of a provider
    that was sent [seen] since it was last reset. *)
Definition tracks (seen : list GuardianAction) (state : GuardianState)
    : Prop :=
  errors state = slice_from_end 100 (omap error_of seen)
  /\ errorCount state = length (omap error_of seen)
  /\ lastError state = last (omap error_of seen)
  /\ anomalies state = slice_from_end 100 (omap anomaly_of seen)
  /\ anomalyCount state = length (omap anomaly_of seen)
  /\ lastAnomaly state = last (omap anomaly_of seen).

Lemma omap_snoc {A B : Type} (f : A -> option B) (l : list A) (x : A) :
  omap f (l ++ [x]) = omap f l ++ option_list (f x).
Proof. rewrite omap_app. simpl. destruct (f x); reflexivity. Qed.

Lemma tracks_step (seen : list GuardianAction) (state : GuardianState)
    (action : GuardianAction) :
  tracks seen state -> action <> RESET_STATE ->
  tracks (seen ++ [action]) (guardianReducer state action).
Proof.
  intros (He & Hec & Hel & Ha & Hac & Hal) Hne. unfold tracks.
  rewrite !omap_snoc.
  destruct action; try contradiction;
    cbn [guardianReducer errors errorCount lastError anomalies anomalyCount
         lastAnomaly error_of anomaly_of option_list];
    rewrite ?app_nil_r; try (repeat split; assumption).
  - change (option_list (Some payload)) with [payload].
    rewrite He, slice_from_end_step, length_app, last_snoc, Hec. simpl.
    repeat split; assumption.
  - change (option_list (Some payload)) with [payload].
    rewrite Ha, slice_from_end_step, length_app, last_snoc, Hac. simpl.
    repeat split; assumption.
Qed.

Lemma tracks_initial : tracks [] initialState.
Proof. repeat split. Qed.

Lemma tracks_run (actions seen : list GuardianAction)
    (state : GuardianState) :
  tracks seen state ->
  tracks (since_reset seen actions) (foldl guardianReducer state actions).
Proof.
  revert seen state.
  induction actions as [|action rest IH]; intros seen state H; [exact H|].
  destruct action;
    try (apply IH, tracks_step; [exact H|discriminate]).
  apply IH, tracks_initial.
Qed.

(** X17. Whatever is dispatched to the provider, its state shows the
    reports made since the last [RESET_STATE] as follows: [errors] holds
    the last 100 reported errors, oldest first, while [errorCount] counts
    all of them - so the two part ways after the hundredth - and
    [lastError] is the newest; and the same for anomalies. *)
Theorem provider_keeps_last_hundred (actions : list GuardianAction) :
  let reported := omap error_of (since_reset [] actions) in
  let noticed := omap anomaly_of (since_reset [] actions) in
  errors (dispatched actions) = drop (length reported - 100) reported
  /\ errorCount (dispatched actions) = length reported
  /\ lastError (dispatched actions) = last reported
  /\ anomalies (dispatched actions) = drop (length noticed - 100) noticed
  /\ anomalyCount (dispatched actions) = length noticed
  /\ lastAnomaly (dispatched actions) = last noticed.
Proof.
  exact (tracks_run actions [] initialState tracks_initial).
Qed.

End GuardianProviderFacts.

(** * Facts about the retry helper *)
Module UseRecoveryFacts.
Import RecoveryEngine UseRecovery.

Lemma attempt_spec (fuel : nat) (w : World) (maxRetries : nat) :
  forall (r : nat) (l : list Event),
    r <= maxRetries -> maxRetries - r < fuel ->
    exists k c,
      r + k <= maxRetries
      /\ attempt fuel w maxRetries r l =
           (c, r + k, l ++ retries maxRetries r k ++ [EvOperation])
      /\ match c with
         | Normal v =>
             operation_call w (l ++ retries maxRetries r k) = Resolves v
         | Abrupt err =>
             r + k = maxRetries
             /\ operation_call w (l ++ retries maxRetries r k) = Rejects err
         | Unfinished => False
         end.
Proof.
  induction fuel as [|fuel IH]; intros r l Hr Hfuel; [lia|].
  cbn [attempt]. unfold try_catch, await_operation.
  unfold bind at 1, history at 1. unfold bind at 1, emit at 1.
  destruct (operation_call w l) as [v|err] eqn:Hcall.
  - exists 0, (Normal v). simpl. rewrite Nat.add_0_r, app_nil_r.
    split; [lia|]. split; [reflexivity|exact Hcall].
  - unfold throw at 1. unfold bind at 1, get at 1.
    destruct (r <? maxRetries) eqn:Hlt.
    + apply Nat.ltb_lt in Hlt.
      unfold bind at 1, modify at 1. unfold bind at 1, get at 1.
      unfold bind at 1, triggerRecovery at 1, emit at 1.
      destruct (IH (S r)
                  ((l ++ [EvOperation]) ++
                   [EvTriggerRecovery (retry_action (maxRetries - S r))]))
        as (k & c & Hk & Hrun & Hc); [lia|lia|].
      exists (S k), c. split; [lia|].
      replace (r + S k) with (S r + k) by lia.
      assert (Hlog : forall tail,
                ((l ++ [EvOperation]) ++
                 [EvTriggerRecovery (retry_action (maxRetries - S r))]) ++ tail
                = l ++ EvOperation ::
                    EvTriggerRecovery (retry_action (maxRetries - S r)) ::
                    tail).
      { intros tail. rewrite <- !app_assoc. reflexivity. }
      rewrite Hlog in Hrun. rewrite Hlog in Hc.
      split; [exact Hrun|]. cbn [retries].
      destruct c as [v| |]; [exact Hc| |exact Hc].
      destruct Hc as [Hm Hcall']. split; [lia|exact Hcall'].
    + apply Nat.ltb_ge in Hlt.
      exists 0, (Abrupt err). simpl. rewrite Nat.add_0_r, app_nil_r.
      split; [lia|]. split; [reflexivity|]. split; [lia|exact Hcall].
Qed.


(** An operation that fails twice and then resolves. *)
Definition world_third_time_lucky : World :=
  {| operation_call := fun l =>
       if length l <? 4 then Rejects "offline" else Resolves "done" |}.


End UseRecoveryFacts.

(** * Facts about the performance monitor *)
Module PerformanceMonitorFacts.
Import PerformanceMonitor.

Lemma slice_from_end_snoc {A : Type} (n : nat) (recorded : list A) (x : A) :
  (if n <? length (slice_from_end n recorded ++ [x])
   then slice_from_end n (slice_from_end n recorded ++ [x])
   else slice_from_end n recorded ++ [x])
  = slice_from_end n (recorded ++ [x]).
Proof.
  destruct n as [|n].
  - simpl. destruct (0 <? _); reflexivity.
  - unfold slice_from_end.
    rewrite !length_app, length_drop. simpl length.
    destruct (S n <? _) eqn:Hlt.
    + apply Nat.ltb_lt in Hlt.
      rewrite !drop_app_le by (rewrite ?length_drop; lia).
      rewrite drop_drop. f_equal. f_equal. lia.
    + apply Nat.ltb_ge in Hlt.
      rewrite drop_app_le by lia. f_equal. f_equal. lia.
Qed.

(** What [recordMetric] leaves in the fields, however it ends. *)
Lemma recordMetric_metrics (w : World) (metric : PerformanceMetrics)
    (p : PerformanceMonitor) (l : list Event) :
  exists c new,
    recordMetric w metric p l =
      (c,
       set_metrics
         (if maxEntries (config p) <? length (metrics p ++ [metric])
          then slice_from_end (maxEntries (config p)) (metrics p ++ [metric])
          else metrics p ++ [metric]) p,
       l ++ new).
Proof.
  unfold recordMetric. unfold bind at 1, modify at 1.
  unfold bind at 1, get at 1. simpl.
  destruct (maxEntries (config p) <? length (metrics p ++ [metric]));
    unfold bind at 1; [unfold modify at 1|unfold ret at 1];
    unfold bind at 1, get at 1; simpl;
    (destruct (threshold (config p) <? duration metric)%float;
     [|exists (Normal tt), []; rewrite app_nil_r; reflexivity]);
    (destruct (onMetric (config p)) as [cb|];
     [|exists (Normal tt), []; rewrite app_nil_r; reflexivity]);
    eff; destruct (onMetric_call w l metric); eauto.
Qed.

Lemma record_all (w : World) (ms recorded : list PerformanceMetrics)
    (p : PerformanceMonitor) (l : list Event) :
  metrics p = slice_from_end (maxEntries (config p)) recorded ->
  let p' := (run_calls w (map CallRecordMetric ms) p l).1 in
  config p' = config p
  /\ metrics p' = slice_from_end (maxEntries (config p)) (recorded ++ ms).
Proof.
  revert recorded p l. induction ms as [|m ms IH]; intros recorded p l Hp.
  - simpl. rewrite app_nil_r. auto.
  - cbn [map run_calls run_call].
    destruct (recordMetric_metrics w m p l) as (c & new & ->).
    rewrite Hp, slice_from_end_snoc.
    match goal with
    | |- context [run_calls w _ ?p1 ?l1] =>
        destruct (IH (recorded ++ [m]) p1 l1) as [Hc Hm]; [reflexivity|]
    end.
    cbv zeta. rewrite Hc, Hm. simpl. rewrite <- app_assoc. auto.
Qed.

Lemma monitor_call_bounded (w : World) (call : Call) (p : PerformanceMonitor)
    (l : list Event) :
  0 < maxEntries (config p) ->
  length (metrics p) <= maxEntries (config p) ->
  let p' := (run_call w call p l).1.2 in
  config p' = config p /\ length (metrics p') <= maxEntries (config p).
Proof.
  intros Hpos.
  assert (Hrec : forall metric p l,
            length (metrics p) <= maxEntries (config p) ->
            0 < maxEntries (config p) ->
            let p' := (recordMetric w metric p l).1.2 in
            config p' = config p
            /\ length (metrics p') <= maxEntries (config p)).
  { clear. intros metric p l Hlen Hpos.
    destruct (recordMetric_metrics w metric p l) as (c & new & ->). simpl.
    split; [reflexivity|].
    destruct (_ <? _) eqn:Hlt.
    - unfold slice_from_end.
      destruct (maxEntries (config p)) as [|n] eqn:Hn; [lia|].
      rewrite length_drop. lia.
    - apply Nat.ltb_ge in Hlt. exact Hlt. }
  destruct call as [metric|name operation| |entries|durations];
    cbn [run_call]; intros Hlen.
  - apply Hrec; assumption.
  - unfold measure, call_operation. eff.
    destruct (negb (enabled (config p)));
      destruct (operation_call w l operation); simpl; auto.
    specialize (Hrec {| name := name;
                        duration := elapsed w (l ++ [EvOperation operation]) |}
                  p (l ++ [EvOperation operation]) Hlen Hpos).
    destruct (recordMetric w _ p _) as [[[[]| |] p1] l1]; simpl in *; auto.
  - simpl. split; [reflexivity|lia].
  - revert p l Hpos Hlen.
    induction entries as [|entry rest IH]; intros p l Hpos Hlen;
      cbn [on_layout_shifts]; [simpl; auto|].
    destruct (hadRecentInput entry); [simpl; auto|].
    unfold bind.
    specialize (Hrec {| name := "layout-shift"; duration := value entry |}
                  p l Hlen Hpos).
    destruct (recordMetric w _ p l) as [[[[]| |] p1] l1];
      simpl in Hrec; destruct Hrec as [Hc Hl]; [|simpl; auto..].
    destruct (IH p1 l1) as [Hc' Hl']; [rewrite Hc; lia|rewrite Hc; lia|].
    cbv zeta in *. rewrite Hc' at 1. rewrite Hc in Hl'. auto.
  - revert p l Hpos Hlen.
    induction durations as [|d rest IH]; intros p l Hpos Hlen;
      cbn [on_long_tasks]; [simpl; auto|].
    unfold bind.
    specialize (Hrec {| name := "long-task"; duration := d |}
                  p l Hlen Hpos).
    destruct (recordMetric w _ p l) as [[[[]| |] p1] l1];
      simpl in Hrec; destruct Hrec as [Hc Hl]; [|simpl; auto..].
    destruct (IH p1 l1) as [Hc' Hl']; [rewrite Hc; lia|rewrite Hc; lia|].
    cbv zeta in *. rewrite Hc' at 1. rewrite Hc in Hl'. auto.
Qed.

Lemma monitor_calls_bounded (w : World) (cs : list Call) (p : PerformanceMonitor)
    (l : list Event) :
  0 < maxEntries (config p) ->
  length (metrics p) <= maxEntries (config p) ->
  length (metrics (run_calls w cs p l).1) <= maxEntries (config p).
Proof.
  revert p l. induction cs as [|call cs IH]; intros p l Hpos Hlen; simpl.
  - exact Hlen.
  - destruct (monitor_call_bounded w call p l Hpos Hlen) as [Hc Hl].
    destruct (run_call w call p l) as [[c p1] l1]. simpl in Hc, Hl.
    rewrite <- Hc. apply IH; rewrite Hc; assumption.
Qed.

(** X19. The monitor keeps the most recent metrics only when [maxEntries]
    is at least 1: then, whatever is measured, recorded, observed or
    cleared, and whichever callbacks throw, it never holds more than
    [maxEntries] metrics, and after recording [ms] it holds the last
    [maxEntries] of them in order.  With [maxEntries = 0] nothing is ever
    dropped: it holds all of [ms]. *)
Theorem metrics_buffer_bound (w : World) (c : PerformanceConfig)
    (ms : list PerformanceMetrics) :
  metrics (run_calls w (map CallRecordMetric ms) (constructor c) []).1 =
    match maxEntries c with
    | O => ms
    | S _ => drop (length ms - maxEntries c) ms
    end
  /\ forall cs,
       0 < maxEntries c ->
       length (metrics (run_calls w cs (constructor c) []).1) <= maxEntries c.
Proof.
  split.
  - destruct (record_all w ms [] (constructor c) []) as [_ H].
    + simpl. destruct (maxEntries c); reflexivity.
    + exact H.
  - intros cs Hpos.
    apply (monitor_calls_bounded w cs (constructor c) []); simpl; lia.
Qed.

(** The entries of a batch that precede the first one with recent input. *)
Fixpoint before_recent_input (entries : list LayoutShift)
    : list LayoutShift :=
  match entries with
  | [] => []
  | entry :: rest =>
      if hadRecentInput entry then [] else entry :: before_recent_input rest
  end.

(** X20. The layout-shift observer stops at the first entry of a batch
    that had recent input: the entries after it are not recorded either,
    whether or not they had recent input themselves. *)
Theorem layout_shifts_after_input_dropped (w : World)
    (entries : list LayoutShift) (p : PerformanceMonitor) (l : list Event) :
  on_layout_shifts w entries p l =
    on_layout_shifts w (before_recent_input entries) p l.
Proof.
  revert p l. induction entries as [|entry rest IH]; intros p l;
    [reflexivity|].
  cbn [on_layout_shifts before_recent_input].
  destruct (hadRecentInput entry) eqn:Hin; [reflexivity|].
  cbn [on_layout_shifts]. rewrite Hin. unfold bind.
  destruct (recordMetric w _ p l) as [[[[]| |] p1] l1]; [apply IH|..];
    reflexivity.
Qed.

End PerformanceMonitorFacts.

(** * Facts about page-break detection and visual healing *)
Module AutoCorrectHealingFacts.
Import AutoCorrect AutoCorrectHealing.

Section Quiet.
Context (Q : Event -> Prop).

(** [m] returns, leaves the fields alone and logs only events that
    satisfy [Q]. *)
Definition quiet {A : Type} (m : Eff A) : Prop :=
  forall a l, exists x new, m a l = (Normal x, a, l ++ new) /\ Forall Q new.

Lemma quiet_ret {A : Type} (x : A) : quiet (ret x).
Proof. intros a l. exists x, []. rewrite app_nil_r. auto. Qed.

Lemma quiet_get : quiet get.
Proof. intros a l. exists a, []. rewrite app_nil_r. auto. Qed.

Lemma quiet_history : quiet history.
Proof. intros a l. exists l, []. rewrite app_nil_r. auto. Qed.

Lemma quiet_emit (ev : Event) : Q ev -> quiet (emit ev).
Proof. intros H a l. exists tt, [ev]. auto. Qed.

Lemma quiet_bind {A B : Type} (m : Eff A) (k : A -> Eff B) :
  quiet m -> (forall x, quiet (k x)) -> quiet (bind m k).
Proof.
  intros Hm Hk a l. unfold bind.
  destruct (Hm a l) as (x & new & -> & Hnew).
  destruct (Hk x a (l ++ new)) as (y & new' & -> & Hnew').
  exists y, (new ++ new'). rewrite app_assoc. split; [reflexivity|].
  apply Forall_app. auto.
Qed.

Lemma quiet_read {A : Type} (f : list Event -> A) : quiet (read f).
Proof.
  unfold read. apply quiet_bind; [apply quiet_history|intros l].
  apply quiet_ret.
Qed.

Lemma quiet_for_each {A : Type} (f : A -> Eff unit) (xs : list A) :
  (forall x, quiet (f x)) -> quiet (for_each f xs).
Proof.
  intros Hf. induction xs as [|x rest IH]; simpl.
  - apply quiet_ret.
  - apply quiet_bind; [apply Hf|intros _; exact IH].
Qed.

Hypothesis Q_style : forall el property value, Q (EvSetStyle el property value).

Lemma quiet_set_style (el : Element) (property value : string) :
  quiet (set_style el property value).
Proof. apply quiet_emit, Q_style. Qed.

Lemma quiet_fixInvisibleElement (w : World) (el : Element) :
  quiet (fixInvisibleElement w el).
Proof.
  unfold fixInvisibleElement.
  apply quiet_bind; [apply quiet_history|intros l1]. apply quiet_bind.
  { destruct (String.eqb _ _); [apply quiet_set_style|apply quiet_ret]. }
  intros _. apply quiet_bind; [apply quiet_history|intros l2].
  apply quiet_bind.
  { destruct (String.eqb _ _); [apply quiet_set_style|apply quiet_ret]. }
  intros _. apply quiet_bind; [apply quiet_history|intros l3].
  destruct (String.eqb _ _); [apply quiet_set_style|apply quiet_ret].
Qed.

Lemma quiet_fixOverflowElement (w : World) (el : Element) :
  quiet (fixOverflowElement w el).
Proof.
  unfold fixOverflowElement.
  apply quiet_bind; [apply quiet_read|intros rect].
  apply quiet_bind; [apply quiet_history|intros l1]. apply quiet_bind.
  { destruct (gt _ _); [|apply quiet_ret].
    apply quiet_bind; intros; apply quiet_set_style. }
  intros _. apply quiet_bind; [apply quiet_history|intros l2].
  destruct (gt _ _); [|apply quiet_ret].
  apply quiet_bind; intros; apply quiet_set_style.
Qed.

Lemma quiet_checkForVisualIssues (w : World) (el : Element) :
  quiet (checkForVisualIssues w el).
Proof.
  unfold checkForVisualIssues, fixZIndexIssues.
  apply quiet_bind; [apply quiet_read|intros rect].
  apply quiet_bind; [apply quiet_history|intros l1]. apply quiet_bind.
  { destruct (_ && _); [apply quiet_fixInvisibleElement|apply quiet_ret]. }
  intros _. apply quiet_bind; [apply quiet_history|intros l2].
  apply quiet_bind.
  { destruct (_ || _); [apply quiet_fixOverflowElement|apply quiet_ret]. }
  intros _. apply quiet_bind; [apply quiet_history|intros l3].
  destruct (_ && _); [apply quiet_set_style|apply quiet_ret].
Qed.

Lemma quiet_fixElementPositioning (w : World) (el : Element) :
  quiet (fixElementPositioning w el).
Proof.
  unfold fixElementPositioning.
  apply quiet_bind; [apply quiet_read|intros rect].
  destruct (_ || _); [|apply quiet_ret].
  apply quiet_bind; [apply quiet_set_style|intros _].
  apply quiet_bind; intros; apply quiet_set_style.
Qed.

Hypothesis Q_fix : forall ev, is_fix ev = true -> Q ev.

Lemma quiet_fixElementLayout (w : World) (el : Element) :
  quiet (fixElementLayout w el).
Proof.
  unfold fixElementLayout.
  apply quiet_bind; [apply quiet_get|intros a].
  apply quiet_for_each. intros strategy. destruct strategy.
  - unfold reloadComponent.
    apply quiet_bind; [apply quiet_read|intros originalDisplay].
    apply quiet_bind; [apply quiet_set_style|intros _].
    apply quiet_emit, Q_fix. reflexivity.
  - unfold restoreContent.
    apply quiet_bind; [apply quiet_get|intros a'].
    destruct (0 <? _); [|apply quiet_ret].
    destruct (last _); [|apply quiet_ret].
    apply quiet_emit, Q_fix. reflexivity.
  - unfold fixLayout.
    apply quiet_bind; [apply quiet_history|intros l1]. apply quiet_bind.
    { destruct (_ && _); [apply quiet_set_style|apply quiet_ret]. }
    intros _. apply quiet_bind; [apply quiet_history|intros l2].
    destruct (String.eqb _ _); [apply quiet_set_style|apply quiet_ret].
  - apply quiet_emit, Q_fix. reflexivity.
  - unfold retryRender.
    apply quiet_bind; [apply quiet_read|intros parent].
    destruct parent; [|apply quiet_ret].
    apply quiet_emit, Q_fix. reflexivity.
Qed.

End Quiet.

(** X21. Visual healing works in silence: the check of a resized element
    always returns, changes no field of the engine and reports no
    auto-correct action - whatever it finds, all it ever does is write
    inline style properties of that element. *)
Theorem visual_healing_only_writes_styles (w : World) (el : Element)
    (a : AutoCorrect) (l : list Event) :
  exists new,
    checkForVisualIssues w el a l = (Normal tt, a, l ++ new)
    /\ Forall (fun ev => exists property value,
                 ev = EvSetStyle el property value) new.
Proof.
  assert (H : forall el,
            quiet (fun ev => exists e property value,
                     ev = EvSetStyle e property value /\ e = el)
              (checkForVisualIssues w el)).
  { intros e.
    unfold checkForVisualIssues, fixZIndexIssues, fixInvisibleElement,
      fixOverflowElement, set_style.
    repeat first
      [ apply quiet_ret | apply quiet_history | apply quiet_read
      | apply quiet_emit; eauto
      | apply quiet_bind; [|intros ?]
      | match goal with
        | |- quiet _ (if ?b then _ else _) => destruct b
        end ]. }
  destruct (H el a l) as ([] & new & Hrun & Hnew).
  exists new. split; [exact Hrun|].
  eapply Forall_impl; [exact Hnew|].
  intros ev (e & property & value & -> & ->). eauto.
Qed.

(** ** Page breaks *)

Lemma fixElementLayout_idle (w : World) (el : Element) (a : AutoCorrect)
    (l : list Event) :
  visualHealing_strategies (config a) = [] ->
  fixElementLayout w el a l = (Normal tt, a, l).
Proof.
  intros H. unfold fixElementLayout. unfold bind, get. rewrite H. reflexivity.
Qed.


Definition config_no_strategies : AutoCorrectConfig :=
  {| enabled := true;
     whitePageDetection_enabled := true;
     whitePageDetection_threshold := 0x1.3333333333333p-2;
     whitePageDetection_checkInterval := 5000;
     pageBreakDetection_enabled := true;
     pageBreakDetection_selectors := ["main"; ".content"; "#app"];
     pageBreakDetection_minHeight := 100;
     visualHealing_enabled := true;
     visualHealing_strategies := [];
     onAutoCorrect := Some "onAutoCorrect" |}.

(** A document with one short element under [main], which rejects the
    selector [".content"]. *)
Definition world_short_main : World :=
  {| querySelectorAll := fun _ selector =>
       if String.eqb selector "main" then Some [7]
       else if String.eqb selector ".content" then None
       else Some [];
     getBoundingClientRect := fun _ _ =>
       {| top := 0; left := 0; width := 800; height := 12 |};
     computed := fun _ _ _ => "auto";
     inline_display := fun _ _ => "";
     children_length := fun _ _ => 0;
     parentNode := fun _ _ => None;
     window_innerWidth := fun _ => 1024%float;
     window_innerHeight := fun _ => 768%float;
     onAutoCorrect_call := fun _ _ => None |}.


(** An element the scan leaves alone: not shorter than [minHeight], and
    neither above nor left of the viewport. *)
Definition sound (w : World) (a : AutoCorrect) (l : list Event)
    (el : Element) : Prop :=
  (height (getBoundingClientRect w l el)
     <? pageBreakDetection_minHeight (config a))%float = false
  /\ (top (getBoundingClientRect w l el) <? 0)%float = false
  /\ (left (getBoundingClientRect w l el) <? 0)%float = false.

Lemma checkElement_sound (w : World) (a : AutoCorrect) (l : list Event)
    (el : Element) :
  sound w a l el -> checkElement w el a l = (Normal tt, a, l).
Proof.
  intros (Hh & Ht & Hl). unfold checkElement, read. eff.
  rewrite Hh, Ht, Hl. reflexivity.
Qed.

Lemma for_each_sound (w : World) (a : AutoCorrect) (l : list Event)
    (els : list Element) :
  Forall (sound w a l) els ->
  for_each (checkElement w) els a l = (Normal tt, a, l).
Proof.
  induction 1 as [|el els Hel _ IH]; simpl; [reflexivity|].
  unfold bind. rewrite (checkElement_sound w a l el Hel). exact IH.
Qed.

(** X23. A scan for page breaks leaves a sound document alone: when every
    selector is accepted and every element it matches is at least
    [minHeight] tall and neither above nor left of the viewport, the scan
    returns without writing to the document, warning or reporting. *)
Theorem sound_page_untouched (w : World) (a : AutoCorrect)
    (l : list Event) :
  Forall (fun selector =>
            exists els, querySelectorAll w l selector = Some els
                        /\ Forall (sound w a l) els)
         (pageBreakDetection_selectors (config a)) ->
  checkForPageBreaks w a l = (Normal tt, a, l).
Proof.
  unfold checkForPageBreaks. unfold bind at 1, get at 1.
  induction 1 as [|selector rest (els & Hq & Hels) _ IH]; simpl;
    [reflexivity|].
  unfold bind at 1. unfold checkSelector, read. unfold bind at 1.
  unfold bind at 1, history at 1, ret at 1. rewrite Hq.
  rewrite (for_each_sound w a l els Hels). exact IH.
Qed.

(** A document whose elements are all well inside the viewport. *)
Definition world_sound : World :=
  {| querySelectorAll := fun _ _ => Some [1; 2];
     getBoundingClientRect := fun _ _ =>
       {| top := 10; left := 0; width := 800; height := 400 |};
     computed := fun _ _ _ => "auto";
     inline_display := fun _ _ => "";
     children_length := fun _ _ => 0;
     parentNode := fun _ _ => None;
     window_innerWidth := fun _ => 1024%float;
     window_innerHeight := fun _ => 768%float;
     onAutoCorrect_call := fun _ _ => None |}.

Lemma sound_page_untouched_witness :
  checkForPageBreaks world_sound (constructor config_no_strategies) [] =
    (Normal tt, constructor config_no_strategies, []).
Proof.
  apply (sound_page_untouched world_sound
           (constructor config_no_strategies) []).
  repeat constructor; exists [1; 2]; (split; [reflexivity|]);
    repeat constructor.
Defined.

Lemma invalid_selector_aborts (w : World) (before after : list string)
    (bad : string) (a : AutoCorrect) (l : list Event) :
  (forall l', querySelectorAll w l' bad = None) ->
  exists c a' l',
    for_each (checkSelector w) (before ++ bad :: after) a l = (c, a', l')
    /\ for_each (checkSelector w) (before ++ [bad]) a l = (c, a', l')
    /\ c <> Normal tt.
Proof.
  intros Hbad. revert a l.
  induction before as [|selector before IH]; intros a l.
  - simpl. unfold bind. unfold checkSelector, read. eff. rewrite Hbad.
    eexists _, _, _. split; [reflexivity|]. split; [reflexivity|].
    discriminate.
  - assert (Hstep : forall rest,
              for_each (checkSelector w) (selector :: rest) a l =
              match checkSelector w selector a l with
              | (Normal _, a1, l1) => for_each (checkSelector w) rest a1 l1
              | (Abrupt err, a1, l1) => (Abrupt err, a1, l1)
              | (Unfinished, a1, l1) => (Unfinished, a1, l1)
              end) by reflexivity.
    rewrite <- !app_comm_cons, !Hstep.
    destruct (checkSelector w selector a l) as [[[[]|err|] a1] l1].
    + apply IH.
    + eexists _, _, _. split; [reflexivity|]. split; [reflexivity|].
      discriminate.
    + eexists _, _, _. split; [reflexivity|]. split; [reflexivity|].
      discriminate.
Qed.

(** X24. A selector that the document rejects ends the scan for page
    breaks with an exception: unlike the layout watcher, nothing catches
    it.  The scan never returns normally, and the selectors configured
    after the rejected one are never looked at: what the scan does is
    what working through the selectors up to the rejected one does. *)
Theorem invalid_selector_aborts_scan (w : World)
    (before after : list string) (bad : string) (a : AutoCorrect)
    (l : list Event) :
  pageBreakDetection_selectors (config a) = before ++ bad :: after ->
  (forall l', querySelectorAll w l' bad = None) ->
  exists c a' l',
    checkForPageBreaks w a l = (c, a', l')
    /\ c <> Normal tt
    /\ for_each (checkSelector w) (before ++ [bad]) a l = (c, a', l').
Proof.
  intros Hsel Hbad. unfold checkForPageBreaks. unfold bind at 1, get at 1.
  rewrite Hsel.
  destruct (invalid_selector_aborts w before after bad a l Hbad)
    as (c & a' & l' & H1 & H2 & Hc).
  exists c, a', l'. auto.
Qed.

Lemma invalid_selector_aborts_scan_witness :
  exists c a' l',
    checkForPageBreaks world_short_main (constructor config_no_strategies) []
      = (c, a', l')
    /\ c <> Normal tt
    /\ for_each (checkSelector world_short_main) (["main"] ++ [".content"])
         (constructor config_no_strategies) [] = (c, a', l').
Proof.
  apply (invalid_selector_aborts_scan world_short_main ["main"] ["#app"]
           ".content" (constructor config_no_strategies) []);
    reflexivity.
Defined.

End AutoCorrectHealingFacts.
